(** * text2vec-openai vectorizer: the adaptive batch scheduler

    A shallow embedding of [modules/text2vec-openai/vectorizer/objects.go]:
    the single-object path [object], the batch entry point [ObjectBatch],
    the request helper [makeRequest] and the long-running [batchWorker].

    The worker talks to three things it does not own: the vectorization
    client, the wall clock and the job's context.  They are modelled as
    oracles indexed by the number of times they have been consulted, so a
    theorem quantified over the environment covers every behaviour of the
    collaborators.  Go's [int] and [time.Duration] are 64-bit: arithmetic on
    them is written with its wrap-around.  [float32] and [float64] are the
    IEEE formats of [SpecFloat] at precisions 24 and 53.

    The module [Rest] embeds [adapters/handlers/rest/middlewares.go], the
    chain of HTTP middlewares in front of the API. *)

From Stdlib Require Import ZArith String Ascii Bool Lia.
From Stdlib Require Import Floats.SpecFloat.
From stdpp Require Import base option list gmap strings sorting.

Local Open Scope Z_scope.

(** ** Machine integers *)

Definition wrap64 (z : Z) : Z := (z + 2 ^ 63) mod 2 ^ 64 - 2 ^ 63.
Definition minInt64 : Z := - 2 ^ 63.
Definition maxInt64 : Z := 2 ^ 63 - 1.
Definition inInt64 (z : Z) : bool := (minInt64 <=? z) && (z <=? maxInt64).

(** [Time.Sub] saturates instead of wrapping. *)
Definition sat64 (z : Z) : Z :=
  if z <? minInt64 then minInt64 else if maxInt64 <? z then maxInt64 else z.

(** [time.Second], in nanoseconds. *)
Definition Second : Z := 1000000000.

(** ** Floating point *)

Definition float32 := spec_float.
Definition float64 := spec_float.

(** Truncation toward zero of a finite float; [None] for NaN and the
    infinities. *)
Definition truncate (x : spec_float) : option Z :=
  match x with
  | S754_zero _ => Some 0
  | S754_finite s m e =>
      let a := Z.shiftl (Zpos m) e in Some (if s then - a else a)
  | _ => None
  end.

(** Conversion of a float to [int64].  The language leaves the result open
    when the value does not fit; the value below is the one the amd64
    conversion instructions produce. *)
Definition to_int64 (x : spec_float) : Z :=
  match truncate x with
  | Some z => if inInt64 z then z else minInt64
  | None => minInt64
  end.

Module F32.
Definition prec : Z := 24.
Definition emax : Z := 128.
Definition of_int (z : Z) : float32 := binary_normalize prec emax z 0 false.
Definition mul : float32 -> float32 -> float32 := SFmul prec emax.
Definition div : float32 -> float32 -> float32 := SFdiv prec emax.
Definition add : float32 -> float32 -> float32 := SFadd prec emax.
Definition ltb : float32 -> float32 -> bool := SFltb.
(** The constant [0.95] converted to [float32]. *)
Definition c095 : float32 := div (of_int 95) (of_int 100).
Definition one : float32 := of_int 1.
End F32.

Module F64.
Definition prec : Z := 53.
Definition emax : Z := 1024.
Definition of_int (z : Z) : float64 := binary_normalize prec emax z 0 false.
Definition mul : float64 -> float64 -> float64 := SFmul prec emax.
Definition div : float64 -> float64 -> float64 := SFdiv prec emax.
Definition add : float64 -> float64 -> float64 := SFadd prec emax.
Definition ltb : float64 -> float64 -> bool := SFltb.
Definition zero : float64 := S754_zero false.
End F64.

(** [Duration.Seconds]: whole seconds plus the nanosecond rest over 1e9. *)
Definition Seconds (d : Z) : float64 :=
  let sec := Z.quot d Second in
  let nsec := Z.rem d Second in
  F64.add (F64.of_int sec) (F64.div (F64.of_int nsec) (F64.of_int 1000000000)).

(** ** Constants of the package *)

Definition MaxObjectsPerBatch : nat := 2000.
Definition BatchChannelSize : nat := 100.
Definition OpenAiMaxTimePerBatch : float64 := F64.of_int 10.

(** ** Data model *)

Definition error := string.
Definition embedding := list float32.

(** Modelled from the spec: [ent.RateLimits] is declared outside the files
    at hand.  The spec lists its six fields; the worker uses them as [int]
    counts and whole seconds. *)
Record RateLimits := mkRateLimits {
  LimitRequests : Z;
  LimitTokens : Z;
  RemainingRequests : Z;
  RemainingTokens : Z;
  ResetRequests : Z;
  ResetTokens : Z;
}.

(** Modelled from the spec: [ent.VectorizationResult], of which the code
    reads [Vector] and [Errors], one entry per input text.  A [nil] entry is
    [None]. *)
Record VectorizationResult := mkResult {
  Vector : list (option embedding);
  Errors : list (option error);
}.

(** What [getVectorizationConfig] extracts from the class configuration; the
    scheduler forwards it untouched. *)
Record VectorizationConfig := mkConfig {
  Type_ : string;
  Model : string;
  ModelVersion : string;
  ResourceName : string;
  DeploymentID : string;
  BaseURL : string;
  IsAzure : bool;
  Dimensions : option Z;
}.

(** The three results of [Client.Vectorize]; each may be [nil]. *)
Record Response := mkResponse {
  resp_res : option VectorizationResult;
  resp_rateLimit : option RateLimits;
  resp_err : option error;
}.

(** The fields of [batchJob] that are plain values.  [ctx] is consulted
    through the environment, [wg] is the completion of the run, and the
    shared [errs] map and [vecs] slice live in the state below, because the
    worker mutates what the caller will read. *)
Module batchJob.
Record t := mk {
  texts : list string;
  tokens : list Z;
  cfg : VectorizationConfig;
  skipObject : list bool;
  startTime : Z;
}.
End batchJob.

(** The collaborators of the worker. *)
Record Env := mkEnv {
  (** the n-th call of [client.Vectorize] *)
  Vectorize : nat -> VectorizationConfig -> list string -> Response;
  (** the n-th reading of the clock, in nanoseconds *)
  clock : nat -> Z;
  (** whether the n-th [job.ctx.Err()] is non-nil *)
  ctxErr : nat -> bool;
  maxBatchTime : Z;
}.

Inductive Phase := Bootstrap | Dispatch | Drain.

(** What the worker did, oldest first: it admitted the text at index [i]
    into the sub-batch (lines 193-196), which brought the token total to
    [total] while the remaining-token budget read [remaining]; it called the
    client with [txts], the texts at the indices [idx]; it slept for [d]
    nanoseconds; it signalled the completion of the job. *)
Inductive Event :=
| EvAdmit (i : nat) (total : Z) (remaining : Z)
| EvRequest (ph : Phase) (txts : list string) (idx : list nat)
| EvSleep (d : Z)
| EvDone.

(** The variables of [batchWorker], the job's shared buffers and the
    counters of the oracles. *)
Record State := mkState {
  rateLimit : option RateLimits;
  texts : list string;
  origIndex : list nat;
  firstRequest : bool;
  timePerToken : float64;
  batchTookInS : float64;
  objCounter : nat;
  tokensInCurrentBatch : Z;
  errs : gmap nat error;
  vecs : list (option embedding);
  calls : nat;
  ticks : nat;
  polls : nat;
  trace : list Event;
}.

Definition set_rateLimit (v : option RateLimits) (s : State) : State :=
  mkState v (texts s) (origIndex s) (firstRequest s) (timePerToken s)
    (batchTookInS s) (objCounter s) (tokensInCurrentBatch s) (errs s) (vecs s)
    (calls s) (ticks s) (polls s) (trace s).
Definition set_batch (t : list string) (o : list nat) (n : Z) (s : State) : State :=
  mkState (rateLimit s) t o (firstRequest s) (timePerToken s)
    (batchTookInS s) (objCounter s) n (errs s) (vecs s)
    (calls s) (ticks s) (polls s) (trace s).
Definition set_firstRequest (b : bool) (s : State) : State :=
  mkState (rateLimit s) (texts s) (origIndex s) b (timePerToken s)
    (batchTookInS s) (objCounter s) (tokensInCurrentBatch s) (errs s) (vecs s)
    (calls s) (ticks s) (polls s) (trace s).
Definition set_timing (took tpt : float64) (s : State) : State :=
  mkState (rateLimit s) (texts s) (origIndex s) (firstRequest s) tpt
    took (objCounter s) (tokensInCurrentBatch s) (errs s) (vecs s)
    (calls s) (ticks s) (polls s) (trace s).
Definition set_objCounter (n : nat) (s : State) : State :=
  mkState (rateLimit s) (texts s) (origIndex s) (firstRequest s) (timePerToken s)
    (batchTookInS s) n (tokensInCurrentBatch s) (errs s) (vecs s)
    (calls s) (ticks s) (polls s) (trace s).
Definition set_errs (m : gmap nat error) (s : State) : State :=
  mkState (rateLimit s) (texts s) (origIndex s) (firstRequest s) (timePerToken s)
    (batchTookInS s) (objCounter s) (tokensInCurrentBatch s) m (vecs s)
    (calls s) (ticks s) (polls s) (trace s).
Definition set_vecs (v : list (option embedding)) (s : State) : State :=
  mkState (rateLimit s) (texts s) (origIndex s) (firstRequest s) (timePerToken s)
    (batchTookInS s) (objCounter s) (tokensInCurrentBatch s) (errs s) v
    (calls s) (ticks s) (polls s) (trace s).
Definition tick (s : State) : State :=
  mkState (rateLimit s) (texts s) (origIndex s) (firstRequest s) (timePerToken s)
    (batchTookInS s) (objCounter s) (tokensInCurrentBatch s) (errs s) (vecs s)
    (calls s) (S (ticks s)) (polls s) (trace s).
Definition poll (s : State) : State :=
  mkState (rateLimit s) (texts s) (origIndex s) (firstRequest s) (timePerToken s)
    (batchTookInS s) (objCounter s) (tokensInCurrentBatch s) (errs s) (vecs s)
    (calls s) (ticks s) (S (polls s)) (trace s).
Definition called (s : State) : State :=
  mkState (rateLimit s) (texts s) (origIndex s) (firstRequest s) (timePerToken s)
    (batchTookInS s) (objCounter s) (tokensInCurrentBatch s) (errs s) (vecs s)
    (S (calls s)) (ticks s) (polls s) (trace s).
Definition emit (e : Event) (s : State) : State :=
  mkState (rateLimit s) (texts s) (origIndex s) (firstRequest s) (timePerToken s)
    (batchTookInS s) (objCounter s) (tokensInCurrentBatch s) (errs s) (vecs s)
    (calls s) (ticks s) (polls s) (trace s ++ [e]).

(** ** Run-time panics *)

Inductive Res (A : Type) : Type :=
| Ok (a : A)
| Panicked (msg : string).
Arguments Ok {A} a.
Arguments Panicked {A} msg.

#[global] Instance Res_ret : MRet Res := fun A a => Ok a.
#[global] Instance Res_bind : MBind Res := fun A B k c =>
  match c with
  | Ok a => k a
  | Panicked msg => Panicked msg
  end.

(** [l[i]] *)
Definition index {A} (l : list A) (i : nat) : Res A :=
  match l !! i with
  | Some a => Ok a
  | None => Panicked "index out of range"
  end.

(** [*p] *)
Definition deref {A} (p : option A) : Res A :=
  match p with
  | Some a => Ok a
  | None => Panicked "nil pointer dereference"
  end.

(** [l[i] = v] *)
Definition store {A} (l : list A) (i : nat) (v : A) : Res (list A) :=
  if (i <? length l)%nat then Ok (<[i:=v]> l)
  else Panicked "index out of range".

(** ** [makeRequest] *)

(** The loop of the failure branch: every text of the call gets the call's
    error. *)
Fixpoint failAll (err : error) (origIdx : list nat) (js : list nat)
    (es : gmap nat error) : Res (gmap nat error) :=
  match js with
  | [] => Ok es
  | j :: js' =>
      i ← index origIdx j;
      failAll err origIdx js' (<[i:=err]> es)
  end.

(** The loop of the success branch: per text, its error or its vector. *)
Fixpoint writeResults (res : option VectorizationResult) (origIdx : list nat)
    (js : list nat) (es : gmap nat error) (vs : list (option embedding))
    : Res (gmap nat error * list (option embedding)) :=
  match js with
  | [] => Ok (es, vs)
  | j :: js' =>
      r ← deref res;
      e ← index (Errors r) j;
      match e with
      | Some e =>
          i ← index origIdx j;
          writeResults res origIdx js' (<[i:=e]> es) vs
      | None =>
          i ← index origIdx j;
          v ← index (Vector r) j;
          vs' ← store vs i v;
          writeResults res origIdx js' es vs'
      end
  end.

Definition makeRequest (env : Env) (job : batchJob.t) (ph : Phase)
    (txts : list string) (origIdx : list nat) (s : State)
    : Res (option RateLimits * option error * State) :=
  let resp := Vectorize env (calls s) (batchJob.cfg job) txts in
  let s := emit (EvRequest ph txts origIdx) (called s) in
  let js := seq 0 (length txts) in
  match resp_err resp with
  | Some err =>
      es ← failAll err origIdx js (errs s);
      Ok (resp_rateLimit resp, Some err, set_errs es s)
  | None =>
      '(es, vs) ← writeResults (resp_res resp) origIdx js (errs s) (vecs s);
      Ok (resp_rateLimit resp, None, set_vecs vs (set_errs es s))
  end.

(** ** [batchWorker], one job *)

(** [for j := from; j < len(job.texts); j++ { if !job.skipObject[j] { job.errs[j] = e } }] *)
Fixpoint markEach (skip : list bool) (e : error) (js : list nat)
    (es : gmap nat error) : Res (gmap nat error) :=
  match js with
  | [] => Ok es
  | j :: js' =>
      b ← index skip j;
      markEach skip e js' (if b : bool then es else <[j:=e]> es)
  end.

Definition markFrom (job : batchJob.t) (e : error) (from : nat)
    (es : gmap nat error) : Res (gmap nat error) :=
  markEach (batchJob.skipObject job) e
    (seq from (length (batchJob.texts job) - from)) es.

Definition errCancelled : error := "context deadline exceeded or cancelled".
Definition errTooLong : error := "text too long for vectorization".
Definition errTooLongNoWait : error :=
  "text too long for vectorization. Cannot wait for token refresh due to time limit".
Definition errRateLimit : error :=
  "request rate limit exceeded and will not refresh in time".

(** [time.Since(t)], reading the clock once. *)
Definition since (env : Env) (s : State) (t : Z) : Z :=
  sat64 (clock env (ticks s) - t).

Inductive Control := Continue | Break.

(** The body of the first loop: the probing request. *)
Definition bootstrapBody (env : Env) (job : batchJob.t) (s : State)
    : Res State :=
  skip ← index (batchJob.skipObject job) (objCounter s);
  if skip : bool then Ok (set_objCounter (S (objCounter s)) s)
  else
    '(rl, err, s1) ← makeRequest env job Bootstrap
        (take 1 (drop (objCounter s) (batchJob.texts job))) [objCounter s] s;
    let s2 := set_rateLimit rl s1 in
    match err with
    | Some e => Ok (set_errs (<[objCounter s := e]> (errs s2)) s2)
    | None => Ok (set_objCounter (S (objCounter s)) (set_firstRequest false s2))
    end.

(** The three admission conditions of line 192, on the running token total
    [total], the candidate's token count [tok] and the texts gathered. *)
Definition withinBudget (total remaining : Z) : bool :=
  F32.ltb (F32.of_int total) (F32.mul F32.c095 (F32.of_int remaining)).

Definition withinTime (tpt : float64) (total : Z) : bool :=
  F64.ltb (F64.mul tpt (F64.of_int total)) OpenAiMaxTimePerBatch.

Definition admits (rl : RateLimits) (tpt : float64) (total tok : Z)
    (gathered : nat) : bool :=
  withinBudget (wrap64 (total + tok)) (RemainingTokens rl)
  && withinTime tpt total
  && (gathered <? MaxObjectsPerBatch)%nat.

Definition fractionOfTotalLimit (rl : RateLimits) (tok : Z) : float32 :=
  F32.div (F32.of_int tok) (F32.of_int (LimitTokens rl)).

Definition sleepTime (rl : RateLimits) (tok : Z) : Z :=
  wrap64 (to_int64 (F32.add (F32.mul (F32.of_int (ResetTokens rl))
                                     (fractionOfTotalLimit rl tok)) F32.one)
          * Second).

Definition creditTokens (rl : RateLimits) (tok : Z) : RateLimits :=
  mkRateLimits (LimitRequests rl) (LimitTokens rl) (RemainingRequests rl)
    (wrap64 (RemainingTokens rl
             + to_int64 (F32.mul (F32.of_int (LimitTokens rl))
                                 (fractionOfTotalLimit rl tok))))
    (ResetRequests rl) (ResetTokens rl).

(** Lines 205-216: a single object that does not fit the budget. *)
Definition oversizeWait (env : Env) (job : batchJob.t) (rl : RateLimits)
    (s : State) : Res (Control * State) :=
  tok ← index (batchJob.tokens job) (objCounter s);
  let d := sleepTime rl tok in
  let elapsed := since env s (batchJob.startTime job) in
  let s := tick s in
  if wrap64 (elapsed + d) <? maxBatchTime env then
    Ok (Continue, set_rateLimit (Some (creditTokens rl tok)) (emit (EvSleep d) s))
  else
    Ok (Continue, set_objCounter (S (objCounter s))
                    (set_errs (<[objCounter s := errTooLongNoWait]> (errs s)) s)).

Definition resetWait (rl : RateLimits) : Z := wrap64 (ResetRequests rl * Second).

(** Lines 218-243: send the gathered texts, refresh the limits, throttle. *)
Definition dispatch (env : Env) (job : batchJob.t) (rl : RateLimits)
    (s : State) : Res (Control * State) :=
  let start := clock env (ticks s) in
  let s := tick s in
  '(rateLimitNew, _, s) ← makeRequest env job Dispatch (texts s) (origIndex s) s;
  let took := Seconds (since env s start) in
  let s := tick s in
  let s := set_timing took (F64.div took (F64.of_int (tokensInCurrentBatch s))) s in
  let rl := match rateLimitNew with Some r => r | None => rl end in
  let s := set_rateLimit (Some rl) s in
  if (RemainingRequests rl =? 0) && (0 <? ResetRequests rl) then
    let elapsed := since env s (batchJob.startTime job) in
    let s := tick s in
    if maxBatchTime env <? wrap64 (elapsed + resetWait rl) then
      first ← index (origIndex s) 0;
      es ← markFrom job errRateLimit first (errs s);
      Ok (Break, set_errs es s)
    else
      Ok (Continue, set_batch [] [] 0 (emit (EvSleep (resetWait rl)) s))
  else
    Ok (Continue, set_batch [] [] 0 s).

(** The body of the second loop, lines 170-243. *)
Definition loopBody (env : Env) (job : batchJob.t) (s : State)
    : Res (Control * State) :=
  let cancelled := ctxErr env (polls s) in
  let s := poll s in
  if cancelled then
    es ← markFrom job errCancelled (objCounter s) (errs s);
    Ok (Break, set_errs es s)
  else
    skip ← index (batchJob.skipObject job) (objCounter s);
    if skip : bool then Ok (Continue, set_objCounter (S (objCounter s)) s)
    else
      tok ← index (batchJob.tokens job) (objCounter s);
      rl ← deref (rateLimit s);
      if LimitTokens rl <? tok then
        Ok (Continue, set_objCounter (S (objCounter s))
                        (set_errs (<[objCounter s := errTooLong]> (errs s)) s))
      else
        text ← index (batchJob.texts job) (objCounter s);
        let admitted :=
          admits rl (timePerToken s) (tokensInCurrentBatch s) tok
                 (length (texts s)) in
        let s :=
          if admitted then
            let total := wrap64 (tokensInCurrentBatch s + tok) in
            emit (EvAdmit (objCounter s) total (RemainingTokens rl))
              (set_objCounter (S (objCounter s))
                 (set_batch (texts s ++ [text]) (origIndex s ++ [objCounter s])
                    total s))
          else s in
        if admitted && (objCounter s <? length (batchJob.texts job))%nat then
          Ok (Continue, s)
        else if (length (texts s) =? 0)%nat && (0 <? ResetTokens rl) then
          oversizeWait env job rl s
        else
          dispatch env job rl s.

(** Lines 246-255: the trailing request and the completion signal. *)
Definition drain (env : Env) (job : batchJob.t) (s : State) : Res State :=
  s ← (if (0 <? length (texts s))%nat
          && (objCounter s =? length (batchJob.texts job))%nat
       then
         '(rateLimitNew, _, s) ← makeRequest env job Drain (texts s) (origIndex s) s;
         Ok (match rateLimitNew with
             | Some r => set_rateLimit (Some r) s
             | None => s
             end)
       else Ok s);
  Ok (emit EvDone s).

(** Where the worker stands within a job. *)
Inductive Pc :=
| PcBootstrap
| PcLoop
| PcDrain
| PcDone
| PcPanic (msg : string).

Definition Config : Type := Pc * State.

(** One turn of the loop the worker is in. *)
Definition step (env : Env) (job : batchJob.t) (c : Config) : Config :=
  let '(pc, s) := c in
  match pc with
  | PcBootstrap =>
      if (objCounter s <? length (batchJob.texts job))%nat && firstRequest s then
        match bootstrapBody env job s with
        | Ok s' => (PcBootstrap, s')
        | Panicked msg => (PcPanic msg, s)
        end
      else (PcLoop, s)
  | PcLoop =>
      if (objCounter s <? length (batchJob.texts job))%nat then
        match loopBody env job s with
        | Ok (Continue, s') => (PcLoop, s')
        | Ok (Break, s') => (PcDrain, s')
        | Panicked msg => (PcPanic msg, s)
        end
      else (PcDrain, s)
  | PcDrain =>
      match drain env job s with
      | Ok s' => (PcDone, s')
      | Panicked msg => (PcPanic msg, s)
      end
  | PcDone => c
  | PcPanic _ => c
  end.

(** Lines 148-151: what the worker resets when it takes a job off the
    queue, and the buffers the job brings along. *)
Definition takeJob (es : gmap nat error) (vs : list (option embedding))
    (s : State) : State :=
  set_vecs vs (set_errs es (set_objCounter 0%nat (set_batch [] [] 0 s))).

Fixpoint run (env : Env) (job : batchJob.t) (fuel : nat) (c : Config) : Config :=
  match fuel with
  | O => c
  | S n => run env job n (step env job c)
  end.

(** The worker before its first job, lines 138-143. *)
Definition initialWorker : State :=
  mkState (Some (mkRateLimits 0 0 0 0 0 0)) [] [] true F64.zero F64.zero
    0%nat 0 ∅ [] 0%nat 0%nat 0%nat [].

(** A job from the queue, worked on for [fuel] turns. *)
Definition runJob (env : Env) (job : batchJob.t) (es : gmap nat error)
    (vs : list (option embedding)) (fuel : nat) (s : State) : Config :=
  run env job fuel (PcBootstrap, takeJob es vs s).

(** ** The facade: [object] and [ObjectBatch] *)

Section Facade.
(** [models.Object] and the tokenizer's encoding are opaque here. *)
Context {Object Encoding : Type}.

(** The collaborators of the facade, all declared outside the files at
    hand: [objectVectorizer.Texts], [tiktoken.EncodingForModel],
    [clients.GetTokensCount] and [libvectorizer.CombineVectors]. *)
Record Collaborators := mkCollaborators {
  Texts : Object -> VectorizationConfig -> string;
  EncodingForModel : string -> Encoding + error;
  GetTokensCount : string -> string -> Encoding -> Z;
  CombineVectors : list (option embedding) -> option embedding;
}.

Variable col : Collaborators.

(** [object]: one text, one call, the chunks combined.  [call] numbers
    the client call. *)
Definition object (env : Env) (call : nat) (obj : Object)
    (cfg : VectorizationConfig) : Res (option embedding * option error) :=
  let text := Texts col obj cfg in
  let resp := Vectorize env call cfg [text] in
  match resp_err resp with
  | Some err => Ok (None, Some err)
  | None =>
      res ← deref (resp_res resp);
      if (1 <? length (Vector res))%nat then
        Ok (CombineVectors col (Vector res), None)
      else
        v ← index (Vector res) 0;
        Ok (v, None)
  end.

(** The model name handed to the tokenizer library, lines 292-295. *)
Definition tokenizerModel (model : string) : string :=
  if String.eqb model "text-embedding-ada-002"
     || String.eqb model "text-embedding-3-small"
     || String.eqb model "text-embedding-3-large"
  then "gpt-4" else model.

(** The loop of lines 307-315, at object [i] with [objs] still to go. *)
Fixpoint prepare (conf : VectorizationConfig) (tke : Encoding)
    (skipObject : list bool) (i : nat) (objs : list Object)
    (acc : bool * list string * list Z) : Res (bool * list string * list Z) :=
  match objs with
  | [] => Ok acc
  | o :: rest =>
      b ← index skipObject i;
      if b : bool then prepare conf tke skipObject (S i) rest acc
      else
        let '(_, txts, toks) := acc in
        let text := Texts col o conf in
        prepare conf tke skipObject (S i) rest
          (false, <[i:=text]> txts,
           <[i:=GetTokensCount col (Model conf) text tke]> toks)
  end.

(** What [ObjectBatch] does before it would block: it answers at once, or
    it puts a job on the queue and waits for the worker. *)
Inductive BatchCall :=
| Returned (vs : option (list (option embedding))) (es : gmap nat error)
| Enqueued (job : batchJob.t) (es : gmap nat error)
    (vs : list (option embedding)).

Definition ObjectBatch (now : Z) (objects : list Object)
    (skipObject : list bool) (cfg : VectorizationConfig) : Res BatchCall :=
  let n := length objects in
  match EncodingForModel col (tokenizerModel (Model cfg)) with
  | inr err =>
      Ok (Returned None (foldl (fun es j => <[j:=err]> es) ∅ (seq 0 n)))
  | inl tke =>
      '(skipAll, txts, toks) ←
        prepare cfg tke skipObject 0 objects
          (true, replicate n EmptyString, replicate n 0);
      if skipAll : bool then Ok (Returned (Some (replicate n None)) ∅)
      else
        Ok (Enqueued (batchJob.mk txts toks cfg skipObject now)
              ∅ (replicate n None))
  end.

(** The caller's view of a batch call against a worker in state [w]: the
    answer of [ObjectBatch] once the worker has signalled completion, if it
    does so within [fuel] turns. *)
Inductive BatchResult :=
| Answer (vs : option (list (option embedding))) (es : gmap nat error)
    (w : State)
| Waiting (c : Config)
| Crashed (msg : string).

Definition VectorizeBatch (env : Env) (fuel : nat) (w : State) (now : Z)
    (objects : list Object) (skipObject : list bool)
    (cfg : VectorizationConfig) : BatchResult :=
  match ObjectBatch now objects skipObject cfg with
  | Panicked msg => Crashed msg
  | Ok (Returned vs es) => Answer vs es w
  | Ok (Enqueued job es vs) =>
      match runJob env job es vs fuel w with
      | (PcDone, s) => Answer (Some (vecs s)) (errs s) s
      | (PcPanic msg, _) => Crashed msg
      | c => Waiting c
      end
  end.
End Facade.

Arguments Collaborators : clear implicits.

(** ** Reading a job's buffers *)

Definition hasVector (s : State) (i : nat) : bool :=
  match vecs s !! i with
  | Some (Some _) => true
  | _ => false
  end.

Definition hasError (s : State) (i : nat) : bool :=
  match errs s !! i with
  | Some _ => true
  | None => false
  end.

(** The invariant of the data model at index [i]: skipped with nothing
    recorded, or a vector, or an error, and never two of them. *)
Definition exactlyOne (job : batchJob.t) (s : State) (i : nat) : bool :=
  match batchJob.skipObject job !! i with
  | Some true => negb (hasVector s i) && negb (hasError s i)
  | _ => xorb (hasVector s i) (hasError s i)
  end.

Definition isRequest (e : Event) : bool :=
  match e with
  | EvRequest _ _ _ => true
  | _ => false
  end.

Definition isAdmit (e : Event) : bool :=
  match e with
  | EvAdmit _ _ _ => true
  | _ => false
  end.

Definition isSleep (e : Event) : bool :=
  match e with
  | EvSleep _ => true
  | _ => false
  end.

(** The token total of the texts at [idx]. *)
Definition sumTokens (job : batchJob.t) (idx : list nat) : Z :=
  foldr (fun i acc => default 0 (batchJob.tokens job !! i) + acc) 0 idx.

(** ** The worker as a whole: job after job *)

(** A turn within the job at hand, or the next job taken off the queue once
    the current one is done. *)
Inductive workerStep (env : Env) : batchJob.t * Config -> batchJob.t * Config -> Prop :=
| ws_turn job c :
    workerStep env (job, c) (job, step env job c)
| ws_next job s job' es vs :
    workerStep env (job, (PcDone, s)) (job', (PcBootstrap, takeJob es vs s)).

Inductive workerSteps (env : Env) : batchJob.t * Config -> batchJob.t * Config -> Prop :=
| ws_refl x : workerSteps env x x
| ws_more x y z : workerSteps env x y -> workerStep env y z -> workerSteps env x z.

(** ** Concrete collaborators and jobs *)

Module Scenario.
Definition cfg : VectorizationConfig :=
  mkConfig "text" "text-embedding-3-small" "" "" "" "" false None.

Definition vec : embedding := [F32.one].

(** A successful answer of the client for [n] texts. *)
Definition ok (n : nat) (rl : RateLimits) : Response :=
  mkResponse (Some (mkResult (replicate n (Some vec)) (replicate n None)))
    (Some rl) None.

(** A call-level failure. *)
Definition failed (e : error) : Response := mkResponse None None (Some e).

(** One millisecond between two readings of the clock. *)
Definition msClock (k : nat) : Z := Z.of_nat k * 1000000.

Definition deadline : Z := 40 * Second.

Definition plenty : RateLimits := mkRateLimits 100 100 50 25 0 0.
Definition tight : RateLimits := mkRateLimits 100 100 5 12 0 0.
Definition exhausted : RateLimits := mkRateLimits 100 100 0 50 100 0.
Definition drained : RateLimits := mkRateLimits 100 100 0 5 100 0.

Definition job (toks : list Z) : batchJob.t :=
  batchJob.mk (replicate (length toks) "t"%string) toks cfg
    (replicate (length toks) false) 0.

Definition fresh (n : nat) : list (option embedding) := replicate n None.

(** Scenario A of the specification. *)
Definition envA : Env :=
  mkEnv (fun _ _ txts => ok (length txts) plenty) msClock (fun _ => false) deadline.

(** The client is down. *)
Definition envDown : Env :=
  mkEnv (fun _ _ _ => failed "connection refused") msClock (fun _ => false) deadline.

(** The first call fails, the later ones succeed. *)
Definition envFlaky : Env :=
  mkEnv (fun k _ txts => match k with
                         | O => failed "service unavailable"
                         | _ => ok (length txts) plenty
                         end)
    msClock (fun _ => false) deadline.

(** The context is cancelled between the first and the second turn of
    the main loop. *)
Definition envCancel : Env :=
  mkEnv (fun _ _ txts => ok (length txts) plenty) msClock
    (fun k => match k with O => false | _ => true end) deadline.

(** The probe leaves room for one text; the next answer reports the
    request budget used up for longer than the job may still take. *)
Definition envThrottle : Env :=
  mkEnv (fun k _ txts => match k with
                         | O => ok (length txts) tight
                         | _ => ok (length txts) exhausted
                         end)
    msClock (fun _ => false) deadline.

(** The probe reports five tokens left with a reset of less than a second,
    and no request left for the next hundred seconds. *)
Definition envDrained : Env :=
  mkEnv (fun _ _ txts => ok (length txts) drained) msClock (fun _ => false) deadline.

(** The client answers with no chunk at all. *)
Definition envNoChunk : Env :=
  mkEnv (fun _ _ _ => mkResponse (Some (mkResult [] [])) (Some plenty) None)
    msClock (fun _ => false) deadline.

(** Stand-ins for the collaborators of the facade: objects are their own
    text, the tokenizer knows one model and counts characters. *)
Definition col : Collaborators string unit :=
  mkCollaborators (fun o _ => o)
    (fun m => if String.eqb m "gpt-4" then inl tt
              else inr "no encoding for model"%string)
    (fun _ text _ => Z.of_nat (String.length text))
    (fun vs => match vs with v :: _ => v | [] => None end).

Definition cfgUnknown : VectorizationConfig :=
  mkConfig "text" "my-own-model" "" "" "" "" false None.

Definition runA : Config :=
  runJob envA (job [10; 10; 10]) ∅ (fresh 3) 10 initialWorker.
Definition runFlaky : Config :=
  runJob envFlaky (job [10]) ∅ (fresh 1) 10 initialWorker.
Definition runCancel : Config :=
  runJob envCancel (job [10; 10; 10]) ∅ (fresh 3) 10 initialWorker.
Definition runThrottle3 : Config :=
  runJob envThrottle (job [10; 10; 10]) ∅ (fresh 3) 10 initialWorker.
Definition runThrottle2 : Config :=
  runJob envThrottle (job [10; 10]) ∅ (fresh 2) 10 initialWorker.
Definition runDrained : Config :=
  runJob envDrained (job [10; 10]) ∅ (fresh 2) 10 initialWorker.

(** A job whose second text has no tokens: the state before the turn that
    admits it, the state in which that turn sends it, and the state after. *)
Definition jobZero : batchJob.t := job [10; 0].
Definition beforeZero : State :=
  snd (runJob envA jobZero ∅ (fresh 2) 2 initialWorker).
Definition atDispatchZero : State :=
  emit (EvAdmit 1 0 25)
    (set_objCounter 2 (set_batch ["t"%string] [1%nat] 0 (poll beforeZero))).
Definition afterZero : State :=
  snd (runJob envA jobZero ∅ (fresh 2) 3 initialWorker).
End Scenario.

(** ** Specification vocabulary *)

(** The gathered sub-batch and the timing estimate are the same in both
    states. *)
Definition sameBatch (s s' : State) : Prop :=
  texts s' = texts s /\ origIndex s' = origIndex s
  /\ tokensInCurrentBatch s' = tokensInCurrentBatch s
  /\ timePerToken s' = timePerToken s.

(** The turn of the main loop admitted the text at the loop counter: what
    lines 192-196 do to the state. *)
Definition admitted (job : batchJob.t) (s s1 : State) : Prop :=
  exists tok rl text,
    batchJob.tokens job !! objCounter s = Some tok
    /\ rateLimit s = Some rl
    /\ admits rl (timePerToken s) (tokensInCurrentBatch s) tok (length (texts s)) = true
    /\ s1 = emit (EvAdmit (objCounter s) (wrap64 (tokensInCurrentBatch s + tok))
                    (RemainingTokens rl))
              (set_objCounter (S (objCounter s))
                 (set_batch (texts s ++ [text]) (origIndex s ++ [objCounter s])
                    (wrap64 (tokensInCurrentBatch s + tok)) (poll s))).

(** A request of the main loop or the trailing request sends texts whose
    token total passed the budget test when the last of them was admitted;
    [t] holds the admissions. *)
Definition requestOk (job : batchJob.t) (t : list Event) (e : Event) : Prop :=
  match e with
  | EvRequest ph txts idx =>
      ph <> Bootstrap -> idx <> [] ->
      exists i R,
        last idx = Some i
        /\ In (EvAdmit i (wrap64 (sumTokens job idx)) R) t
        /\ withinBudget (wrap64 (sumTokens job idx)) R = true
  | _ => True
  end.

(** The same for the sub-batch being gathered. *)
Definition pendingOk (job : batchJob.t) (t : list Event) (s : State) : Prop :=
  tokensInCurrentBatch s = wrap64 (sumTokens job (origIndex s))
  /\ (origIndex s <> [] ->
      exists i R,
        last (origIndex s) = Some i
        /\ In (EvAdmit i (tokensInCurrentBatch s) R) t
        /\ withinBudget (tokensInCurrentBatch s) R = true).

Definition budgetInv (job : batchJob.t) (t0 : list Event) (s : State) : Prop :=
  exists t, trace s = t0 ++ t /\ Forall (requestOk job t) t /\ pendingOk job t s.

(** NaN and the infinities. *)
Definition nonfinite (x : spec_float) : bool :=
  match x with
  | S754_nan | S754_infinity _ => true
  | _ => false
  end.

(** Where the worker goes after a turn of the main loop. *)
Definition pcAfter (ctl : Control) : Pc :=
  match ctl with
  | Continue => PcLoop
  | Break => PcDrain
  end.

(** The timing estimate is not a number the admission test can pass, and
    nothing is gathered when the worker is about to test an admission. *)
Definition poisoned (c : Config) : Prop :=
  nonfinite (timePerToken (snd c)) = true
  /\ match fst c with
     | PcBootstrap | PcLoop => tokensInCurrentBatch (snd c) = 0
     | _ => True
     end.

Definition admissions (t : list Event) : list Event := filter (fun e => isAdmit e) t.

Arguments wrap64 : simpl never.
Arguments sat64 : simpl never.
Arguments to_int64 : simpl never.
Arguments Seconds : simpl never.
Arguments withinBudget : simpl never.
Arguments withinTime : simpl never.
Arguments admits : simpl never.
Arguments sleepTime : simpl never.
Arguments creditTokens : simpl never.
Arguments resetWait : simpl never.
Arguments since : simpl never.
Arguments F64.div : simpl never.
Arguments F64.of_int : simpl never.
Arguments markFrom : simpl never.

(** ** The turns of the main loop, state by state *)

(** The state after lines 193-196 have admitted the text at the loop
    counter. *)
Definition admitState (s : State) (tok : Z) (rl : RateLimits) (text : string)
    : State :=
  emit (EvAdmit (objCounter s) (wrap64 (tokensInCurrentBatch s + tok))
          (RemainingTokens rl))
    (set_objCounter (S (objCounter s))
       (set_batch (texts s ++ [text]) (origIndex s ++ [objCounter s])
          (wrap64 (tokensInCurrentBatch s + tok)) (poll s))).

(** The state after lines 218-224: the request made, the timing estimate
    and the limits refreshed. *)
Definition afterRequest (env : Env) (rl : RateLimits) (s : State)
    (rateLimitNew : option RateLimits) (s1 : State) : State :=
  let took := Seconds (since env s1 (clock env (ticks s))) in
  set_rateLimit (Some (default rl rateLimitNew))
    (set_timing took (F64.div took (F64.of_int (tokensInCurrentBatch s1)))
       (tick s1)).

(** ** What a job may touch and what it may send *)

(** An index the worker has to answer for: in range and not skipped. *)
Definition live (job : batchJob.t) (i : nat) : Prop :=
  (i < length (batchJob.texts job))%nat
  /\ batchJob.skipObject job !! i = Some false.

(** A sub-batch as the client should see it: the texts of the job at the
    given indices, which increase, lie below [bound] and are not skipped,
    and no more of them than the provider takes in one call. *)
Definition wellFormed (job : batchJob.t) (bound : nat) (txts : list string)
    (idx : list nat) : Prop :=
  Forall2 (fun t i => batchJob.texts job !! i = Some t) txts idx
  /\ StronglySorted lt idx
  /\ Forall (fun i => (i < bound)%nat
                      /\ batchJob.skipObject job !! i = Some false) idx
  /\ (length txts <= MaxObjectsPerBatch)%nat.

Definition requestShape (job : batchJob.t) (e : Event) : Prop :=
  match e with
  | EvRequest _ txts idx =>
      wellFormed job (length (batchJob.texts job)) txts idx
  | _ => True
  end.

(** The buffers [es], [vs] agree with the buffers [es0], [vs0] the job
    came with wherever the worker has nothing to answer for. *)
Definition buffersKept (job : batchJob.t) (es0 : gmap nat error)
    (vs0 : list (option embedding)) (es : gmap nat error)
    (vs : list (option embedding)) : Prop :=
  length vs = length vs0
  /\ forall i, ~ live job i -> es !! i = es0 !! i /\ vs !! i = vs0 !! i.

(** The events [tr] of a job that began at [t0]: well-formed requests, and
    the completion signal as the last event of a finished job and nowhere
    else. *)
Definition traceShape (job : batchJob.t) (t0 : list Event) (pc : Pc)
    (tr : list Event) : Prop :=
  exists t,
    Forall (requestShape job) t /\ (EvDone ∉ t)
    /\ tr = t0 ++ t ++ match pc with PcDone => [EvDone] | _ => [] end.

Definition jobInv (job : batchJob.t) (es0 : gmap nat error)
    (vs0 : list (option embedding)) (t0 : list Event) (c : Config) : Prop :=
  (objCounter (snd c) <= length (batchJob.texts job))%nat
  /\ wellFormed job (objCounter (snd c)) (texts (snd c)) (origIndex (snd c))
  /\ buffersKept job es0 vs0 (errs (snd c)) (vecs (snd c))
  /\ traceShape job t0 (fst c) (trace (snd c)).

(** ** Probing, limits and the collaborators' side of the contract *)

Definition isProbe (e : Event) : bool :=
  match e with
  | EvRequest Bootstrap _ _ => true
  | _ => false
  end.

(** [t'] is [t] followed by events none of which is a probing request. *)
Definition noProbeSince (t t' : list Event) : Prop :=
  exists evs, t' = t ++ evs /\ Forall (fun e => isProbe e = false) evs.

(** The request budget is used up and its reset lies ahead: the test of
    line 227. *)
Definition throttled (rl : RateLimits) : Prop :=
  RemainingRequests rl = 0 /\ 0 < ResetRequests rl.

(** A client that keeps to its interface: an answer without a call-level
    error comes with rate limits and with an entry of [Errors] and of
    [Vector] for every text sent. *)
Definition clientOk (env : Env) : Prop :=
  forall k cfg txts,
    resp_err (Vectorize env k cfg txts) = None ->
    is_Some (resp_rateLimit (Vectorize env k cfg txts))
    /\ exists r, resp_res (Vectorize env k cfg txts) = Some r
                 /\ (length txts <= length (Errors r))%nat
                 /\ (length txts <= length (Vector r))%nat.

(** The job's slices are as long as [ObjectBatch] makes them. *)
Definition jobOk (job : batchJob.t) (vs : list (option embedding)) : Prop :=
  (length (batchJob.texts job) <= length (batchJob.tokens job))%nat
  /\ (length (batchJob.texts job) <= length (batchJob.skipObject job))%nat
  /\ (length (batchJob.texts job) <= length vs)%nat.

(** The rate limits the worker starts from and every rate limit the client
    reports satisfy [Q]. *)
Definition limitsAll (Q : RateLimits -> Prop) (env : Env) (s0 : State) : Prop :=
  (exists rl, rateLimit s0 = Some rl /\ Q rl)
  /\ forall k cfg txts rl,
       resp_rateLimit (Vectorize env k cfg txts) = Some rl -> Q rl.

(** Every rate limit the client reports satisfies [Q], and the worker
    holds rate limits that satisfy [Q] or has not yet probed with success:
    while [firstRequest] is true the limits it holds, nil included, are not
    read before a probing request has replaced them. *)
Definition limitsFrom (Q : RateLimits -> Prop) (env : Env) (s : State) : Prop :=
  ((exists rl, rateLimit s = Some rl /\ Q rl) \/ firstRequest s = true)
  /\ forall k cfg txts rl,
       resp_rateLimit (Vectorize env k cfg txts) = Some rl -> Q rl.

(** The two regimes in which the throttle exit of line 230 finds a first
    index: the provider never reports the request budget as used up, or it
    always reports a positive time until the token budget resets. *)
Definition safeRegime (env : Env) (s : State) : Prop :=
  limitsFrom (fun rl => ~ throttled rl) env s
  \/ limitsFrom (fun rl => 0 < ResetTokens rl) env s.

(** The worker has not panicked, and holds rate limits that satisfy [Q]
    unless it has not yet probed with success; in the main loop it then
    has no text left to look at. *)
Definition limitsInv (Q : RateLimits -> Prop) (job : batchJob.t) (c : Config)
    : Prop :=
  match fst c with
  | PcPanic _ => False
  | PcLoop =>
      (exists rl, rateLimit (snd c) = Some rl /\ Q rl)
      \/ (firstRequest (snd c) = true
          /\ (length (batchJob.texts job) <= objCounter (snd c))%nat)
  | _ =>
      (exists rl, rateLimit (snd c) = Some rl /\ Q rl)
      \/ firstRequest (snd c) = true
  end.

(** ** Outcomes *)

(** The client never hands back a nil vector for a text it reports no
    error for. *)
Definition noNilVector (env : Env) : Prop :=
  forall k cfg txts r j,
    resp_res (Vectorize env k cfg txts) = Some r ->
    Errors r !! j = Some None -> Vector r !! j <> Some None.

(** Index [i] has an outcome in the buffers. *)
Definition answered (es : gmap nat error) (vs : list (option embedding))
    (i : nat) : Prop :=
  is_Some (es !! i) \/ exists v, vs !! i = Some (Some v).

(** Every live index the loop counter has passed is waiting in the
    gathered sub-batch or has an outcome. *)
Definition accounted (job : batchJob.t) (s : State) : Prop :=
  forall i, live job i -> (i < objCounter s)%nat ->
            i ∈ origIndex s \/ answered (errs s) (vecs s) i.

Definition allAnswered (job : batchJob.t) (s : State) : Prop :=
  forall i, live job i -> answered (errs s) (vecs s) i.

Definition progressInv (job : batchJob.t) (c : Config) : Prop :=
  match fst c with
  | PcBootstrap | PcLoop => accounted job (snd c)
  | PcDrain =>
      (objCounter (snd c) = length (batchJob.texts job) /\ accounted job (snd c))
      \/ allAnswered job (snd c)
  | PcDone => allAnswered job (snd c)
  | PcPanic _ => True
  end.

(** Nothing is recorded for index [i]. *)
Definition outcomeFree (es : gmap nat error) (vs : list (option embedding))
    (i : nat) : Prop :=
  es !! i = None /\ vs !! i = Some None.

(** Index [i] has an error and no vector, or a vector and no error. *)
Definition oneOutcome (es : gmap nat error) (vs : list (option embedding))
    (i : nat) : Prop :=
  (is_Some (es !! i) /\ vs !! i = Some None)
  \/ (es !! i = None /\ exists v, vs !! i = Some (Some v)).

(** The live indices the loop counter has passed and that are not waiting
    in the sub-batch have one outcome each; the others have none yet. *)
Definition settled (job : batchJob.t) (s : State) : Prop :=
  forall i, live job i ->
    if decide ((i < objCounter s)%nat /\ i ∉ origIndex s)
    then oneOutcome (errs s) (vecs s) i
    else outcomeFree (errs s) (vecs s) i.

Definition allSettled (job : batchJob.t) (s : State) : Prop :=
  forall i, live job i -> oneOutcome (errs s) (vecs s) i.

(** No probing request can fail: the worker is past probing, or the client
    reports no call-level error. *)
Definition probeSafe (env : Env) (s : State) : Prop :=
  firstRequest s = false
  \/ forall k cfg txts, resp_err (Vectorize env k cfg txts) = None.

Definition happyInv (env : Env) (job : batchJob.t) (c : Config) : Prop :=
  probeSafe env (snd c)
  /\ (forall rl, rateLimit (snd c) = Some rl -> ~ throttled rl)
  /\ match fst c with
     | PcBootstrap | PcLoop => settled job (snd c)
     | PcDrain =>
         objCounter (snd c) = length (batchJob.texts job) /\ settled job (snd c)
     | PcDone => allSettled job (snd c)
     | PcPanic _ => True
     end.

(** ** The REST middlewares

    A shallow embedding of [adapters/handlers/rest/middlewares.go].  Of a
    request the middlewares read the method and [r.URL.String()]; on the
    response writer they add or set headers and write the status and the
    body; the logging middleware writes one entry.  A handler is what it
    does, in order.  The handlers and middlewares of other packages (the
    CORS handler, the swagger middleware, the anonymous-access middleware,
    the multiplexer of the modules) are arguments. *)
Module Rest.
Record Request := mkRequest {
  Method : string;
  URL : string;
}.

Inductive Effect :=
| HeaderAdd (key value : string)
| HeaderSet (key value : string)
| WriteHeader (status : nat)
| WriteBody (body : string)
| LogDebug (fields : list (string * string)) (message : string).

Definition Handler : Type := Request -> list Effect.

Definition StatusOK : nat := 200.
Definition StatusMovedPermanently : nat := 301.

Definition makeSetupMiddlewares (anonymousAccess : Handler -> Handler)
    (handler : Handler) : Handler :=
  fun r =>
    if String.eqb (URL r) "/v1/.well-known/openid-configuration" then handler r
    else anonymousAccess handler r.

(** A JSON string literal: [s] between double quotes. *)
Definition quoted (s : string) : string :=
  String (ascii_of_nat 34) (s ++ String (ascii_of_nat 34) EmptyString).

Definition rootBody : string :=
  ("{" ++ quoted "links" ++ ":{" ++ quoted "href" ++ ":" ++ quoted "/v1" ++ ","
   ++ quoted "name" ++ ":" ++ quoted "api v1" ++ ","
   ++ quoted "documentationHref" ++ ":"
   ++ quoted "https://www.semi.technology/documentation/weaviate/current/"
   ++ "}}")%string.

Definition addHandleRoot (next : Handler) : Handler :=
  fun r =>
    if String.eqb (URL r) "/" then
      [HeaderAdd "Location" "/v1"; WriteHeader StatusMovedPermanently;
       WriteBody rootBody]
    else next r.

Definition modulesPrefix : string := "/v1/modules".

(** [len(url) > len(prefix) && url[:len(prefix)] == prefix] *)
Definition underModules (url : string) : bool :=
  (String.length modulesPrefix <? String.length url)%nat
  && String.eqb (String.substring 0 (String.length modulesPrefix) url)
       modulesPrefix.

Definition addModuleHandlers (mux : Handler) (next : Handler) : Handler :=
  fun r => if underModules (URL r) then mux r else next r.

Definition makeAddLogging (next : Handler) : Handler :=
  fun r =>
    LogDebug [("action", "restapi_request"); ("method", Method r); ("url", URL r)]
      "received HTTP request"
    :: next r.

Definition addPreflight (next : Handler) : Handler :=
  fun r =>
    if String.eqb (Method r) "OPTIONS" then
      [HeaderSet "Access-Control-Allow-Origin" "*";
       HeaderSet "Access-Control-Allow-Methods" "*";
       HeaderSet "Access-Control-Allow-Headers" "Content-Type, Authorization, Batch"]
    else next r.

Definition addLiveAndReadyness (next : Handler) : Handler :=
  fun r =>
    if String.eqb (URL r) "/v1/.well-known/live" then [WriteHeader StatusOK]
    else if String.eqb (URL r) "/v1/.well-known/ready" then [WriteHeader StatusOK]
    else next r.

Definition makeSetupGlobalMiddleware (handleCORS swagger : Handler -> Handler)
    (mux : Handler) (handler : Handler) : Handler :=
  let handler := handleCORS handler in
  let handler := swagger handler in
  let handler := makeAddLogging handler in
  let handler := addPreflight handler in
  let handler := addLiveAndReadyness handler in
  let handler := addHandleRoot handler in
  let handler := addModuleHandlers mux handler in
  handler.

(** The URLs one of the global middlewares answers itself. *)
Definition answeredEarly (url : string) : bool :=
  underModules url || String.eqb url "/"
  || String.eqb url "/v1/.well-known/live"
  || String.eqb url "/v1/.well-known/ready".
End Rest.

(** ** Further concrete jobs and collaborators *)

Module Sample.
(** Three objects, the second skipped, as [ObjectBatch] prepares them with
    the stand-in collaborators. *)
Definition objects : list string := ["ab"; "c"; "d"]%string.
Definition skips : list bool := [false; true; false].
Definition jobSkip : batchJob.t :=
  batchJob.mk ["ab"; ""; "d"]%string [2; 0; 1] Scenario.cfg skips 0.
Definition doneSkip : State :=
  snd (runJob Scenario.envA jobSkip ∅ (Scenario.fresh 3) 10 initialWorker).

(** The worker with two texts gathered for a request. *)
Definition gathering : State :=
  takeJob ∅ (Scenario.fresh 2) initialWorker.

(** The worker after the first job of scenario A, and at the first turn
    of its next job. *)
Definition afterA : State := snd Scenario.runA.
Definition jobDone : batchJob.t * Config :=
  (Scenario.job [10; 10; 10], (PcDone, afterA)).
Definition jobNext : batchJob.t * Config :=
  (Scenario.job [10], (PcBootstrap, takeJob ∅ (Scenario.fresh 1) afterA)).
Definition jobNextTurn : batchJob.t * Config :=
  (Scenario.job [10],
   step Scenario.envA (Scenario.job [10])
     (PcBootstrap, takeJob ∅ (Scenario.fresh 1) afterA)).

(** The main loop about to notice the cancellation, one text gathered. *)
Definition atCancel : State :=
  snd (runJob Scenario.envCancel (Scenario.job [10; 10; 10]) ∅
         (Scenario.fresh 3) 3 initialWorker).

(** The last object is skipped while the second waits in the sub-batch. *)
Definition jobTail : batchJob.t :=
  batchJob.mk ["a"; "b"; ""]%string [1; 1; 0] Scenario.cfg [false; false; true] 0.
Definition atTail : State :=
  snd (runJob Scenario.envA jobTail ∅ (Scenario.fresh 3) 3 initialWorker).

(** The request budget is used up and resets within a second. *)
Definition pausing : RateLimits := mkRateLimits 100 100 0 50 1 0.
Definition envPause : Env :=
  mkEnv (fun _ _ txts => Scenario.ok (length txts) pausing) Scenario.msClock
    (fun _ => false) Scenario.deadline.
Definition beforePause : State :=
  snd (runJob envPause (Scenario.job [10; 10]) ∅ (Scenario.fresh 2) 2
         initialWorker).
Definition afterPause : State :=
  snd (runJob envPause (Scenario.job [10; 10]) ∅ (Scenario.fresh 2) 3
         initialWorker).

(** The request budget is used up for the next hundred seconds, past the
    deadline, and the token budget resets in five. *)
Definition refreshing : RateLimits := mkRateLimits 100 100 0 50 100 5.
Definition envRefresh : Env :=
  mkEnv (fun _ _ txts => Scenario.ok (length txts) refreshing) Scenario.msClock
    (fun _ => false) Scenario.deadline.

(** Token counts and a budget beyond 2^24, where [float32] rounds: the
    second text has 15938362 tokens, the budget reads 16777223. *)
Definition roomy : RateLimits := mkRateLimits 100 20000000 50 16777223 0 0.
Definition envRoomy : Env :=
  mkEnv (fun _ _ txts => Scenario.ok (length txts) roomy) Scenario.msClock
    (fun _ => false) Scenario.deadline.
Definition jobRoomy : batchJob.t := Scenario.job [10; 15938362].
Definition runRoomy : Config :=
  runJob envRoomy jobRoomy ∅ (Scenario.fresh 2) 10 initialWorker.

(** Stand-ins for the handlers of other packages. *)
Definition api : Rest.Handler := fun _ => [Rest.WriteBody "api"].
Definition mux : Rest.Handler := fun _ => [Rest.WriteBody "module"].
Definition cors (h : Rest.Handler) : Rest.Handler :=
  fun r => Rest.HeaderSet "Vary" "Origin" :: h r.
Definition swagger (h : Rest.Handler) : Rest.Handler := h.
End Sample.

(** * Properties *)

(** ** What one turn does to the gathered sub-batch and to the trace *)

Lemma bind_Ok {A B} (c : Res A) (k : A -> Res B) (r : B) :
  c ≫= k = Ok r -> exists a, c = Ok a /\ k a = Ok r.
Proof. destruct c as [a|msg]; simpl; [eauto|discriminate]. Qed.

Lemma makeRequest_Ok env job ph txts idx s rl err s' :
  makeRequest env job ph txts idx s = Ok (rl, err, s') ->
  exists es vs,
    s' = set_vecs vs (set_errs es (emit (EvRequest ph txts idx) (called s))).
Proof.
  unfold makeRequest. intros H.
  destruct (resp_err _) as [e|].
  - apply bind_Ok in H. destruct H as (es & _ & H). injection H as _ _ <-.
    exists es, (vecs s). reflexivity.
  - apply bind_Ok in H. destruct H as ([es vs] & _ & H). injection H as _ _ <-.
    exists es, vs. reflexivity.
Qed.

Lemma bootstrapBody_Ok env job s s' :
  bootstrapBody env job s = Ok s' ->
  sameBatch s s'
  /\ (trace s' = trace s
      \/ exists txts idx, trace s' = trace s ++ [EvRequest Bootstrap txts idx]).
Proof.
  unfold bootstrapBody. intros H.
  apply bind_Ok in H. destruct H as (skip & _ & H).
  destruct skip.
  - injection H as <-. split; [done|]. by left.
  - apply bind_Ok in H. destruct H as ([[rl err] s1] & E & H).
    apply makeRequest_Ok in E. destruct E as (es & vs & ->).
    destruct err; injection H as <-; (split; [done|]); right; eauto.
Qed.

Lemma oversizeWait_Ok env job rl s ctl s' :
  oversizeWait env job rl s = Ok (ctl, s') ->
  ctl = Continue /\ sameBatch s s'
  /\ (trace s' = trace s \/ exists d, trace s' = trace s ++ [EvSleep d]).
Proof.
  unfold oversizeWait. intros H.
  apply bind_Ok in H. destruct H as (tok & _ & H).
  destruct (_ <? _); injection H as <- <-; (split; [done|]); (split; [done|]).
  - right. eauto.
  - by left.
Qed.

Lemma dispatch_Ok env job rl s ctl s' :
  dispatch env job rl s = Ok (ctl, s') ->
  exists took tr,
    trace s' = trace s ++ EvRequest Dispatch (texts s) (origIndex s) :: tr
    /\ (tr = [] \/ exists d, tr = [EvSleep d])
    /\ timePerToken s' = F64.div took (F64.of_int (tokensInCurrentBatch s))
    /\ match ctl with
       | Continue => texts s' = [] /\ origIndex s' = [] /\ tokensInCurrentBatch s' = 0
       | Break => texts s' = texts s /\ origIndex s' = origIndex s
                  /\ tokensInCurrentBatch s' = tokensInCurrentBatch s
                  /\ origIndex s <> []
       end.
Proof.
  unfold dispatch. intros H.
  apply bind_Ok in H. destruct H as ([[rlNew err] s1] & E & H).
  apply makeRequest_Ok in E. destruct E as (es & vs & ->).
  simpl in H.
  match type of H with context [set_timing ?t _ _] => exists t end.
  destruct (_ && _).
  - destruct (_ <? _).
    + apply bind_Ok in H. destruct H as (i0 & E0 & H).
      apply bind_Ok in H. destruct H as (es' & _ & H).
      injection H as <- <-. exists []. simpl. rewrite <- ?app_assoc. simpl.
      repeat split; auto.
      intros Hnil. unfold index in E0. rewrite Hnil in E0. discriminate.
    + injection H as <- <-. eexists [_]. simpl. rewrite <- ?app_assoc. simpl.
      repeat split; eauto.
  - injection H as <- <-. exists []. simpl. 
    repeat split; auto.
Qed.

Lemma index_Ok {A} (l : list A) i a : index l i = Ok a -> l !! i = Some a.
Proof. unfold index. destruct (l !! i); [|discriminate]. by intros [= ->]. Qed.

Lemma deref_Ok {A} (p : option A) a : deref p = Ok a -> p = Some a.
Proof. destruct p; simpl; [|discriminate]. by intros [= ->]. Qed.

Lemma loopBody_Ok env job s ctl s' :
  loopBody env job s = Ok (ctl, s') ->
  (sameBatch s s'
   /\ (trace s' = trace s \/ exists d, trace s' = trace s ++ [EvSleep d]))
  \/ (ctl = Continue /\ admitted job s s')
  \/ (exists s1 rl, (s1 = poll s \/ admitted job s s1)
                    /\ dispatch env job rl s1 = Ok (ctl, s')).
Proof.
  unfold loopBody. intros H.
  destruct (ctxErr env (polls s)).
  { apply bind_Ok in H. destruct H as (es & _ & H). injection H as <- <-.
    left. split; [done|]. by left. }
  apply bind_Ok in H. destruct H as (skip & _ & H).
  destruct skip.
  { injection H as <- <-. left. split; [done|]. by left. }
  apply bind_Ok in H. destruct H as (tok & Etok & H).
  apply bind_Ok in H. destruct H as (rl & Erl & H).
  apply index_Ok in Etok. apply deref_Ok in Erl. simpl in Etok, Erl.
  destruct (_ <? _).
  { injection H as <- <-. left. split; [done|]. by left. }
  apply bind_Ok in H. destruct H as (text & _ & H).
  simpl in H.
  destruct (admits _ _ _ _ _) eqn:Hadm; simpl in H.
  - assert (Ha : admitted job s
            (emit (EvAdmit (objCounter s) (wrap64 (tokensInCurrentBatch s + tok))
                    (RemainingTokens rl))
              (set_objCounter (S (objCounter s))
                 (set_batch (texts s ++ [text]) (origIndex s ++ [objCounter s])
                    (wrap64 (tokensInCurrentBatch s + tok)) (poll s))))).
    { exists tok, rl, text. done. }
    destruct (_ <? _)%nat.
    + injection H as <- <-. right. left. done.
    + rewrite length_app in H. simpl in H.
      replace (length (texts s) + 1 =? 0)%nat with false in H
        by (symmetry; apply Nat.eqb_neq; lia).
      simpl in H. right. right. eauto.
  - destruct (_ && _).
    + apply oversizeWait_Ok in H. destruct H as (_ & Hb & Ht).
      left. split; [|exact Ht]. exact Hb.
    + right. right. eauto.
Qed.

Lemma drain_Ok env job s s' :
  drain env job s = Ok s' ->
  sameBatch s s'
  /\ (trace s' = trace s ++ [EvDone]
      \/ trace s' = trace s ++ [EvRequest Drain (texts s) (origIndex s); EvDone]).
Proof.
  unfold drain. intros H.
  apply bind_Ok in H. destruct H as (s1 & E & H). injection H as <-.
  destruct (_ && _).
  - apply bind_Ok in E. destruct E as ([[rlNew err] s2] & E & H).
    apply makeRequest_Ok in E. destruct E as (es & vs & ->).
    injection H as <-. split.
    + by destruct rlNew.
    + right. destruct rlNew; simpl; by rewrite <- app_assoc.
  - injection E as <-. split; [done|]. by left.
Qed.



(** ** The marking loops *)

Lemma markEach_lookup (skip : list bool) (e : error) (js : list nat) :
  forall (es es' : gmap nat error) (j : nat),
    markEach skip e js es = Ok es' ->
    es' !! j = if decide (j ∈ js /\ skip !! j = Some false) then Some e else es !! j.
Proof.
  induction js as [|j0 js IH]; intros es es' j H.
  - injection H as <-. destruct (decide _) as [[Hin _]|_]; [|done].
    by apply not_elem_of_nil in Hin.
  - cbn [markEach] in H. apply bind_Ok in H. destruct H as (b & Hb & H).
    apply index_Ok in Hb. rewrite (IH _ _ j H).
    destruct (decide (j ∈ js /\ skip !! j = Some false)) as [[Hin Hs]|Hn].
    + rewrite decide_True; [done|]. split; [by right|done].
    + destruct (decide (j = j0)) as [->|Hne].
      * destruct b.
        -- rewrite decide_False; [done|]. intros [_ Hs]. congruence.
        -- rewrite lookup_insert_eq. rewrite decide_True; [done|].
           split; [by left|done].
      * assert (Hes : (if b then es else <[j0:=e]> es) !! j = es !! j).
        { destruct b; [done|]. by rewrite lookup_insert_ne. }
        rewrite Hes. rewrite decide_False; [done|].
        intros [Hin Hs]. apply Hn. split; [|done].
        apply elem_of_cons in Hin. destruct Hin as [->|Hin]; done.
Qed.

Lemma markFrom_lookup (job : batchJob.t) (e : error) (from : nat)
    (es es' : gmap nat error) (j : nat) :
  markFrom job e from es = Ok es' ->
  es' !! j = if decide ((from <= j < length (batchJob.texts job))%nat
                        /\ batchJob.skipObject job !! j = Some false)
             then Some e else es !! j.
Proof.
  unfold markFrom. intros H. rewrite (markEach_lookup _ _ _ _ _ j H).
  destruct (decide (j ∈ seq from (length (batchJob.texts job) - from)
                    /\ batchJob.skipObject job !! j = Some false)) as [[Hin Hs]|Hn].
  - rewrite decide_True; [done|]. split; [|done]. apply elem_of_seq in Hin. lia.
  - rewrite decide_False; [done|]. intros [Hr Hs]. apply Hn. split; [|done].
    apply elem_of_seq. lia.
Qed.

(** ** Scenario A of the specification *)

Example scenarioA_batches_the_rest :
  fst Scenario.runA = PcDone
  /\ filter (fun e => isRequest e) (trace (snd Scenario.runA))
     = [EvRequest Bootstrap ["t"%string] [0%nat];
        EvRequest Dispatch ["t"%string; "t"%string] [1%nat; 2%nat]]
  /\ errs (snd Scenario.runA) = ∅
  /\ forallb (hasVector (snd Scenario.runA)) [0%nat; 1%nat; 2%nat] = true.
Proof. vm_compute. repeat split; reflexivity. Qed.

(** ** The probing loop against a client that is down *)

(** A probing request that fails leaves the loop where it was: same index,
    still the first request, the error on record. *)
Lemma failed_probe_does_not_advance env job s s' e :
  batchJob.skipObject job !! objCounter s = Some false ->
  resp_err (Vectorize env (calls s) (batchJob.cfg job)
              (take 1 (drop (objCounter s) (batchJob.texts job)))) = Some e ->
  bootstrapBody env job s = Ok s' ->
  objCounter s' = objCounter s /\ firstRequest s' = firstRequest s
  /\ errs s' !! objCounter s = Some e.
Proof.
  intros Hskip Herr H. unfold bootstrapBody, index in H. rewrite Hskip in H.
  simpl in H. apply bind_Ok in H. destruct H as ([[rl err] s1] & E & H).
  unfold makeRequest in E. rewrite Herr in E.
  apply bind_Ok in E. destruct E as (es & _ & E). injection E as <- <- <-.
  injection H as <-. simpl. repeat split. apply lookup_insert_eq.
Qed.

Lemma bootstrap_retries_when_down (s : State) :
  objCounter s = 0%nat -> firstRequest s = true ->
  exists s',
    step Scenario.envDown (Scenario.job [10]) (PcBootstrap, s) = (PcBootstrap, s')
    /\ objCounter s' = 0%nat /\ firstRequest s' = true
    /\ trace s' = trace s ++ [EvRequest Bootstrap ["t"%string] [0%nat]]
    /\ errs s' !! 0%nat = Some "connection refused"%string.
Proof.
  intros Hc Hf. destruct s; simpl in *; subst.
  eexists. split; [reflexivity|]. simpl.
  repeat split. apply lookup_insert_eq.
Qed.

Lemma down_never_leaves_bootstrap (fuel : nat) (s : State) :
  objCounter s = 0%nat -> firstRequest s = true ->
  let c := run Scenario.envDown (Scenario.job [10]) fuel (PcBootstrap, s) in
  fst c = PcBootstrap
  /\ exists k, trace (snd c)
               = trace s ++ replicate k (EvRequest Bootstrap ["t"%string] [0%nat]).
Proof.
  revert s. induction fuel as [|n IH]; intros s Hc Hf.
  - simpl. split; [reflexivity|]. exists 0%nat. simpl. by rewrite app_nil_r.
  - destruct (bootstrap_retries_when_down s Hc Hf) as (s' & Hs & Hc' & Hf' & Ht & _).
    cbn [run]. rewrite Hs.
    destruct (IH s' Hc' Hf') as [Hpc [k Hk]].
    split; [exact Hpc|]. exists (S k).
    rewrite Hk, Ht, <- app_assoc. reflexivity.
Qed.

(** ** The invariant of the job's buffers *)

(** C1.  At job completion every index should be skipped, or carry a vector,
    or carry an error, and only one of these.  Two completed runs break it:
    with a probe that fails once and then succeeds, index 0 ends with the
    error of the first attempt and the vector of the second; with a context
    cancelled while index 1 waits in the gathered sub-batch, index 1 ends
    with neither. *)
Theorem C1_exactly_one_outcome_violated :
  (fst Scenario.runFlaky = PcDone
   /\ errs (snd Scenario.runFlaky) !! 0%nat = Some "service unavailable"%string
   /\ vecs (snd Scenario.runFlaky) !! 0%nat = Some (Some Scenario.vec)
   /\ exactlyOne (Scenario.job [10]) (snd Scenario.runFlaky) 0 = false)
  /\ (fst Scenario.runCancel = PcDone
      /\ errs (snd Scenario.runCancel) !! 1%nat = None
      /\ vecs (snd Scenario.runCancel) !! 1%nat = Some None
      /\ exactlyOne (Scenario.job [10; 10; 10]) (snd Scenario.runCancel) 1 = false).
Proof. vm_compute. repeat split; reflexivity. Qed.

(** ** Termination of the per-job loops *)

(** C2.  The per-job loops should terminate and fire the completion signal
    once.  Against a client that keeps failing, the probing loop records
    the error of index 0 and tries the same index again: whatever the
    number of turns, the worker is still in the probing loop, it has not
    moved past index 0 and the completion signal has not been fired. *)
Theorem C2_bootstrap_failure_never_completes (fuel : nat) :
  let c := runJob Scenario.envDown (Scenario.job [10]) ∅ (Scenario.fresh 1)
             fuel initialWorker in
  fst c = PcBootstrap /\ ~ In EvDone (trace (snd c)).
Proof.
  intros c. subst c. unfold runJob.
  destruct (down_never_leaves_bootstrap fuel
              (takeJob ∅ (Scenario.fresh 1) initialWorker) eq_refl eq_refl)
    as [Hpc [k Hk]].
  split; [exact Hpc|].
  rewrite Hk. simpl. intros Hin.
  apply list_elem_of_In, elem_of_replicate in Hin. destruct Hin as [Hin _].
  discriminate Hin.
Qed.

(** ** Throttling on the request budget *)

(** A turn that gives up on the request budget: the request has been made,
    and every index from the first one of the sub-batch just sent is failed,
    the sent ones included. *)
Lemma throttled_turn env job rl s s' :
  dispatch env job rl s = Ok (Break, s') ->
  exists first rlNew err s1,
    origIndex s !! 0%nat = Some first
    /\ makeRequest env job Dispatch (texts s) (origIndex s) (tick s)
       = Ok (rlNew, err, s1)
    /\ vecs s' = vecs s1
    /\ trace s' = trace s ++ [EvRequest Dispatch (texts s) (origIndex s)]
    /\ forall j,
         errs s' !! j
         = if decide ((first <= j < length (batchJob.texts job))%nat
                      /\ batchJob.skipObject job !! j = Some false)
           then Some errRateLimit else errs s1 !! j.
Proof.
  unfold dispatch. intros H.
  apply bind_Ok in H. destruct H as ([[rlNew err] s1] & E & H).
  pose proof (makeRequest_Ok _ _ _ _ _ _ _ _ _ E) as (es & vs & Hs1).
  simpl in H.
  destruct (_ && _); [|discriminate H].
  destruct (_ <? _); [|discriminate H].
  apply bind_Ok in H. destruct H as (i0 & Hi0 & H).
  apply bind_Ok in H. destruct H as (es' & Hes' & H).
  injection H as <-. apply index_Ok in Hi0. subst s1. simpl in *.
  exists i0, rlNew, err. eexists. split; [exact Hi0|]. split; [exact E|].
  repeat split. intros j. apply (markFrom_lookup _ _ _ _ _ j Hes').
Qed.

(** C3.  When the request budget is used up for longer than the job may
    still take, only the indices not yet dispatched should fail, and the
    outcome of the dispatch just made should stay.  In this run index 1 is
    sent alone and its vector is written; the loop that marks the failures
    then starts at the first index of that very sub-batch, so index 1 ends
    with its vector and the rate-limit error. *)
Theorem C3_throttle_overwrites_dispatched :
  fst Scenario.runThrottle3 = PcDone
  /\ In (EvRequest Dispatch ["t"%string] [1%nat]) (trace (snd Scenario.runThrottle3))
  /\ vecs (snd Scenario.runThrottle3) !! 1%nat = Some (Some Scenario.vec)
  /\ errs (snd Scenario.runThrottle3) !! 1%nat = Some errRateLimit
  /\ errs (snd Scenario.runThrottle3) !! 2%nat = Some errRateLimit.
Proof. vm_compute. repeat split; try reflexivity. right. right. left. reflexivity. Qed.

(** The wait for tokens is entered only when it ends before the deadline;
    otherwise the text at the loop counter is failed. *)
Lemma oversizeWait_deadline env job rl s ctl s' :
  oversizeWait env job rl s = Ok (ctl, s') ->
  exists tok,
    batchJob.tokens job !! objCounter s = Some tok
    /\ if wrap64 (since env s (batchJob.startTime job) + sleepTime rl tok)
          <? maxBatchTime env
       then trace s' = trace s ++ [EvSleep (sleepTime rl tok)]
            /\ errs s' = errs s /\ objCounter s' = objCounter s
       else trace s' = trace s
            /\ errs s' = <[objCounter s := errTooLongNoWait]> (errs s)
            /\ objCounter s' = S (objCounter s).
Proof.
  unfold oversizeWait. intros H.
  apply bind_Ok in H. destruct H as (tok & Htok & H). apply index_Ok in Htok.
  exists tok. split; [done|].
  destruct (_ <? _); injection H as <- <-; done.
Qed.

(** After a request of the main loop the worker sleeps only when the reset
    of the request budget ends by the deadline. *)
Lemma dispatch_deadline env job rl s ctl s' d :
  dispatch env job rl s = Ok (ctl, s') ->
  In (EvSleep d) (drop (length (trace s)) (trace s')) ->
  ctl = Continue
  /\ wrap64 (sat64 (clock env (S (S (ticks s))) - batchJob.startTime job) + d)
     <= maxBatchTime env.
Proof.
  unfold dispatch. intros H Hin.
  apply bind_Ok in H. destruct H as ([[rlNew err] s1] & E & H).
  apply makeRequest_Ok in E. destruct E as (es & vs & ->).
  simpl in H.
  destruct (_ && _).
  - destruct (_ <? _) eqn:Hlt.
    + apply bind_Ok in H. destruct H as (i0 & _ & H).
      apply bind_Ok in H. destruct H as (es' & _ & H).
      injection H as <- <-. simpl in Hin.
      rewrite drop_app_length in Hin. destruct Hin as [Hin|[]]. discriminate.
    + injection H as <- <-. simpl in Hin. rewrite <- app_assoc in Hin.
      rewrite drop_app_length in Hin.
      destruct Hin as [Hin|[Hin|[]]]; [discriminate|]. injection Hin as <-.
      split; [done|]. apply Z.ltb_ge in Hlt. exact Hlt.
  - injection H as <- <-. simpl in Hin.
    rewrite drop_app_length in Hin. destruct Hin as [Hin|[]]. discriminate.
Qed.

(** With nothing gathered, the request of the main loop is an empty one;
    when the limits in force after it leave no request and the reset comes
    past the deadline, the marking loop reads the first index of an empty
    sub-batch and the worker panics, whatever the client answered. *)
Lemma empty_batch_throttle_panics env job rl s :
  texts s = [] -> origIndex s = [] ->
  let rl' := default rl (resp_rateLimit
                           (Vectorize env (calls s) (batchJob.cfg job) [])) in
  RemainingRequests rl' = 0 -> 0 < ResetRequests rl' ->
  maxBatchTime env
  < wrap64 (sat64 (clock env (S (S (ticks s))) - batchJob.startTime job)
            + resetWait rl') ->
  dispatch env job rl s = Panicked "index out of range".
Proof.
  intros Ht Ho rl' Hrem Hreset Hlate. subst rl'.
  destruct s as [rl0 txts oi fr tpt took oc tot es vs nc nt np tr].
  cbn [texts origIndex calls ticks] in *. subst txts oi.
  apply Z.ltb_lt in Hreset, Hlate.
  unfold dispatch, makeRequest, since, index.
  cbn [length seq tick called emit calls ticks texts origIndex errs vecs
       tokensInCurrentBatch set_errs set_vecs set_timing set_rateLimit].
  destruct (resp_err _);
    cbn [failAll writeResults mbind Res_bind length seq tick called emit calls
         ticks texts origIndex errs vecs tokensInCurrentBatch set_errs set_vecs
         set_timing set_rateLimit];
    destruct (resp_rateLimit _) as [r|]; cbv [default from_option id] in Hrem, Hreset, Hlate;
    rewrite Hrem, Hreset, Hlate; reflexivity.
Qed.

(** C4.  A sleep that would pass the deadline should be replaced by marking
    the affected items failed.  In this run nothing fits the token budget
    and the token reset is below one second, so an empty sub-batch is sent;
    the request budget is used up for longer than the deadline, and the
    marking loop reads the first index of the empty sub-batch: the worker
    panics, index 1 is never marked and the job is never completed. *)
Theorem C4_throttle_panics_on_empty_batch :
  fst Scenario.runDrained = PcPanic "index out of range"
  /\ errs (snd Scenario.runDrained) !! 1%nat = None
  /\ filter (fun e => isSleep e) (trace (snd Scenario.runDrained)) = []
  /\ forall fuel,
       fst (runJob Scenario.envDrained (Scenario.job [10; 10]) ∅
              (Scenario.fresh 2) (10 + fuel) initialWorker)
       = PcPanic "index out of range".
Proof.
  split; [vm_compute; reflexivity|].
  split; [vm_compute; reflexivity|].
  split; [vm_compute; reflexivity|].
  intros fuel. unfold runJob.
  replace (10 + fuel)%nat with (fuel + 10)%nat by lia.
  assert (Hsplit : forall env job n m c,
             run env job (n + m) c = run env job n (run env job m c)).
  { intros env job n m. revert n. induction m as [|m IH]; intros n c.
    - by rewrite Nat.add_0_r.
    - replace (n + S m)%nat with (S (n + m)) by lia. simpl. apply IH. }
  rewrite Hsplit.
  set (c := run _ _ 10 _).
  assert (Hc : exists s, c = (PcPanic "index out of range", s)).
  { eexists. vm_compute. reflexivity. }
  destruct Hc as [s Hs]. rewrite Hs. clear.
  induction fuel as [|n IH]; [reflexivity|]. simpl. exact IH.
Qed.

(** ** One request per sub-batch *)

(** When the throttle check leaves the loop after the last text has been
    admitted, the trailing request sends the same sub-batch again. *)
Lemma break_then_drain_resends env job rl s s1 s2 :
  dispatch env job rl s = Ok (Break, s1) ->
  objCounter s = length (batchJob.texts job) ->
  texts s <> [] ->
  drain env job s1 = Ok s2 ->
  trace s2 = trace s ++ [EvRequest Dispatch (texts s) (origIndex s);
                         EvRequest Drain (texts s) (origIndex s); EvDone].
Proof.
  intros Hd Hc Ht Hdr.
  assert (Hoc : objCounter s1 = objCounter s).
  { unfold dispatch in Hd.
    apply bind_Ok in Hd. destruct Hd as ([[rlNew err] s0] & E & H).
    apply makeRequest_Ok in E. destruct E as (es & vs & ->). simpl in H.
    destruct (_ && _); [|discriminate H].
    destruct (_ <? _); [|discriminate H].
    apply bind_Ok in H. destruct H as (i0 & _ & H).
    apply bind_Ok in H. destruct H as (es' & _ & H).
    by injection H as <-. }
  pose proof (throttled_turn _ _ _ _ _ Hd) as (first & rlNew & err & s0 & _ & _ & _ & Htr & _).
  apply dispatch_Ok in Hd. destruct Hd as (took & tr & _ & _ & _ & Hctl).
  destruct Hctl as (Htx & Hoi & _ & _).
  unfold drain in Hdr. rewrite Htx, Hoc, Hc, Nat.eqb_refl in Hdr.
  replace (0 <? length (texts s))%nat with true in Hdr
    by (symmetry; apply Nat.ltb_lt; destruct (texts s); [done|simpl; lia]).
  simpl in Hdr.
  apply bind_Ok in Hdr. destruct Hdr as (s3 & E & Hdr). injection Hdr as <-.
  apply bind_Ok in E. destruct E as ([[rlNew' err'] s4] & E & H).
  apply makeRequest_Ok in E. destruct E as (es & vs & ->).
  injection H as <-. rewrite Hoi.
  destruct rlNew'; simpl; rewrite Htr, <- !app_assoc; reflexivity.
Qed.

(** C5.  A gathered sub-batch should reach the client at most once.  In
    this run the last text is admitted and sent, the throttle check leaves
    the loop without clearing the gathered texts, and the trailing request
    after the loop sends the same sub-batch a second time. *)
Theorem C5_batch_dispatched_twice :
  fst Scenario.runThrottle2 = PcDone
  /\ filter (fun e => isRequest e) (trace (snd Scenario.runThrottle2))
     = [EvRequest Bootstrap ["t"%string] [0%nat];
        EvRequest Dispatch ["t"%string] [1%nat];
        EvRequest Drain ["t"%string] [1%nat]].
Proof. vm_compute. split; reflexivity. Qed.

(** ** Cancellation *)

(** A turn that finds the context cancelled: the indices from the loop
    counter on are failed, whatever waits in the gathered sub-batch is left
    as it is, and nothing is sent. *)
Lemma cancelled_turn env job s ctl s' :
  ctxErr env (polls s) = true ->
  loopBody env job s = Ok (ctl, s') ->
  ctl = Break /\ trace s' = trace s /\ vecs s' = vecs s /\ sameBatch s s'
  /\ objCounter s' = objCounter s
  /\ forall j,
       errs s' !! j
       = if decide ((objCounter s <= j < length (batchJob.texts job))%nat
                    /\ batchJob.skipObject job !! j = Some false)
         then Some errCancelled else errs s !! j.
Proof.
  intros Hc H. unfold loopBody in H. rewrite Hc in H.
  apply bind_Ok in H. destruct H as (es & Hes & H). injection H as <- <-.
  repeat split; try done. intros j. apply (markFrom_lookup _ _ _ _ _ j Hes).
Qed.

(** C6.  On cancellation every index not yet processed should fail,
    the ones waiting in the gathered sub-batch included.  In this run index
    1 has been admitted and not yet sent when the context is cancelled: the
    marking starts at the loop counter, index 2 gets the cancellation error,
    no request is made any more, and index 1 ends with no vector and no
    error. *)
Theorem C6_pending_batch_dropped_on_cancel :
  fst Scenario.runCancel = PcDone
  /\ trace (snd Scenario.runCancel)
     = [EvRequest Bootstrap ["t"%string] [0%nat]; EvAdmit 1 10 25; EvDone]
  /\ errs (snd Scenario.runCancel) !! 2%nat = Some errCancelled
  /\ errs (snd Scenario.runCancel) !! 1%nat = None
  /\ hasVector (snd Scenario.runCancel) 1 = false
  /\ hasVector (snd Scenario.runCancel) 0 = true.
Proof. vm_compute. repeat split; reflexivity. Qed.

(** ** The single-object path *)

(** C9.  [object] reads the first chunk of a successful answer without
    looking at the number of chunks: on a successful answer it has a value
    when there is at least one chunk, and it panics with an index out of
    range when there is none. *)
Theorem C9_object_needs_a_chunk {Object Encoding : Type}
    (col : Collaborators Object Encoding) (env : Env) (call : nat)
    (obj : Object) (cfg : VectorizationConfig) (r : VectorizationResult) :
  resp_err (Vectorize env call cfg [Texts col obj cfg]) = None ->
  resp_res (Vectorize env call cfg [Texts col obj cfg]) = Some r ->
  (Vector r = [] -> object col env call obj cfg = Panicked "index out of range")
  /\ (Vector r <> [] -> exists v, object col env call obj cfg = Ok (v, None)).
Proof.
  intros Herr Hres. unfold object. rewrite Herr, Hres. simpl.
  split.
  - intros ->. reflexivity.
  - intros Hne. destruct (Vector r) as [|v [|v' vs]] eqn:Hv; [done| |].
    + simpl. eauto.
    + simpl. eauto.
Qed.

Lemma C9_object_needs_a_chunk_witness :
  object Scenario.col Scenario.envNoChunk 0 "hello"%string Scenario.cfg
  = Panicked "index out of range".
Proof.
  exact (proj1 (C9_object_needs_a_chunk Scenario.col Scenario.envNoChunk 0
                  "hello"%string Scenario.cfg (mkResult [] []) eq_refl eq_refl)
               eq_refl).
Defined.

(** ** The batch entry point on an all-skipped input *)

Section AllSkipped.
Context {Object Encoding : Type} (col : Collaborators Object Encoding).

Lemma prepare_all_skipped (conf : VectorizationConfig) (tke : Encoding)
    (skipObject : list bool) (objs : list Object) :
  forall (i : nat) (acc : bool * list string * list Z),
    (forall j, (j < length objs)%nat -> skipObject !! (i + j)%nat = Some true) ->
    prepare col conf tke skipObject i objs acc = Ok acc.
Proof.
  induction objs as [|o rest IH]; intros i acc Hskip; [reflexivity|].
  cbn [prepare]. unfold index.
  specialize (Hskip 0%nat ltac:(simpl; lia)) as H0.
  rewrite Nat.add_0_r in H0. rewrite H0. simpl.
  apply IH. intros j Hj.
  replace (S i + j)%nat with (i + S j)%nat by lia.
  apply Hskip. simpl. lia.
Qed.

Lemma fail_every_index (err : error) (n : nat) (j : nat) :
  foldl (fun (es : gmap nat error) k => <[k:=err]> es) ∅ (seq 0 n) !! j
  = if decide (j < n)%nat then Some err else None.
Proof.
  assert (Hgen : forall (l : list nat) (m : gmap nat error),
             foldl (fun (es : gmap nat error) k => <[k:=err]> es) m l !! j
             = if decide (j ∈ l) then Some err else m !! j).
  { induction l as [|k l IH]; intros m; cbn [foldl].
    - destruct (decide (j ∈ [])) as [Hin|_]; [|done].
      by apply not_elem_of_nil in Hin.
    - rewrite IH.
      destruct (decide (j ∈ l)) as [Hl|Hl];
        destruct (decide (j ∈ k :: l)) as [Hkl|Hkl]; try done.
      + exfalso. apply Hkl. by right.
      + apply elem_of_cons in Hkl. destruct Hkl as [->|Hkl]; [|done].
        by rewrite lookup_insert_eq.
      + rewrite lookup_insert_ne; [done|]. intros ->. apply Hkl. by left. }
  rewrite Hgen, lookup_empty.
  destruct (decide (j ∈ seq 0 n)) as [Hs|Hs];
    destruct (decide (j < n)%nat) as [Hlt|Hlt]; try done.
  - exfalso. apply elem_of_seq in Hs. lia.
  - exfalso. apply Hs. apply elem_of_seq. lia.
Qed.

(** C8, as the code has it.  When every object is skipped, [ObjectBatch]
    answers at once: no job reaches the queue and the worker, hence the
    client, is left alone.  The error map is empty when the tokenizer
    knows the model; when it does not, lines 297-303 have already failed
    every index, the skipped ones too, and no vectors are returned. *)
Theorem C8_all_skipped_answers_at_once (env : Env) (fuel : nat) (w : State)
    (now : Z) (objects : list Object) (skipObject : list bool)
    (cfg : VectorizationConfig) :
  length skipObject = length objects ->
  Forall (fun b => b = true) skipObject ->
  exists vs es,
    ObjectBatch col now objects skipObject cfg = Ok (Returned vs es)
    /\ VectorizeBatch col env fuel w now objects skipObject cfg = Answer vs es w
    /\ match EncodingForModel col (tokenizerModel (Model cfg)) with
       | inl _ => vs = Some (replicate (length objects) None) /\ es = ∅
       | inr err =>
           vs = None
           /\ forall j, es !! j
                        = if decide (j < length objects)%nat then Some err else None
       end.
Proof.
  intros Hlen Hall. unfold VectorizeBatch, ObjectBatch.
  destruct (EncodingForModel col (tokenizerModel (Model cfg))) as [tke|err].
  - rewrite prepare_all_skipped.
    + simpl. do 2 eexists. repeat split; reflexivity.
    + intros j Hj. simpl.
      destruct (skipObject !! j) as [b|] eqn:Hb.
      * f_equal. rewrite Forall_lookup in Hall. exact (Hall j b Hb).
      * apply lookup_ge_None in Hb. lia.
  - do 2 eexists. split; [reflexivity|]. split; [reflexivity|].
    split; [reflexivity|]. intros j. apply fail_every_index.
Qed.
End AllSkipped.

(** C8, as stated, fails: with a model the tokenizer does not know, an
    all-skipped input comes back with an error at every index. *)
Lemma C8_all_skipped_error_map_not_empty :
  Forall (fun b => b = true) [true]
  /\ ObjectBatch Scenario.col 0 ["hello"%string] [true] Scenario.cfgUnknown
     = Ok (Returned None {[ 0%nat := "no encoding for model"%string ]}).
Proof. split; [repeat constructor|]. vm_compute. reflexivity. Qed.

Lemma C8_all_skipped_answers_at_once_witness :
  exists vs es,
    ObjectBatch Scenario.col 0 ["a"%string; "b"%string] [true; true] Scenario.cfg
    = Ok (Returned vs es)
    /\ VectorizeBatch Scenario.col Scenario.envA 10 initialWorker 0
         ["a"%string; "b"%string] [true; true] Scenario.cfg
       = Answer vs es initialWorker
    /\ vs = Some [None; None] /\ es = ∅.
Proof.
  exact (C8_all_skipped_answers_at_once Scenario.col Scenario.envA 10
           initialWorker 0 ["a"%string; "b"%string] [true; true] Scenario.cfg
           eq_refl ltac:(repeat constructor)).
Defined.

(** ** The budget test of line 192 in exact arithmetic *)

Lemma digits2_pos_bounds (p : positive) :
  2 ^ (Zpos (digits2_pos p) - 1) <= Zpos p < 2 ^ Zpos (digits2_pos p).
Proof.
  induction p as [p IH|p IH|]; cbn [digits2_pos].
  - rewrite Pos2Z.inj_succ.
    replace (Z.succ (Zpos (digits2_pos p)) - 1) with (Z.succ (Zpos (digits2_pos p) - 1)) by lia.
    rewrite !Z.pow_succ_r by lia. lia.
  - rewrite Pos2Z.inj_succ.
    replace (Z.succ (Zpos (digits2_pos p)) - 1) with (Z.succ (Zpos (digits2_pos p) - 1)) by lia.
    rewrite !Z.pow_succ_r by lia. lia.
  - simpl. lia.
Qed.

Lemma digits2_pos_unique (p : positive) (d : Z) :
  2 ^ (d - 1) <= Zpos p < 2 ^ d -> Zpos (digits2_pos p) = d.
Proof.
  intros [Hlo Hhi]. pose proof (digits2_pos_bounds p) as [Hlo' Hhi'].
  assert (0 < d).
  { destruct (Z.lt_trichotomy d 0) as [Hd|[Hd|Hd]]; [|subst; simpl in *; lia|lia].
    rewrite Z.pow_neg_r in Hhi by lia. lia. }
  assert (d - 1 < Zpos (digits2_pos p)).
  { apply (Z.pow_lt_mono_r_iff 2); lia. }
  assert (Zpos (digits2_pos p) - 1 < d).
  { apply (Z.pow_lt_mono_r_iff 2); lia. }
  lia.
Qed.

Lemma iter_xO_spec (p q : positive) :
  Zpos (Pos.iter xO p q) = Zpos p * 2 ^ Zpos q.
Proof.
  induction q as [|q IH] using Pos.peano_ind.
  - simpl. lia.
  - rewrite Pos.iter_succ, Pos2Z.inj_succ, Z.pow_succ_r by lia.
    rewrite Pos2Z.inj_xO, IH. lia.
Qed.

(** A 24-bit mantissa with an exponent in range is left alone by rounding. *)
Lemma round_canonical32 (sx : bool) (m : positive) (e : Z) :
  Zpos (digits2_pos m) = 24 -> -149 <= e <= 104 ->
  binary_round_aux 24 128 sx (Zpos m) e loc_Exact = S754_finite sx m e.
Proof.
  intros Hd He. unfold binary_round_aux, shr_fexp, fexp, emin.
  cbn [Zdigits2 shr_record_of_loc]. rewrite Hd.
  replace (Z.max (24 + e - 24) (3 - 128 - 24) - e) with 0 by lia.
  cbn [shr shr_m loc_of_shr_record round_nearest_even Zdigits2 shr_record_of_loc].
  rewrite Hd.
  replace (Z.max (24 + e - 24) (3 - 128 - 24) - e) with 0 by lia.
  cbn [shr shr_m].
  replace (e <=? 128 - 24) with true by (symmetry; apply Z.leb_le; lia).
  reflexivity.
Qed.

Lemma of_int_pos (p : positive) :
  Zpos p < 2 ^ 24 ->
  exists m e,
    F32.of_int (Zpos p) = S754_finite false m e
    /\ Zpos (digits2_pos m) = 24 /\ -23 <= e <= 0
    /\ Zpos m = Zpos p * 2 ^ (- e).
Proof.
  intros Hp. unfold F32.of_int, binary_normalize, binary_round, F32.prec, F32.emax.
  pose proof (digits2_pos_bounds p) as [Hlo Hhi].
  assert (Hd : 1 <= Zpos (digits2_pos p) <= 24).
  { split; [lia|].
    destruct (Z.le_gt_cases (Zpos (digits2_pos p)) 24) as [|Hgt]; [done|].
    assert (2 ^ 24 <= 2 ^ (Zpos (digits2_pos p) - 1))
      by (apply Z.pow_le_mono_r; lia). lia. }
  unfold shl_align, fexp, emin.
  replace (Z.max (Zpos (digits2_pos p) + 0 - 24) (3 - 128 - 24) - 0)
    with (Zpos (digits2_pos p) - 24) by lia.
  replace (Z.max (Zpos (digits2_pos p) + 0 - 24) (3 - 128 - 24))
    with (Zpos (digits2_pos p) - 24) by lia.
  destruct (Zpos (digits2_pos p) - 24) as [|q|q] eqn:Hq; [|lia|].
  - exists p, 0. rewrite round_canonical32 by lia.
    repeat split; try lia.
  - exists (Pos.iter xO p q), (Zneg q).
    assert (Hdq : Zpos (digits2_pos (Pos.iter xO p q)) = 24).
    { apply digits2_pos_unique. rewrite iter_xO_spec.
      replace 24 with (Zpos (digits2_pos p) + Zpos q) at 2 by lia.
      replace (24 - 1) with ((Zpos (digits2_pos p) - 1) + Zpos q) by lia.
      rewrite !Z.pow_add_r by lia.
      assert (0 < 2 ^ Zpos q) by (apply Z.pow_pos_nonneg; lia). nia. }
    rewrite round_canonical32 by lia.
    repeat split; try lia.
    rewrite iter_xO_spec. f_equal.
Qed.

Lemma shr_1_m (mrs : shr_record) :
  0 <= shr_m mrs -> shr_m (shr_1 mrs) = shr_m mrs / 2.
Proof.
  destruct mrs as [m r s]. cbn [shr_m]. intros Hm.
  rewrite <- Z.div2_div.
  destruct m as [|[p|p|]|p]; try reflexivity; lia.
Qed.

Lemma iter_shr_m (n : positive) :
  forall mrs : shr_record,
    0 <= shr_m mrs ->
    shr_m (SpecFloat.iter_pos shr_1 n mrs) = shr_m mrs / 2 ^ Zpos n.
Proof.
  assert (Hpos : forall k : positive, 0 < 2 ^ Zpos k)
    by (intros k; apply Z.pow_pos_nonneg; lia).
  induction n as [n IH|n IH|]; intros mrs Hm; cbn [SpecFloat.iter_pos].
  - assert (H1 : 0 <= shr_m (shr_1 mrs))
      by (rewrite shr_1_m by done; apply Z.div_pos; lia).
    assert (H2 : 0 <= shr_m (SpecFloat.iter_pos shr_1 n (shr_1 mrs)))
      by (rewrite IH by done; apply Z.div_pos; [done|apply Hpos]).
    rewrite IH, IH, shr_1_m by done.
    rewrite !Z.div_div by (try apply Hpos; lia).
    f_equal.
    replace (Zpos n~1) with (1 + Zpos n + Zpos n) by lia.
    rewrite !Z.pow_add_r by lia. simpl (2 ^ 1). lia.
  - assert (H2 : 0 <= shr_m (SpecFloat.iter_pos shr_1 n mrs))
      by (rewrite IH by done; apply Z.div_pos; [done|apply Hpos]).
    rewrite IH, IH by done.
    rewrite !Z.div_div by (try apply Hpos; lia).
    f_equal.
    replace (Zpos n~0) with (Zpos n + Zpos n) by lia.
    rewrite !Z.pow_add_r by lia. lia.
  - rewrite shr_1_m by done. reflexivity.
Qed.

Lemma round_nearest_even_cases (q : Z) (l : location) :
  round_nearest_even q l = q \/ round_nearest_even q l = q + 1.
Proof. destruct l as [|[]]; simpl; try destruct (Z.even q); auto. Qed.

Lemma c095_value : F32.c095 = S754_finite false 15938355 (-24).
Proof. vm_compute. reflexivity. Qed.

(** The product [0.95 * x] in [float32], for a normal [x] between 1 and
    2^24: every integer below the rounded product is at most the exact
    product. *)
Lemma mul_c095_bound (mR : positive) (eR : Z) :
  Zpos (digits2_pos mR) = 24 -> -23 <= eR <= 0 ->
  exists m2 e2,
    F32.mul F32.c095 (S754_finite false mR eR) = S754_finite false m2 e2
    /\ Zpos (digits2_pos m2) = 24
    /\ -48 <= e2 <= 1
    /\ forall t : Z,
         t * 2 ^ 48 < Zpos m2 * 2 ^ (e2 + 48) ->
         t * 2 ^ (24 - eR) <= 15938355 * Zpos mR.
Proof.
  intros Hd He. rewrite c095_value. unfold F32.mul, F32.prec, F32.emax, SFmul.
  cbn [xorb].
  set (M := (15938355 * mR)%positive).
  pose proof (digits2_pos_bounds mR) as HmR. rewrite Hd in HmR.
  change (2 ^ (24 - 1)) with 8388608 in HmR. change (2 ^ 24) with 16777216 in HmR.
  assert (HM : Zpos M = 15938355 * Zpos mR) by (unfold M; lia).
  pose proof (digits2_pos_bounds M) as HMb.
  set (D := Zpos (digits2_pos M)) in *.
  assert (HD : 47 <= D <= 48).
  { split.
    - destruct (Z.le_gt_cases 47 D) as [|Hlt]; [done|].
      assert (2 ^ D <= 2 ^ 46) by (apply Z.pow_le_mono_r; lia).
      change (2 ^ 46) with 70368744177664 in *. lia.
    - destruct (Z.le_gt_cases D 48) as [|Hgt]; [done|].
      assert (2 ^ 48 <= 2 ^ (D - 1)) by (apply Z.pow_le_mono_r; lia).
      change (2 ^ 48) with 281474976710656 in *. lia. }
  unfold binary_round_aux.
  unfold shr_fexp at 1. unfold fexp, emin. cbn [Zdigits2 shr_record_of_loc].
  fold D.
  replace (Z.max (D + (-24 + eR) - 24) (3 - 128 - 24) - (-24 + eR))
    with (D - 24) by lia.
  destruct (D - 24) as [|n|n] eqn:Hn; [lia| |lia].
  cbn [shr].
  set (mrs := SpecFloat.iter_pos shr_1 n (Build_shr_record (Zpos M) false false)).
  assert (Hq : shr_m mrs = Zpos M / 2 ^ Zpos n).
  { unfold mrs. rewrite iter_shr_m; [reflexivity|simpl; lia]. }
  set (q := shr_m mrs) in *.
  assert (H2n : 0 < 2 ^ Zpos n) by (apply Z.pow_pos_nonneg; lia).
  assert (Hqb : 2 ^ 23 <= q < 2 ^ 24).
  { rewrite Hq. split.
    - apply Z.div_le_lower_bound; [done|].
      replace (2 ^ Zpos n * 2 ^ 23) with (2 ^ (D - 1)).
      + lia.
      + rewrite <- Z.pow_add_r by lia. f_equal. lia.
    - apply Z.div_lt_upper_bound; [done|].
      replace (2 ^ Zpos n * 2 ^ 24) with (2 ^ D).
      + lia.
      + rewrite <- Z.pow_add_r by lia. f_equal. lia. }
  change (2 ^ 23) with 8388608 in Hqb. change (2 ^ 24) with 16777216 in Hqb.
  set (e' := -24 + eR + Zpos n).
  assert (He' : -24 <= e' <= 0) by (unfold e'; lia).
  (* what an integer below (q+1) * 2^e' satisfies *)
  assert (Hkey : forall t : Z, t * 2 ^ 48 < (q + 1) * 2 ^ (e' + 48) ->
                               t * 2 ^ (24 - eR) <= 15938355 * Zpos mR).
  { intros t Ht.
    replace (2 ^ 48) with (2 ^ (- e') * 2 ^ (e' + 48)) in Ht
      by (rewrite <- Z.pow_add_r by lia; f_equal; lia).
    assert (0 < 2 ^ (e' + 48)) by (apply Z.pow_pos_nonneg; lia).
    assert (Ht' : t * 2 ^ (- e') < q + 1) by nia.
    assert (Hle : t * 2 ^ (- e') <= Zpos M / 2 ^ Zpos n) by lia.
    assert (Hmul : t * 2 ^ (- e') * 2 ^ Zpos n <= Zpos M).
    { pose proof (Z.mul_div_le (Zpos M) (2 ^ Zpos n) H2n). nia. }
    rewrite <- HM.
    replace (2 ^ (24 - eR)) with (2 ^ (- e') * 2 ^ Zpos n)
      by (rewrite <- Z.pow_add_r by lia; f_equal; unfold e'; lia).
    lia. }
  destruct (round_nearest_even_cases q (loc_of_shr_record mrs)) as [Hr|Hr];
    rewrite Hr.
  - (* rounded down *)
    destruct q as [|pq|pq] eqn:Epq; [lia| |lia].
    assert (Hdq : Zpos (digits2_pos pq) = 24)
      by (apply digits2_pos_unique; change (2 ^ (24 - 1)) with 8388608;
          change (2 ^ 24) with 16777216; lia).
    unfold shr_fexp, fexp, emin. cbn [Zdigits2 shr_record_of_loc]. rewrite Hdq.
    fold e'.
    replace (Z.max (24 + e' - 24) (3 - 128 - 24) - e') with 0 by lia.
    cbn [shr shr_m].
    replace (e' <=? 128 - 24) with true by (symmetry; apply Z.leb_le; lia).
    exists pq, e'. repeat split; try lia.
    intros t Ht. apply Hkey.
    assert (0 < 2 ^ (e' + 48)) by (apply Z.pow_pos_nonneg; lia). nia.
  - (* rounded up *)
    destruct (Z.eq_dec (q + 1) 16777216) as [Hov|Hno].
    + rewrite Hov. unfold shr_fexp, fexp, emin. cbn [Zdigits2 shr_record_of_loc].
      fold e'.
      change (Zpos (digits2_pos 16777216)) with 25.
      replace (Z.max (25 + e' - 24) (3 - 128 - 24) - e') with 1 by lia.
      cbn [shr SpecFloat.iter_pos shr_1 shr_m orb].
      replace (e' + 1 <=? 128 - 24) with true by (symmetry; apply Z.leb_le; lia).
      exists 8388608%positive, (e' + 1). repeat split; try lia.
      intros t Ht. apply Hkey. rewrite Hov.
      replace (e' + 1 + 48) with (1 + (e' + 48)) in Ht by lia.
      rewrite Z.pow_add_r in Ht by lia. simpl (2 ^ 1) in Ht. lia.
    + destruct (q + 1) as [|pq|pq] eqn:Epq; [lia| |lia].
      assert (Hdq : Zpos (digits2_pos pq) = 24)
        by (apply digits2_pos_unique; change (2 ^ (24 - 1)) with 8388608;
            change (2 ^ 24) with 16777216; lia).
      unfold shr_fexp, fexp, emin. cbn [Zdigits2 shr_record_of_loc]. rewrite Hdq.
      fold e'.
      replace (Z.max (24 + e' - 24) (3 - 128 - 24) - e') with 0 by lia.
      cbn [shr shr_m].
      replace (e' <=? 128 - 24) with true by (symmetry; apply Z.leb_le; lia).
      exists pq, e'. repeat split; try lia.
      intros t Ht. apply Hkey. first [exact Ht | rewrite Epq; exact Ht].
Qed.

(** Two positive normal [float32] values compare as the numbers they denote. *)
Lemma ltb_canonical (ms m2 : positive) (es e2 k : Z) :
  Zpos (digits2_pos ms) = 24 -> Zpos (digits2_pos m2) = 24 ->
  0 <= es + k -> 0 <= e2 + k ->
  F32.ltb (S754_finite false ms es) (S754_finite false m2 e2) = true ->
  Zpos ms * 2 ^ (es + k) < Zpos m2 * 2 ^ (e2 + k).
Proof.
  intros Hds Hd2 Hes He2. unfold F32.ltb, SFltb, SFcompare.
  pose proof (digits2_pos_bounds ms) as Hs. rewrite Hds in Hs.
  pose proof (digits2_pos_bounds m2) as H2. rewrite Hd2 in H2.
  change (2 ^ (24 - 1)) with 8388608 in *. change (2 ^ 24) with 16777216 in *.
  destruct (Z.compare_spec es e2) as [Heq|Hlt|Hgt]; [| |discriminate].
  - subst e2. destruct (Pos.compare_cont Eq ms m2) eqn:Hc; try discriminate.
    intros _. change (Pos.compare_cont Eq ms m2) with (Pos.compare ms m2) in Hc.
    assert (0 < 2 ^ (es + k)) by (apply Z.pow_pos_nonneg; lia).
    apply Z.mul_lt_mono_pos_r; [done|exact Hc].
  - intros _.
    replace (e2 + k) with ((e2 - es) + (es + k)) by lia.
    rewrite (Z.pow_add_r 2 (e2 - es) (es + k)) by lia.
    assert (0 < 2 ^ (es + k)) by (apply Z.pow_pos_nonneg; lia).
    assert (2 ^ 1 <= 2 ^ (e2 - es)) by (apply Z.pow_le_mono_r; lia).
    change (2 ^ 1) with 2 in *.
    set (P := 2 ^ (es + k)) in *. set (Q := 2 ^ (e2 - es)) in *.
    assert (Hm : Zpos ms < Zpos m2 * Q).
    { apply Z.lt_le_trans with (8388608 * 2); [lia|].
      apply Z.mul_le_mono_nonneg; lia. }
    rewrite Z.mul_assoc. apply Z.mul_lt_mono_pos_r; done.
Qed.

(** Below 2^24 the [float32] test of line 192 means what it says. *)
Lemma withinBudget_exact (total R : Z) :
  0 <= total < 2 ^ 24 -> 0 <= R < 2 ^ 24 ->
  withinBudget total R = true -> 100 * total < 95 * R.
Proof.
  intros Ht HR. unfold withinBudget.
  destruct R as [|pR|pR]; [| |lia].
  - (* no budget: nothing is below it *)
    change (F32.mul F32.c095 (F32.of_int 0)) with (S754_zero false).
    destruct total as [|pt|pt]; [discriminate| |lia].
    destruct (of_int_pos pt) as (ms & es & -> & _); [lia|]. discriminate.
  - destruct total as [|pt|pt]; [lia| |lia].
    intros Hlt.
    destruct (of_int_pos pR) as (mR & eR & HofR & HdR & HeR & HmR); [lia|].
    destruct (of_int_pos pt) as (ms & es & Hofs & Hds & Hes & Hms); [lia|].
    rewrite HofR, Hofs in Hlt.
    destruct (mul_c095_bound mR eR HdR HeR) as (m2 & e2 & Hmul & Hd2 & He2 & Hkey).
    rewrite Hmul in Hlt.
    apply (ltb_canonical ms m2 es e2 48) in Hlt; try lia.
    assert (Hval : Zpos pt * 2 ^ 48 = Zpos ms * 2 ^ (es + 48)).
    { rewrite Hms, <- Z.mul_assoc, <- Z.pow_add_r by lia. do 2 f_equal. lia. }
    rewrite <- Hval in Hlt. apply Hkey in Hlt.
    rewrite HmR in Hlt.
    replace (2 ^ (24 - eR)) with (2 ^ 24 * 2 ^ (- eR)) in Hlt
      by (rewrite <- Z.pow_add_r by lia; f_equal; lia).
    assert (0 < 2 ^ (- eR)) by (apply Z.pow_pos_nonneg; lia).
    change (2 ^ 24) with 16777216 in Hlt.
    assert (Zpos pt * 16777216 <= 15938355 * Zpos pR) by nia.
    lia.
Qed.

(** ** Token budget of the requests *)

Lemma wrap64_add_l a b : wrap64 (wrap64 a + b) = wrap64 (a + b).
Proof.
  unfold wrap64.
  replace ((a + 2 ^ 63) mod 2 ^ 64 - 2 ^ 63 + b + 2 ^ 63)
    with ((a + 2 ^ 63) mod 2 ^ 64 + b) by lia.
  rewrite Zplus_mod_idemp_l. f_equal. f_equal. lia.
Qed.

Lemma sumTokens_snoc job idx i tok :
  batchJob.tokens job !! i = Some tok ->
  sumTokens job (idx ++ [i]) = sumTokens job idx + tok.
Proof.
  intros Hi. unfold sumTokens. induction idx as [|j idx IH]; simpl.
  - rewrite Hi. simpl. lia.
  - rewrite IH. lia.
Qed.

Lemma requestOk_grow job t t' e : requestOk job t e -> requestOk job (t ++ t') e.
Proof.
  destruct e; simpl; auto. intros H Hph Hidx.
  destruct (H Hph Hidx) as (i & R & Hl & Hin & Hb).
  exists i, R. repeat split; auto. apply in_or_app. by left.
Qed.

Lemma pendingOk_grow job t t' s s' :
  origIndex s' = origIndex s -> tokensInCurrentBatch s' = tokensInCurrentBatch s ->
  pendingOk job t s -> pendingOk job (t ++ t') s'.
Proof.
  intros Ho Ht [Hsum Hp]. unfold pendingOk. rewrite Ho, Ht. split; [done|].
  intros Hne. destruct (Hp Hne) as (i & R & Hl & Hin & Hb).
  exists i, R. repeat split; auto. apply in_or_app. by left.
Qed.

(** Appending events that are no request of the main loop, to a state whose
    gathered sub-batch is untouched. *)
Lemma budgetInv_grow job t0 s s' t' :
  origIndex s' = origIndex s -> tokensInCurrentBatch s' = tokensInCurrentBatch s ->
  trace s' = trace s ++ t' ->
  (forall t, pendingOk job t s -> Forall (requestOk job (t ++ t')) t') ->
  budgetInv job t0 s -> budgetInv job t0 s'.
Proof.
  intros Ho Ht Htr Hnew (t & Hts & Hall & Hp).
  exists (t ++ t'). split; [by rewrite Htr, Hts, app_assoc|]. split.
  - apply Forall_app. split; [|by apply Hnew].
    eapply Forall_impl; [exact Hall|]. intros e. apply requestOk_grow.
  - by apply (pendingOk_grow job t t' s s').
Qed.

Lemma budgetInv_same job t0 s s' :
  origIndex s' = origIndex s -> tokensInCurrentBatch s' = tokensInCurrentBatch s ->
  trace s' = trace s -> budgetInv job t0 s -> budgetInv job t0 s'.
Proof.
  intros Ho Ht Htr. apply (budgetInv_grow job t0 s s' []); auto.
  by rewrite app_nil_r.
Qed.

Lemma pending_request_ok job t s ph :
  pendingOk job t s ->
  requestOk job (t ++ [EvRequest ph (texts s) (origIndex s)])
    (EvRequest ph (texts s) (origIndex s)).
Proof.
  intros [Hsum Hp]. simpl. intros _ Hne.
  destruct (Hp Hne) as (i & R & Hl & Hin & Hb). rewrite Hsum in Hin, Hb.
  exists i, R. repeat split; auto. apply in_or_app. by left.
Qed.

Lemma budgetInv_admitted job t0 s s1 :
  admitted job s s1 -> budgetInv job t0 s -> budgetInv job t0 s1.
Proof.
  intros (tok & rl & text & Htok & Hrl & Hadm & ->) (t & Hts & Hall & [Hsum Hp]).
  unfold admits in Hadm. apply andb_prop in Hadm. destruct Hadm as [Hadm _].
  apply andb_prop in Hadm. destruct Hadm as [Hbud _].
  eexists (t ++ [_]). split; [simpl; by rewrite Hts, app_assoc|]. split.
  - apply Forall_app. split.
    + eapply Forall_impl; [exact Hall|]. intros e. apply requestOk_grow.
    + constructor; [exact I|constructor].
  - split; simpl.
    + rewrite (sumTokens_snoc _ _ _ _ Htok), Hsum. apply wrap64_add_l.
    + intros _. exists (objCounter s), (RemainingTokens rl).
      split; [apply last_snoc|]. split; [|exact Hbud].
      apply in_or_app. right. by left.
Qed.

Lemma budgetInv_dispatch env job t0 rl s ctl s' :
  dispatch env job rl s = Ok (ctl, s') -> budgetInv job t0 s -> budgetInv job t0 s'.
Proof.
  intros H (t & Hts & Hall & Hp).
  apply dispatch_Ok in H. destruct H as (took & tr & Htr & Htrs & _ & Hctl).
  exists (t ++ EvRequest Dispatch (texts s) (origIndex s) :: tr).
  split; [by rewrite Htr, Hts, app_assoc|]. split.
  - apply Forall_app. split.
    + eapply Forall_impl; [exact Hall|]. intros e. apply requestOk_grow.
    + constructor.
      * replace (t ++ EvRequest Dispatch (texts s) (origIndex s) :: tr)
          with ((t ++ [EvRequest Dispatch (texts s) (origIndex s)]) ++ tr)
          by (by rewrite <- app_assoc).
        apply requestOk_grow. by apply pending_request_ok.
      * destruct Htrs as [->|[d ->]]; repeat constructor.
  - destruct ctl.
    + destruct Hctl as (_ & Ho & Ht). unfold pendingOk. rewrite Ho, Ht.
      split; [reflexivity|]. done.
    + destruct Hctl as (_ & Ho & Ht & _).
      by apply (pendingOk_grow job t _ s s').
Qed.

Lemma budgetInv_step env job t0 c :
  budgetInv job t0 (snd c) -> budgetInv job t0 (snd (step env job c)).
Proof.
  destruct c as [pc s]. simpl. intros Hinv. destruct pc; simpl; try done.
  - destruct (_ && _); [|done].
    destruct (bootstrapBody env job s) as [s'|msg] eqn:E; [|done]. simpl.
    apply bootstrapBody_Ok in E. destruct E as [(_ & Ho & Ht & _) Htr].
    destruct Htr as [Htr|(txts & idx & Htr)].
    + by apply (budgetInv_same job t0 s s').
    + apply (budgetInv_grow job t0 s s' _ Ho Ht Htr); [|done].
      intros t _. constructor; [|constructor]. simpl. done.
  - destruct (_ <? _)%nat; [|done].
    destruct (loopBody env job s) as [[ctl s']|msg] eqn:E; [|done].
    assert (Hs' : budgetInv job t0 s').
    { apply loopBody_Ok in E.
      destruct E as [[(_ & Ho & Ht & _) Htr]|[[_ Ha]|(s1 & rl & Hs1 & Hd)]].
      - destruct Htr as [Htr|(d & Htr)].
        + by apply (budgetInv_same job t0 s s').
        + apply (budgetInv_grow job t0 s s' _ Ho Ht Htr); [|done].
          intros t _. constructor; [exact I|constructor].
      - by apply (budgetInv_admitted job t0 s s').
      - apply (budgetInv_dispatch env job t0 rl s1 ctl s' Hd).
        destruct Hs1 as [->|Ha].
        + by apply (budgetInv_same job t0 s (poll s)).
        + by apply (budgetInv_admitted job t0 s s1). }
    by destruct ctl.
  - destruct (drain env job s) as [s'|msg] eqn:E; [|done]. simpl.
    apply drain_Ok in E. destruct E as [(_ & Ho & Ht & _) Htr].
    destruct Htr as [Htr|Htr].
    + apply (budgetInv_grow job t0 s s' _ Ho Ht Htr); [|done].
      intros t _. constructor; [exact I|constructor].
    + apply (budgetInv_grow job t0 s s' _ Ho Ht Htr); [|done].
      intros t Hp. constructor; [|constructor; [exact I|constructor]].
      replace (t ++ [EvRequest Drain (texts s) (origIndex s); EvDone])
        with ((t ++ [EvRequest Drain (texts s) (origIndex s)]) ++ [EvDone])
        by (by rewrite <- app_assoc).
      apply requestOk_grow. by apply pending_request_ok.
Qed.

Lemma budgetInv_run env job t0 fuel c :
  budgetInv job t0 (snd c) -> budgetInv job t0 (snd (run env job fuel c)).
Proof.
  revert c. induction fuel as [|n IH]; intros c Hc; [done|].
  simpl. apply IH. by apply budgetInv_step.
Qed.

Lemma wrap64_small (z : Z) : - 2 ^ 63 <= z < 2 ^ 63 -> wrap64 z = z.
Proof.
  intros Hz. unfold wrap64. rewrite Z.mod_small; [lia|].
  change (2 ^ 64) with (2 ^ 63 + 2 ^ 63). lia.
Qed.

(** ** The timing estimate after a sub-batch without tokens *)

Lemma div_by_zero_nonfinite (x : float64) :
  nonfinite (F64.div x (F64.of_int 0)) = true.
Proof. destruct x as [sx|sx| |sx mx ex]; reflexivity. Qed.

Lemma withinTime_poisoned (tpt : float64) :
  nonfinite tpt = true -> withinTime tpt 0 = false.
Proof. destruct tpt as [sx|sx| |sx mx ex]; try discriminate; reflexivity. Qed.

Lemma admits_poisoned rl tpt tok n :
  nonfinite tpt = true -> admits rl tpt 0 tok n = false.
Proof.
  intros H. unfold admits. rewrite (withinTime_poisoned tpt H).
  by rewrite andb_false_r.
Qed.

Lemma not_admitted_when_poisoned job s s1 :
  nonfinite (timePerToken s) = true -> tokensInCurrentBatch s = 0 ->
  admitted job s s1 -> False.
Proof.
  intros Hn H0 (tok & rl & text & _ & _ & Hadm & _).
  rewrite H0, admits_poisoned in Hadm by done. discriminate.
Qed.

Lemma admissions_app t t' : admissions (t ++ t') = admissions t ++ admissions t'.
Proof. apply filter_app. Qed.

Lemma poisoned_step env job c :
  poisoned c ->
  poisoned (step env job c)
  /\ admissions (trace (snd (step env job c))) = admissions (trace (snd c)).
Proof.
  destruct c as [pc s]. intros [Hn H0]. simpl in Hn, H0.
  destruct pc; simpl; try done.
  - destruct (_ && _); [|done].
    destruct (bootstrapBody env job s) as [s'|msg] eqn:E; [|done]. simpl.
    apply bootstrapBody_Ok in E. destruct E as [(_ & _ & Ht & Htpt) Htr].
    split; [split; cbn [fst snd]; [by rewrite Htpt|by rewrite Ht]|].
    destruct Htr as [->|(txts & idx & ->)]; [done|].
    rewrite admissions_app. simpl. by rewrite app_nil_r.
  - destruct (_ <? _)%nat; [|done].
    destruct (loopBody env job s) as [[ctl s']|msg] eqn:E; [|done].
    apply loopBody_Ok in E.
    destruct E as [[(_ & _ & Ht & Htpt) Htr]|[[_ Ha]|(s1 & rl & Hs1 & Hd)]].
    + assert (Hadm : admissions (trace s') = admissions (trace s)).
      { destruct Htr as [->|(d & ->)]; [done|].
        rewrite admissions_app. simpl. by rewrite app_nil_r. }
      destruct ctl; cbn [fst snd];
        (split; [split; cbn [fst snd]; [by rewrite Htpt|by rewrite ?Ht]|done]).
    + destruct (not_admitted_when_poisoned job s s' Hn H0 Ha).
    + destruct Hs1 as [->|Ha];
        [|destruct (not_admitted_when_poisoned job s s1 Hn H0 Ha)].
      apply dispatch_Ok in Hd.
      destruct Hd as (took & tr & Htr & Htrs & Htpt & Hctl). simpl in Htr, Htpt.
      rewrite H0 in Htpt.
      assert (Hadm : admissions (trace s') = admissions (trace s)).
      { rewrite Htr, admissions_app.
        destruct Htrs as [->|[d ->]]; simpl; by rewrite app_nil_r. }
      assert (Hn' : nonfinite (timePerToken s') = true).
      { rewrite Htpt. apply div_by_zero_nonfinite. }
      destruct ctl; cbn [fst snd];
        (split; [split; cbn [fst snd]; [done|]|done]); [|done].
      by destruct Hctl as (_ & _ & ->).
  - destruct (drain env job s) as [s'|msg] eqn:E; [|done]. simpl.
    apply drain_Ok in E. destruct E as [(_ & _ & _ & Htpt) Htr].
    split; [split; cbn [fst snd]; [by rewrite Htpt|done]|].
    destruct Htr as [->| ->]; rewrite admissions_app; simpl; by rewrite app_nil_r.
Qed.

Lemma poisoned_workerSteps env x y :
  workerSteps env x y ->
  poisoned (snd x) ->
  poisoned (snd y)
  /\ admissions (trace (snd (snd y))) = admissions (trace (snd (snd x))).
Proof.
  induction 1 as [x|x y z Hxy IH Hyz]; intros Hx; [done|].
  destruct (IH Hx) as [Hy Hay].
  destruct Hyz as [job c|job s job' es vs].
  - destruct (poisoned_step env job c Hy) as [Hz Haz].
    split; [exact Hz|]. simpl in *. congruence.
  - split; [|exact Hay]. destruct Hy as [Hn _]. split; [exact Hn|reflexivity].
Qed.

(** C10.  Line 221 divides by the token total of the sub-batch just sent
    without looking at it.  When that total is zero the estimate becomes an
    infinity or NaN, and from then on, through the rest of the job and all
    later jobs, the estimate stays that way, no text is admitted any more,
    and the admission test fails whenever the main loop evaluates it. *)
Theorem C10_zero_token_batch_poisons_timing (env : Env) (job : batchJob.t)
    (rl : RateLimits) (s : State) (ctl : Control) (s1 : State)
    (job' : batchJob.t) (pc' : Pc) (s' : State) :
  tokensInCurrentBatch s = 0 ->
  dispatch env job rl s = Ok (ctl, s1) ->
  workerSteps env (job, (pcAfter ctl, s1)) (job', (pc', s')) ->
  nonfinite (timePerToken s1) = true
  /\ nonfinite (timePerToken s') = true
  /\ admissions (trace s') = admissions (trace s1)
  /\ (pc' = PcLoop ->
      forall rl' tok n,
        admits rl' (timePerToken s') (tokensInCurrentBatch s') tok n = false).
Proof.
  intros H0 Hd Hsteps.
  apply dispatch_Ok in Hd. destruct Hd as (took & tr & _ & _ & Htpt & Hctl).
  rewrite H0 in Htpt.
  assert (Hn : nonfinite (timePerToken s1) = true).
  { rewrite Htpt. apply div_by_zero_nonfinite. }
  assert (Hp : poisoned (pcAfter ctl, s1)).
  { split; [exact Hn|]. destruct ctl; simpl; [|done]. by destruct Hctl as (_ & _ & ->). }
  destruct (poisoned_workerSteps env _ _ Hsteps Hp) as [[Hn' H0'] Hadm].
  cbn [fst snd] in *. repeat split; auto.
  intros -> rl' tok n. rewrite H0'.
  by apply admits_poisoned.
Qed.

Example zero_token_turn_divides_by_zero :
  loopBody Scenario.envA Scenario.jobZero Scenario.beforeZero
  = dispatch Scenario.envA Scenario.jobZero Scenario.plenty Scenario.atDispatchZero
  /\ dispatch Scenario.envA Scenario.jobZero Scenario.plenty Scenario.atDispatchZero
     = Ok (Continue, Scenario.afterZero)
  /\ timePerToken Scenario.afterZero = S754_infinity false.
Proof. vm_compute. repeat split; reflexivity. Qed.

Lemma C10_zero_token_batch_poisons_timing_witness :
  tokensInCurrentBatch Scenario.atDispatchZero = 0
  /\ nonfinite (timePerToken Scenario.afterZero) = true
  /\ forall rl' tok n,
       admits rl' (timePerToken Scenario.afterZero)
         (tokensInCurrentBatch Scenario.afterZero) tok n = false.
Proof.
  assert (Hd : dispatch Scenario.envA Scenario.jobZero Scenario.plenty
                 Scenario.atDispatchZero = Ok (Continue, Scenario.afterZero)).
  { vm_compute. reflexivity. }
  assert (H0 : tokensInCurrentBatch Scenario.atDispatchZero = 0).
  { vm_compute. reflexivity. }
  destruct (C10_zero_token_batch_poisons_timing Scenario.envA Scenario.jobZero
              Scenario.plenty Scenario.atDispatchZero Continue Scenario.afterZero
              Scenario.jobZero PcLoop Scenario.afterZero H0 Hd
              (ws_refl Scenario.envA
                 (Scenario.jobZero, (PcLoop, Scenario.afterZero))))
    as (H1 & _ & _ & H4).
  exact (conj H0 (conj H1 (H4 eq_refl))).
Defined.

(** * The rest of the code *)

(** ** [makeRequest]: what one call writes *)

Lemma failAll_spec (err : error) (origIdx : list nat) (js : list nat) :
  forall es : gmap nat error,
    Forall (fun j => (j < length origIdx)%nat) js ->
    exists es',
      failAll err origIdx js es = Ok es'
      /\ forall i, es' !! i
                   = if decide (i ∈ omap (fun j => origIdx !! j) js)
                     then Some err else es !! i.
Proof.
  induction js as [|j js IH]; intros es Hjs.
  - exists es. split; [reflexivity|]. intros i. cbn [omap list_omap].
    destruct (decide (i ∈ [])) as [Hin|_]; [|done]. by apply not_elem_of_nil in Hin.
  - apply Forall_cons in Hjs. destruct Hjs as [Hj Hjs].
    destruct (lookup_lt_is_Some_2 origIdx j Hj) as [i0 Hi0].
    destruct (IH (<[i0:=err]> es) Hjs) as (es' & Hes' & Hlook).
    exists es'. split.
    + cbn [failAll]. unfold index. rewrite Hi0. exact Hes'.
    + intros i. rewrite Hlook.
      destruct (decide (i ∈ omap (fun j0 => origIdx !! j0) js)) as [Hin|Hn].
      * rewrite decide_True; [done|].
        apply list_elem_of_omap in Hin. destruct Hin as (j0 & Hin & Hl).
        apply list_elem_of_omap. exists j0. split; [by right|done].
      * destruct (decide (i = i0)) as [->|Hne].
        -- rewrite lookup_insert_eq. rewrite decide_True; [done|].
           apply list_elem_of_omap. exists j. split; [by left|done].
        -- rewrite lookup_insert_ne by done.
           rewrite decide_False; [done|]. intros Hin.
           apply list_elem_of_omap in Hin. destruct Hin as (j0 & Hin & Hl).
           apply elem_of_cons in Hin. destruct Hin as [->|Hin].
           ++ congruence.
           ++ apply Hn. apply list_elem_of_omap. eauto.
Qed.

(** A call-level failure: every text of the call gets the call's error, no
    vector is written, and the rest of the error map stays. *)
Theorem makeRequest_call_failure (env : Env) (job : batchJob.t) (ph : Phase)
    (txts : list string) (origIdx : list nat) (s : State) (e : error) :
  resp_err (Vectorize env (calls s) (batchJob.cfg job) txts) = Some e ->
  (length txts <= length origIdx)%nat ->
  exists s',
    makeRequest env job ph txts origIdx s
    = Ok (resp_rateLimit (Vectorize env (calls s) (batchJob.cfg job) txts),
          Some e, s')
    /\ vecs s' = vecs s
    /\ calls s' = S (calls s)
    /\ trace s' = trace s ++ [EvRequest ph txts origIdx]
    /\ forall i, errs s' !! i
                 = if decide (i ∈ take (length txts) origIdx)
                   then Some e else errs s !! i.
Proof.
  intros Herr Hlen. unfold makeRequest. rewrite Herr.
  destruct (failAll_spec e origIdx (seq 0 (length txts)) (errs s))
    as (es' & Hes' & Hlook).
  { apply Forall_forall. intros j Hj. apply elem_of_seq in Hj. lia. }
  cbn [errs emit called]. rewrite Hes'. cbn [mbind Res_bind].
  eexists. split; [reflexivity|]. cbn.
  repeat split. intros i. rewrite Hlook.
  destruct (decide (i ∈ take (length txts) origIdx)) as [Hin|Hnin].
  - rewrite decide_True; [done|].
    apply elem_of_take in Hin. destruct Hin as (j & Hj & Hlt).
    apply list_elem_of_omap. exists j. split; [|done]. apply elem_of_seq. lia.
  - rewrite decide_False; [done|]. intros Hin. apply Hnin.
    apply list_elem_of_omap in Hin. destruct Hin as (j & Hj & Hl).
    apply elem_of_seq in Hj. apply elem_of_take. exists j. split; [done|lia].
Qed.

Lemma makeRequest_call_failure_witness :
  exists s',
    makeRequest Scenario.envDown (Scenario.job [10; 10]) Dispatch
      ["t"; "t"]%string [0; 1]%nat Sample.gathering
    = Ok (None, Some "connection refused"%string, s')
    /\ vecs s' = vecs Sample.gathering
    /\ errs s' !! 1%nat = Some "connection refused"%string.
Proof.
  destruct (makeRequest_call_failure Scenario.envDown (Scenario.job [10; 10])
              Dispatch ["t"; "t"]%string [0; 1]%nat Sample.gathering
              "connection refused"%string eq_refl (le_n 2))
    as (s' & H1 & H2 & _ & _ & H5).
  exists s'. split; [exact H1|]. split; [exact H2|]. exact (H5 1%nat).
Defined.

Lemma store_Ok {A} (l : list A) (i : nat) (v : A) (l' : list A) :
  store l i v = Ok l' -> (i < length l)%nat /\ l' = <[i:=v]> l.
Proof.
  unfold store. destruct (i <? length l)%nat eqn:E; [|discriminate].
  intros [= <-]. apply Nat.ltb_lt in E. done.
Qed.

Lemma index_Some {A} (l : list A) (i : nat) (a : A) :
  l !! i = Some a -> index l i = Ok a.
Proof. unfold index. by intros ->. Qed.

Lemma writeResults_spec (r : VectorizationResult) (origIdx : list nat)
    (js : list nat) :
  forall (es : gmap nat error) (vs : list (option embedding)),
    Forall (fun j => (j < length (Errors r))%nat /\ (j < length (Vector r))%nat
                     /\ exists i, origIdx !! j = Some i /\ (i < length vs)%nat) js ->
    NoDup (omap (fun j => origIdx !! j) js) ->
    exists es' vs',
      writeResults (Some r) origIdx js es vs = Ok (es', vs')
      /\ length vs' = length vs
      /\ (forall j i, j ∈ js -> origIdx !! j = Some i ->
            match Errors r !! j with
            | Some (Some e) => es' !! i = Some e /\ vs' !! i = vs !! i
            | _ => es' !! i = es !! i /\ vs' !! i = Vector r !! j
            end)
      /\ (forall i, i ∉ omap (fun j => origIdx !! j) js ->
            es' !! i = es !! i /\ vs' !! i = vs !! i).
Proof.
  induction js as [|j js IH]; intros es vs Hjs Hnd.
  - exists es, vs. split; [reflexivity|]. split; [done|]. split; [|done].
    intros j i Hj. by apply not_elem_of_nil in Hj.
  - apply Forall_cons in Hjs.
    destruct Hjs as [(HjE & HjV & i0 & Hi0 & Hi0v) Hjs].
    cbn [omap list_omap] in Hnd. rewrite Hi0 in Hnd.
    apply NoDup_cons in Hnd. destruct Hnd as [Hfresh Hnd].
    destruct (lookup_lt_is_Some_2 _ _ HjE) as [e He].
    destruct (lookup_lt_is_Some_2 _ _ HjV) as [v Hv].
    cbn [writeResults deref mbind Res_bind].
    rewrite (index_Some _ _ _ He), (index_Some _ _ _ Hi0). cbn [mbind Res_bind].
    destruct e as [e|].
    + (* the provider reports this text as failed *)
      destruct (IH (<[i0:=e]> es) vs Hjs Hnd) as (es' & vs' & Hw & Hlen & Hin & Hout).
      exists es', vs'. split; [exact Hw|]. split; [exact Hlen|]. split.
      * intros j' i Hj' Hi. apply elem_of_cons in Hj'. destruct Hj' as [->|Hj'].
        -- rewrite He. assert (i = i0) by congruence. subst i.
           destruct (Hout i0 Hfresh) as [-> ->]. by rewrite lookup_insert_eq.
        -- specialize (Hin j' i Hj' Hi).
           assert (i <> i0).
           { intros ->. apply Hfresh. apply list_elem_of_omap. eauto. }
           destruct (Errors r !! j') as [[e'|]|]; [done| |];
             destruct Hin as [Hes Hvs]; (split; [|done]);
             by rewrite Hes, lookup_insert_ne.
      * intros i Hi. cbn [omap list_omap] in Hi. rewrite Hi0 in Hi.
        apply not_elem_of_cons in Hi. destruct Hi as [Hne Hi].
        destruct (Hout i Hi) as [-> ->]. by rewrite lookup_insert_ne.
    + (* the text has its vector *)
      rewrite (index_Some _ _ _ Hv). cbn [mbind Res_bind].
      unfold store.
      replace (i0 <? length vs)%nat with true by (symmetry; apply Nat.ltb_lt; done).
      cbn [mbind Res_bind].
      destruct (IH es (<[i0:=v]> vs)) as (es' & vs' & Hw & Hlen & Hin & Hout).
      { eapply Forall_impl; [exact Hjs|]. intros j' (? & ? & i & ? & ?).
        repeat split; try done. exists i. by rewrite length_insert. }
      { exact Hnd. }
      rewrite length_insert in Hlen.
      exists es', vs'. split; [exact Hw|]. split; [exact Hlen|]. split.
      * intros j' i Hj' Hi. apply elem_of_cons in Hj'. destruct Hj' as [->|Hj'].
        -- rewrite He. assert (i = i0) by congruence. subst i.
           destruct (Hout i0 Hfresh) as [-> ->].
           split; [done|]. rewrite Hv. by apply list_lookup_insert_eq.
        -- specialize (Hin j' i Hj' Hi).
           assert (i <> i0).
           { intros ->. apply Hfresh. apply list_elem_of_omap. eauto. }
           destruct (Errors r !! j') as [[e'|]|]; [| |];
             destruct Hin as [Hes Hvs]; (split; [done|]); try done;
             by rewrite Hvs, list_lookup_insert_ne.
      * intros i Hi. cbn [omap list_omap] in Hi. rewrite Hi0 in Hi.
        apply not_elem_of_cons in Hi. destruct Hi as [Hne Hi].
        destruct (Hout i Hi) as [-> ->]. split; [done|].
        by rewrite list_lookup_insert_ne.
Qed.

Lemma omap_lookup_seq_from (l : list nat) (n : nat) :
  forall a, (a + n <= length l)%nat ->
            omap (fun j => l !! j) (seq a n) = take n (drop a l).
Proof.
  induction n as [|n IH]; intros a Ha; [reflexivity|].
  destruct (lookup_lt_is_Some_2 l a ltac:(lia)) as [x Hx].
  cbn [seq omap list_omap]. rewrite Hx, (drop_S _ _ _ Hx). cbn [take].
  f_equal. apply IH. lia.
Qed.

Lemma omap_lookup_seq (l : list nat) (n : nat) :
  (n <= length l)%nat -> omap (fun j => l !! j) (seq 0 n) = take n l.
Proof. intros Hn. by rewrite omap_lookup_seq_from. Qed.

(** A successful call: each text gets its own error or its own vector at
    its original index, and nothing else is written. *)
Theorem makeRequest_item_results (env : Env) (job : batchJob.t) (ph : Phase)
    (txts : list string) (origIdx : list nat) (s : State)
    (r : VectorizationResult) :
  resp_err (Vectorize env (calls s) (batchJob.cfg job) txts) = None ->
  resp_res (Vectorize env (calls s) (batchJob.cfg job) txts) = Some r ->
  (length txts <= length (Errors r))%nat ->
  (length txts <= length (Vector r))%nat ->
  (length txts <= length origIdx)%nat ->
  NoDup (take (length txts) origIdx) ->
  Forall (fun i => (i < length (vecs s))%nat) (take (length txts) origIdx) ->
  exists s',
    makeRequest env job ph txts origIdx s
    = Ok (resp_rateLimit (Vectorize env (calls s) (batchJob.cfg job) txts),
          None, s')
    /\ length (vecs s') = length (vecs s)
    /\ calls s' = S (calls s)
    /\ trace s' = trace s ++ [EvRequest ph txts origIdx]
    /\ (forall j i, (j < length txts)%nat -> origIdx !! j = Some i ->
          match Errors r !! j with
          | Some (Some e) => errs s' !! i = Some e /\ vecs s' !! i = vecs s !! i
          | _ => errs s' !! i = errs s !! i /\ vecs s' !! i = Vector r !! j
          end)
    /\ (forall i, i ∉ take (length txts) origIdx ->
          errs s' !! i = errs s !! i /\ vecs s' !! i = vecs s !! i).
Proof.
  intros Herr Hres HlenE HlenV Hlen Hnd Hrange. unfold makeRequest.
  rewrite Herr, Hres. cbn [errs vecs emit called].
  destruct (writeResults_spec r origIdx (seq 0 (length txts)) (errs s) (vecs s))
    as (es' & vs' & Hw & Hl & Hin & Hout).
  { apply Forall_forall. intros j Hj. apply elem_of_seq in Hj.
    split; [lia|]. split; [lia|].
    destruct (lookup_lt_is_Some_2 origIdx j ltac:(lia)) as [i Hi].
    exists i. split; [done|]. rewrite Forall_forall in Hrange. apply Hrange.
    apply elem_of_take. exists j. split; [done|lia]. }
  { by rewrite omap_lookup_seq. }
  rewrite Hw. cbn [mbind Res_bind].
  eexists. split; [reflexivity|]. cbn.
  split; [exact Hl|]. split; [done|]. split; [done|]. split.
  - intros j i Hj Hi. apply Hin; [|done]. apply elem_of_seq. lia.
  - intros i Hi. apply Hout. by rewrite omap_lookup_seq.
Qed.

Lemma makeRequest_item_results_witness :
  exists s',
    makeRequest Scenario.envA (Scenario.job [10; 10]) Dispatch
      ["t"; "t"]%string [0; 1]%nat Sample.gathering
    = Ok (Some Scenario.plenty, None, s')
    /\ length (vecs s') = length (vecs Sample.gathering)
    /\ calls s' = S (calls Sample.gathering).
Proof.
  assert (Hnd : NoDup (take (length ["t"; "t"]%string) [0; 1]%nat)).
  { apply NoDup_cons. split; [|apply NoDup_singleton].
    intros H. apply list_elem_of_singleton in H. discriminate H. }
  assert (Hin : Forall (fun i => (i < length (vecs Sample.gathering))%nat)
                  (take (length ["t"; "t"]%string) [0; 1]%nat)).
  { repeat constructor. }
  destruct (makeRequest_item_results Scenario.envA (Scenario.job [10; 10])
              Dispatch ["t"; "t"]%string [0; 1]%nat Sample.gathering
              (mkResult [Some Scenario.vec; Some Scenario.vec] [None; None])
              eq_refl eq_refl (le_n 2) (le_n 2) (le_n 2) Hnd Hin)
    as (s' & H1 & H2 & H3 & _).
  exists s'. exact (conj H1 (conj H2 H3)).
Defined.

Lemma writeResults_short (r : VectorizationResult) (origIdx : list nat)
    (js : list nat) :
  forall (es : gmap nat error) (vs : list (option embedding)),
    (exists j, j ∈ js /\ Errors r !! j = None) ->
    writeResults (Some r) origIdx js es vs = Panicked "index out of range".
Proof.
  induction js as [|j js IH]; intros es vs (j0 & Hj0 & Hbad).
  - by apply not_elem_of_nil in Hj0.
  - cbn [writeResults deref mbind Res_bind]. unfold index.
    destruct (Errors r !! j) as [e|] eqn:He; [|reflexivity].
    assert (Htail : exists j1, j1 ∈ js /\ Errors r !! j1 = None).
    { apply elem_of_cons in Hj0. destruct Hj0 as [->|Hj0]; [congruence|eauto]. }
    cbn [mbind Res_bind].
    destruct (origIdx !! j) as [i|]; [|by destruct e].
    destruct e as [e|]; cbn [mbind Res_bind]; [by apply IH|].
    destruct (Vector r !! j) as [v|]; [|reflexivity]. cbn [mbind Res_bind].
    unfold store. destruct (i <? length vs)%nat; [|reflexivity].
    cbn [mbind Res_bind]. by apply IH.
Qed.

(** A successful call whose result has fewer entries than texts were sent:
    the loop over the texts runs off the result and the worker panics. *)
Theorem makeRequest_short_result_panics (env : Env) (job : batchJob.t)
    (ph : Phase) (txts : list string) (origIdx : list nat) (s : State)
    (r : VectorizationResult) :
  resp_err (Vectorize env (calls s) (batchJob.cfg job) txts) = None ->
  resp_res (Vectorize env (calls s) (batchJob.cfg job) txts) = Some r ->
  (length (Errors r) < length txts)%nat ->
  makeRequest env job ph txts origIdx s = Panicked "index out of range".
Proof.
  intros Herr Hres Hshort. unfold makeRequest. rewrite Herr, Hres.
  rewrite writeResults_short; [reflexivity|].
  exists (length (Errors r)). split.
  - apply elem_of_seq. lia.
  - apply lookup_ge_None. lia.
Qed.

Lemma makeRequest_short_result_panics_witness :
  makeRequest Scenario.envNoChunk (Scenario.job [10]) Dispatch ["t"%string]
    [0%nat] Sample.gathering
  = Panicked "index out of range".
Proof.
  exact (makeRequest_short_result_panics Scenario.envNoChunk (Scenario.job [10])
           Dispatch ["t"%string] [0%nat] Sample.gathering (mkResult [] [])
           eq_refl eq_refl (le_n 1)).
Defined.

(** ** The bodies of the loops, case by case *)

Lemma failAll_frame (err : error) (origIdx : list nat) (js : list nat) :
  forall es es' : gmap nat error,
    failAll err origIdx js es = Ok es' ->
    forall i, i ∉ origIdx -> es' !! i = es !! i.
Proof.
  induction js as [|j js IH]; intros es es' H i Hi.
  - by injection H as <-.
  - cbn [failAll] in H. apply bind_Ok in H. destruct H as (i0 & Hi0 & H).
    apply index_Ok in Hi0. rewrite (IH _ _ H i Hi).
    apply lookup_insert_ne. intros ->. apply Hi.
    by apply list_elem_of_lookup_2 in Hi0.
Qed.

Lemma writeResults_frame (res : option VectorizationResult)
    (origIdx : list nat) (js : list nat) :
  forall (es : gmap nat error) (vs : list (option embedding)) es' vs',
    writeResults res origIdx js es vs = Ok (es', vs') ->
    length vs' = length vs
    /\ forall i, i ∉ origIdx -> es' !! i = es !! i /\ vs' !! i = vs !! i.
Proof.
  induction js as [|j js IH]; intros es vs es' vs' H.
  - by injection H as <- <-.
  - cbn [writeResults] in H.
    apply bind_Ok in H. destruct H as (r & _ & H).
    apply bind_Ok in H. destruct H as (e & _ & H).
    destruct e as [e|].
    + apply bind_Ok in H. destruct H as (i0 & Hi0 & H). apply index_Ok in Hi0.
      destruct (IH _ _ _ _ H) as [Hl Hf]. split; [exact Hl|].
      intros i Hi. destruct (Hf i Hi) as [-> ->]. split; [|done].
      apply lookup_insert_ne. intros ->. apply Hi.
      by apply list_elem_of_lookup_2 in Hi0.
    + apply bind_Ok in H. destruct H as (i0 & Hi0 & H). apply index_Ok in Hi0.
      apply bind_Ok in H. destruct H as (v & _ & H).
      apply bind_Ok in H. destruct H as (vs1 & Hst & H).
      apply store_Ok in Hst. destruct Hst as [_ ->].
      destruct (IH _ _ _ _ H) as [Hl Hf]. rewrite length_insert in Hl.
      split; [exact Hl|].
      intros i Hi. destruct (Hf i Hi) as [-> ->]. split; [done|].
      apply list_lookup_insert_ne. intros ->. apply Hi.
      by apply list_elem_of_lookup_2 in Hi0.
Qed.

(** What a request leaves alone: everything but the error map and the
    vectors at the indices it was made for. *)
Lemma makeRequest_frame env job ph txts idx s rl err s' :
  makeRequest env job ph txts idx s = Ok (rl, err, s') ->
  exists es vs,
    s' = set_vecs vs (set_errs es (emit (EvRequest ph txts idx) (called s)))
    /\ length vs = length (vecs s)
    /\ forall i, i ∉ idx -> es !! i = errs s !! i /\ vs !! i = vecs s !! i.
Proof.
  unfold makeRequest. intros H.
  destruct (resp_err _) as [e|].
  - apply bind_Ok in H. destruct H as (es & Hes & H). injection H as _ _ <-.
    exists es, (vecs s). split; [reflexivity|]. split; [done|].
    intros i Hi. split; [|done]. exact (failAll_frame _ _ _ _ _ Hes i Hi).
  - apply bind_Ok in H. destruct H as ([es vs] & Hw & H). injection H as _ _ <-.
    exists es, vs. split; [reflexivity|].
    exact (writeResults_frame _ _ _ _ _ _ _ Hw).
Qed.

Lemma bootstrapBody_cases env job s s' :
  bootstrapBody env job s = Ok s' ->
  (batchJob.skipObject job !! objCounter s = Some true
   /\ s' = set_objCounter (S (objCounter s)) s)
  \/ (batchJob.skipObject job !! objCounter s = Some false
      /\ exists rl err s1,
           makeRequest env job Bootstrap
             (take 1 (drop (objCounter s) (batchJob.texts job))) [objCounter s] s
           = Ok (rl, err, s1)
           /\ match err with
              | Some e =>
                  s' = set_errs (<[objCounter s := e]> (errs s1)) (set_rateLimit rl s1)
              | None =>
                  s' = set_objCounter (S (objCounter s))
                         (set_firstRequest false (set_rateLimit rl s1))
              end).
Proof.
  unfold bootstrapBody. intros H.
  apply bind_Ok in H. destruct H as (skip & Hskip & H). apply index_Ok in Hskip.
  destruct skip.
  - injection H as <-. by left.
  - apply bind_Ok in H. destruct H as ([[rl err] s1] & E & H).
    right. split; [done|]. exists rl, err, s1. split; [done|].
    destruct err; by injection H as <-.
Qed.

Lemma oversizeWait_cases env job rl s ctl s' :
  oversizeWait env job rl s = Ok (ctl, s') ->
  ctl = Continue
  /\ exists tok,
       batchJob.tokens job !! objCounter s = Some tok
       /\ ((wrap64 (since env s (batchJob.startTime job) + sleepTime rl tok)
            < maxBatchTime env
            /\ s' = set_rateLimit (Some (creditTokens rl tok))
                      (emit (EvSleep (sleepTime rl tok)) (tick s)))
           \/ (maxBatchTime env
               <= wrap64 (since env s (batchJob.startTime job) + sleepTime rl tok)
               /\ s' = set_objCounter (S (objCounter s))
                         (set_errs (<[objCounter s := errTooLongNoWait]> (errs s))
                            (tick s)))).
Proof.
  unfold oversizeWait. intros H.
  apply bind_Ok in H. destruct H as (tok & Htok & H). apply index_Ok in Htok.
  destruct (_ <? _) eqn:E; injection H as <- <-; (split; [done|]);
    exists tok; (split; [done|]).
  - left. apply Z.ltb_lt in E. done.
  - right. apply Z.ltb_ge in E. done.
Qed.

Lemma dispatch_cases env job rl s ctl s' :
  dispatch env job rl s = Ok (ctl, s') ->
  exists rlNew err s1,
    makeRequest env job Dispatch (texts s) (origIndex s) (tick s)
    = Ok (rlNew, err, s1)
    /\ let rl' := default rl rlNew in
       let s2 := afterRequest env rl s rlNew s1 in
       (~ (RemainingRequests rl' = 0 /\ 0 < ResetRequests rl')
        /\ ctl = Continue /\ s' = set_batch [] [] 0 s2)
       \/ (RemainingRequests rl' = 0 /\ 0 < ResetRequests rl'
           /\ wrap64 (since env s2 (batchJob.startTime job) + resetWait rl')
              <= maxBatchTime env
           /\ ctl = Continue
           /\ s' = set_batch [] [] 0 (emit (EvSleep (resetWait rl')) (tick s2)))
       \/ (RemainingRequests rl' = 0 /\ 0 < ResetRequests rl'
           /\ maxBatchTime env
              < wrap64 (since env s2 (batchJob.startTime job) + resetWait rl')
           /\ ctl = Break
           /\ exists first es,
                origIndex s1 !! 0%nat = Some first
                /\ markFrom job errRateLimit first (errs s1) = Ok es
                /\ s' = set_errs es (tick s2)).
Proof.
  unfold dispatch. intros H.
  apply bind_Ok in H. destruct H as ([[rlNew err] s1] & E & H).
  exists rlNew, err, s1. split; [exact E|].
  cbn zeta. unfold afterRequest.
  assert (Hdef : match rlNew with Some r => r | None => rl end = default rl rlNew)
    by (by destruct rlNew).
  rewrite Hdef in H. clear Hdef.
  set (rl' := default rl rlNew) in *.
  cbn [ticks tick] in H.
  destruct (RemainingRequests rl' =? 0) eqn:E1; cbn [andb] in H.
  - apply Z.eqb_eq in E1. destruct (0 <? ResetRequests rl') eqn:E2.
    + apply Z.ltb_lt in E2. destruct (_ <? _) eqn:E3.
      * apply Z.ltb_lt in E3.
        apply bind_Ok in H. destruct H as (i0 & Hi0 & H).
        apply bind_Ok in H. destruct H as (es' & Hes' & H).
        injection H as <- <-. apply index_Ok in Hi0.
        right. right. repeat split; try done.
        exists i0, es'. repeat split; done.
      * apply Z.ltb_ge in E3. injection H as <- <-.
        right. left. repeat split; done.
    + apply Z.ltb_ge in E2. injection H as <- <-. left.
      split; [lia|]. done.
  - apply Z.eqb_neq in E1. injection H as <- <-. left.
    split; [tauto|]. done.
Qed.

Lemma loopBody_cases env job s ctl s' :
  loopBody env job s = Ok (ctl, s') ->
  (ctxErr env (polls s) = true /\ ctl = Break
   /\ exists es, markFrom job errCancelled (objCounter s) (errs s) = Ok es
                 /\ s' = set_errs es (poll s))
  \/ (ctxErr env (polls s) = false
      /\ batchJob.skipObject job !! objCounter s = Some true
      /\ ctl = Continue /\ s' = set_objCounter (S (objCounter s)) (poll s))
  \/ (ctxErr env (polls s) = false
      /\ batchJob.skipObject job !! objCounter s = Some false
      /\ exists tok rl,
           batchJob.tokens job !! objCounter s = Some tok
           /\ rateLimit s = Some rl
           /\ ((LimitTokens rl < tok /\ ctl = Continue
                /\ s' = set_objCounter (S (objCounter s))
                          (set_errs (<[objCounter s := errTooLong]> (errs s))
                             (poll s)))
               \/ (tok <= LimitTokens rl
                   /\ exists text,
                        batchJob.texts job !! objCounter s = Some text
                        /\ let fits := admits rl (timePerToken s)
                                         (tokensInCurrentBatch s) tok
                                         (length (texts s)) in
                           (fits = true
                            /\ (S (objCounter s) < length (batchJob.texts job))%nat
                            /\ ctl = Continue /\ s' = admitState s tok rl text)
                           \/ (fits = true
                               /\ dispatch env job rl (admitState s tok rl text)
                                  = Ok (ctl, s'))
                           \/ (fits = false /\ texts s = [] /\ 0 < ResetTokens rl
                               /\ oversizeWait env job rl (poll s) = Ok (ctl, s'))
                           \/ (fits = false
                               /\ dispatch env job rl (poll s) = Ok (ctl, s'))))).
Proof.
  unfold loopBody. intros H.
  destruct (ctxErr env (polls s)) eqn:Hctx.
  { apply bind_Ok in H. destruct H as (es & Hes & H). injection H as <- <-.
    left. repeat split; try done. by exists es. }
  right.
  apply bind_Ok in H. destruct H as (skip & Hskip & H). apply index_Ok in Hskip.
  cbn [objCounter poll] in Hskip.
  destruct skip.
  { injection H as <- <-. left. done. }
  right. split; [done|]. split; [done|].
  apply bind_Ok in H. destruct H as (tok & Etok & H).
  apply bind_Ok in H. destruct H as (rl & Erl & H).
  apply index_Ok in Etok. apply deref_Ok in Erl. cbn in Etok, Erl.
  exists tok, rl. split; [done|]. split; [done|].
  destruct (LimitTokens rl <? tok) eqn:Hlong.
  { apply Z.ltb_lt in Hlong. injection H as <- <-. left. done. }
  apply Z.ltb_ge in Hlong. right. split; [done|].
  apply bind_Ok in H. destruct H as (text & Etext & H). apply index_Ok in Etext.
  cbn in Etext. exists text. split; [done|].
  cbn [timePerToken tokensInCurrentBatch texts origIndex objCounter poll] in H.
  cbn zeta.
  destruct (admits _ _ _ _ _) eqn:Hadm.
  - fold (admitState s tok rl text) in H. cbn [andb] in H.
    destruct (_ <? _)%nat eqn:Hmore.
    + apply Nat.ltb_lt in Hmore. injection H as <- <-. left.
      cbn in Hmore. done.
    + unfold admitState at 1 in H. cbn [texts emit set_objCounter set_batch] in H.
      rewrite length_app in H. cbn [length] in H.
      replace (length (texts s) + 1 =? 0)%nat with false in H
        by (symmetry; apply Nat.eqb_neq; lia).
      cbn [andb] in H. right. left. done.
  - cbn [andb] in H. cbn [texts poll] in H.
    destruct (length (texts s) =? 0)%nat eqn:Hlen; cbn [andb] in H.
    + destruct (0 <? ResetTokens rl) eqn:Hreset.
      * apply Z.ltb_lt in Hreset. apply Nat.eqb_eq in Hlen.
        right. right. left. repeat split; try done.
        by destruct (texts s).
      * right. right. right. done.
    + right. right. right. done.
Qed.

Lemma drain_cases env job s s' :
  drain env job s = Ok s' ->
  ((texts s = [] \/ objCounter s <> length (batchJob.texts job))
   /\ s' = emit EvDone s)
  \/ (texts s <> [] /\ objCounter s = length (batchJob.texts job)
      /\ exists rlNew err s1,
           makeRequest env job Drain (texts s) (origIndex s) s = Ok (rlNew, err, s1)
           /\ s' = emit EvDone (match rlNew with
                                | Some r => set_rateLimit (Some r) s1
                                | None => s1
                                end)).
Proof.
  unfold drain. intros H.
  apply bind_Ok in H. destruct H as (s1 & E & H). injection H as <-.
  destruct (0 <? length (texts s))%nat eqn:E1; cbn [andb] in E.
  - destruct (objCounter s =? length (batchJob.texts job))%nat eqn:E2.
    + apply bind_Ok in E. destruct E as ([[rlNew err] s2] & E & H).
      injection H as <-. right. apply Nat.eqb_eq in E2. apply Nat.ltb_lt in E1.
      split; [by destruct (texts s); [simpl in E1; lia|]|]. split; [done|].
      by exists rlNew, err, s2.
    + injection E as <-. left. apply Nat.eqb_neq in E2. split; [by right|done].
  - injection E as <-. left. apply Nat.ltb_ge in E1. split; [|done].
    left. destruct (texts s); [done|simpl in E1; lia].
Qed.

(** ** An invariant of every job *)

Lemma wellFormed_nil job bound : wellFormed job bound [] [].
Proof.
  repeat split; try constructor. unfold MaxObjectsPerBatch. simpl. lia.
Qed.

Lemma wellFormed_length job b txts idx :
  wellFormed job b txts idx -> length txts = length idx.
Proof. intros (H & _). exact (Forall2_length _ _ _ H). Qed.

Lemma wellFormed_mono job b b' txts idx :
  (b <= b')%nat -> wellFormed job b txts idx -> wellFormed job b' txts idx.
Proof.
  intros Hb (H1 & H2 & H3 & H4). repeat split; try done.
  eapply Forall_impl; [exact H3|]. intros i [? ?]. split; [lia|done].
Qed.

Lemma wellFormed_live job b txts idx :
  (b <= length (batchJob.texts job))%nat ->
  wellFormed job b txts idx -> Forall (live job) idx.
Proof.
  intros Hb (_ & _ & H3 & _). eapply Forall_impl; [exact H3|].
  intros i [? ?]. split; [lia|done].
Qed.

Lemma wellFormed_snoc job txts idx i text :
  wellFormed job i txts idx ->
  batchJob.texts job !! i = Some text ->
  batchJob.skipObject job !! i = Some false ->
  (length txts < MaxObjectsPerBatch)%nat ->
  wellFormed job (S i) (txts ++ [text]) (idx ++ [i]).
Proof.
  intros (H1 & H2 & H3 & H4) Ht Hs Hl. repeat split.
  - apply Forall2_app; [done|]. by constructor.
  - apply StronglySorted_app_2; [| done | repeat constructor].
    intros x1 x2 Hx1 Hx2. apply list_elem_of_singleton in Hx2 as ->.
    rewrite Forall_forall in H3. by destruct (H3 _ Hx1).
  - apply Forall_app. split.
    + eapply Forall_impl; [exact H3|]. intros j [? ?]. split; [lia|done].
    + constructor; [|constructor]. split; [lia|done].
  - rewrite length_app. simpl. lia.
Qed.

Lemma wellFormed_probe job i :
  live job i ->
  wellFormed job (S i) (take 1 (drop i (batchJob.texts job))) [i].
Proof.
  intros [Hi Hs].
  destruct (lookup_lt_is_Some_2 (batchJob.texts job) i Hi) as [t Ht].
  rewrite (drop_S _ _ _ Ht). cbn [take]. repeat split.
  - by repeat constructor.
  - repeat constructor.
  - constructor; [split; [lia|done]|constructor].
  - unfold MaxObjectsPerBatch. simpl. lia.
Qed.

Lemma traceShape_snoc job t0 pc tr e :
  pc <> PcDone ->
  traceShape job t0 pc tr -> requestShape job e -> e <> EvDone ->
  forall pc', pc' <> PcDone -> traceShape job t0 pc' (tr ++ [e]).
Proof.
  intros Hpc (t & Hf & Hd & ->) He Hne pc' Hpc'. exists (t ++ [e]). repeat split.
  - apply Forall_app. split; [done|]. by repeat constructor.
  - intros Hin. apply elem_of_app in Hin as [Hin|Hin]; [done|].
    apply list_elem_of_singleton in Hin. done.
  - destruct pc, pc'; try done; by rewrite ?app_nil_r, <- ?app_assoc.
Qed.

Lemma traceShape_pc job t0 pc pc' tr :
  pc <> PcDone -> pc' <> PcDone ->
  traceShape job t0 pc tr -> traceShape job t0 pc' tr.
Proof.
  intros Hpc Hpc' (t & Hf & Hd & ->). exists t. repeat split; try done.
  by destruct pc, pc'.
Qed.

Lemma traceShape_done job t0 pc tr :
  pc <> PcDone ->
  traceShape job t0 pc tr -> traceShape job t0 PcDone (tr ++ [EvDone]).
Proof.
  intros Hpc (t & Hf & Hd & ->). exists t. repeat split; try done.
  destruct pc; try done; by rewrite ?app_nil_r, <- ?app_assoc.
Qed.

(** A request for live indices keeps the buffers where nothing is to be
    answered, and touches nothing but the buffers, the call counter and
    the trace. *)
Lemma makeRequest_kept env job es0 vs0 ph txts idx s rl err s' :
  buffersKept job es0 vs0 (errs s) (vecs s) ->
  Forall (live job) idx ->
  makeRequest env job ph txts idx s = Ok (rl, err, s') ->
  exists es vs,
    s' = set_vecs vs (set_errs es (emit (EvRequest ph txts idx) (called s)))
    /\ buffersKept job es0 vs0 es vs.
Proof.
  intros [Hl Hk] Hlive H.
  destruct (makeRequest_frame _ _ _ _ _ _ _ _ _ H) as (es & vs & -> & Hl' & Hf).
  exists es, vs. split; [done|]. split; [congruence|].
  intros i Hi. assert (Hni : i ∉ idx).
  { intros Hin. rewrite Forall_forall in Hlive. exact (Hi (Hlive _ Hin)). }
  destruct (Hf i Hni) as [-> ->]. exact (Hk i Hi).
Qed.

Lemma buffersKept_insert job es0 vs0 es vs i e :
  live job i -> buffersKept job es0 vs0 es vs ->
  buffersKept job es0 vs0 (<[i:=e]> es) vs.
Proof.
  intros Hi [Hl Hk]. split; [done|]. intros j Hj.
  destruct (Hk j Hj) as [<- <-]. split; [|done].
  apply lookup_insert_ne. intros ->. done.
Qed.

Lemma buffersKept_markFrom job es0 vs0 es vs e from es' :
  markFrom job e from es = Ok es' ->
  buffersKept job es0 vs0 es vs -> buffersKept job es0 vs0 es' vs.
Proof.
  intros Hm [Hl Hk]. split; [done|]. intros j Hj.
  destruct (Hk j Hj) as [<- <-]. split; [|done].
  rewrite (markFrom_lookup _ _ _ _ _ j Hm).
  rewrite decide_False; [done|]. intros [Hr Hs]. apply Hj. split; [lia|done].
Qed.

Ltac inv_simpl :=
  cbn [fst snd objCounter texts origIndex errs vecs trace
       set_rateLimit set_batch set_firstRequest set_timing set_objCounter
       set_errs set_vecs tick poll called emit] in *.

Lemma jobInv_intro job es0 vs0 t0 pc s :
  (objCounter s <= length (batchJob.texts job))%nat ->
  wellFormed job (objCounter s) (texts s) (origIndex s) ->
  buffersKept job es0 vs0 (errs s) (vecs s) ->
  traceShape job t0 pc (trace s) ->
  jobInv job es0 vs0 t0 (pc, s).
Proof. intros H1 H2 H3 H4. exact (conj H1 (conj H2 (conj H3 H4))). Qed.

Ltac inv_intro := apply jobInv_intro; unfold admitState; inv_simpl.

Lemma dispatch_jobInv env job es0 vs0 t0 rl s ctl s' :
  jobInv job es0 vs0 t0 (PcLoop, s) ->
  dispatch env job rl s = Ok (ctl, s') ->
  jobInv job es0 vs0 t0 (pcAfter ctl, s').
Proof.
  intros (Hoc & Hwf & Hb & Ht) H. inv_simpl.
  apply dispatch_cases in H. destruct H as (rlNew & err & s1 & Hreq & H).
  assert (Hlive := wellFormed_live _ _ _ _ Hoc Hwf).
  eapply (makeRequest_kept _ _ es0 vs0) in Hreq; [|exact Hb|exact Hlive].
  destruct Hreq as (es & vs & -> & Hb').
  unfold afterRequest in H. cbn zeta in H.
  assert (Ht' : forall pc', pc' <> PcDone ->
            traceShape job t0 pc'
              (trace s ++ [EvRequest Dispatch (texts s) (origIndex s)])).
  { intros pc' Hpc'. eapply traceShape_snoc; [|exact Ht| | |exact Hpc']; try done.
    cbn. eapply wellFormed_mono; [exact Hoc|exact Hwf]. }
  destruct H as [(_ & -> & ->)|[(_ & _ & _ & -> & ->)|(_ & _ & _ & -> & first & es' & _ & Hm & ->)]];
    cbn [pcAfter]; inv_intro.
  - done.
  - apply wellFormed_nil.
  - done.
  - by apply Ht'.
  - done.
  - apply wellFormed_nil.
  - done.
  - eapply traceShape_snoc; [|apply (Ht' PcLoop)| | |]; done.
  - done.
  - done.
  - exact (buffersKept_markFrom _ _ _ _ _ _ _ _ Hm Hb').
  - by apply Ht'.
Qed.

Lemma loopBody_jobInv env job es0 vs0 t0 s ctl s' :
  (objCounter s < length (batchJob.texts job))%nat ->
  jobInv job es0 vs0 t0 (PcLoop, s) ->
  loopBody env job s = Ok (ctl, s') ->
  jobInv job es0 vs0 t0 (pcAfter ctl, s').
Proof.
  intros Hlt Hinv H. pose proof Hinv as (Hoc & Hwf & Hb & Ht). inv_simpl.
  assert (Hwf' : wellFormed job (S (objCounter s)) (texts s) (origIndex s)).
  { eapply wellFormed_mono; [|exact Hwf]. lia. }
  apply loopBody_cases in H.
  destruct H as [(_ & -> & es & Hm & ->)|[(_ & Hs & -> & ->)|(_ & Hs & tok & rl & Htok & Hrl & H)]].
  - cbn [pcAfter]; inv_intro; try done.
    exact (buffersKept_markFrom _ _ _ _ _ _ _ _ Hm Hb).
  - cbn [pcAfter]; inv_intro; try done.
  - assert (Hlive : live job (objCounter s)) by (split; done).
    destruct H as [(_ & -> & ->)|(_ & text & Htext & H)].
    { cbn [pcAfter]; inv_intro; try done.
      exact (buffersKept_insert _ _ _ _ _ _ errTooLong Hlive Hb). }
    cbn zeta in H.
    assert (HA : admits rl (timePerToken s) (tokensInCurrentBatch s) tok
                   (length (texts s)) = true ->
                 jobInv job es0 vs0 t0 (PcLoop, admitState s tok rl text)).
    { intros Hadm. unfold admits in Hadm.
      apply andb_true_iff in Hadm as [_ Hn]. apply Nat.ltb_lt in Hn.
      inv_intro; try done.
      - by apply wellFormed_snoc.
      - eapply traceShape_snoc; [|exact Ht| | |]; done. }
    destruct H as [(Hadm & _ & -> & ->)|[(Hadm & Hd)|[(_ & _ & _ & Hw)|(_ & Hd)]]].
    + exact (HA Hadm).
    + exact (dispatch_jobInv _ _ _ _ _ _ _ _ _ (HA Hadm) Hd).
    + apply oversizeWait_cases in Hw. destruct Hw as (-> & tok' & _ & Hw).
      inv_simpl.
      destruct Hw as [(_ & ->)|(_ & ->)]; cbn [pcAfter]; inv_intro; try done.
      * eapply traceShape_snoc; [|exact Ht| | |]; done.
      * exact (buffersKept_insert _ _ _ _ _ _ errTooLongNoWait Hlive Hb).
    + apply (dispatch_jobInv env job es0 vs0 t0 rl (poll s)); [|exact Hd].
      inv_intro; done.
Qed.

Lemma bootstrapBody_jobInv env job es0 vs0 t0 s s' :
  (objCounter s < length (batchJob.texts job))%nat ->
  jobInv job es0 vs0 t0 (PcBootstrap, s) ->
  bootstrapBody env job s = Ok s' ->
  jobInv job es0 vs0 t0 (PcBootstrap, s').
Proof.
  intros Hlt (Hoc & Hwf & Hb & Ht) H. inv_simpl.
  assert (Hwf' : wellFormed job (S (objCounter s)) (texts s) (origIndex s)).
  { eapply wellFormed_mono; [|exact Hwf]. lia. }
  apply bootstrapBody_cases in H.
  destruct H as [(Hs & ->)|(Hs & rl & err & s1 & Hreq & H)].
  - inv_intro; done.
  - assert (Hlive : live job (objCounter s)) by (split; done).
    eapply (makeRequest_kept _ _ es0 vs0) in Hreq;
      [|exact Hb|by repeat constructor].
    destruct Hreq as (es & vs & -> & Hb').
    assert (Ht' : traceShape job t0 PcBootstrap
              (trace s ++ [EvRequest Bootstrap
                             (take 1 (drop (objCounter s) (batchJob.texts job)))
                             [objCounter s]])).
    { eapply traceShape_snoc; [|exact Ht| | |]; try done.
      cbn. eapply wellFormed_mono; [|by apply wellFormed_probe]. lia. }
    destruct err as [e|]; subst s'; inv_intro; try done.
    exact (buffersKept_insert _ _ _ _ _ _ e Hlive Hb').
Qed.

Lemma drain_jobInv env job es0 vs0 t0 s s' :
  jobInv job es0 vs0 t0 (PcDrain, s) ->
  drain env job s = Ok s' ->
  jobInv job es0 vs0 t0 (PcDone, s').
Proof.
  intros (Hoc & Hwf & Hb & Ht) H. inv_simpl.
  apply drain_cases in H.
  destruct H as [(_ & ->)|(_ & _ & rlNew & err & s1 & Hreq & ->)].
  - inv_intro; try done. eapply traceShape_done; [|exact Ht]. done.
  - assert (Hlive := wellFormed_live _ _ _ _ Hoc Hwf).
    eapply (makeRequest_kept _ _ es0 vs0) in Hreq; [|exact Hb|exact Hlive].
    destruct Hreq as (es & vs & -> & Hb').
    assert (Ht' : traceShape job t0 PcDone
              ((trace s ++ [EvRequest Drain (texts s) (origIndex s)]) ++ [EvDone])).
    { eapply (traceShape_done _ _ PcDrain); [done|].
      eapply traceShape_snoc; [|exact Ht| | |]; try done.
      cbn. eapply wellFormed_mono; [exact Hoc|exact Hwf]. }
    destruct rlNew; inv_intro; done.
Qed.

Lemma step_jobInv env job es0 vs0 t0 c :
  jobInv job es0 vs0 t0 c -> jobInv job es0 vs0 t0 (step env job c).
Proof.
  destruct c as [pc s]. intros Hinv. unfold step.
  pose proof Hinv as (Hoc & Hwf & Hb & Ht). inv_simpl.
  assert (Hpc : forall pc', pc <> PcDone -> pc' <> PcDone ->
                  jobInv job es0 vs0 t0 (pc', s)).
  { intros pc' H1 H2. inv_intro; try done.
    eapply traceShape_pc; [| |exact Ht]; done. }
  destruct pc; try done.
  - destruct (objCounter s <? length (batchJob.texts job))%nat eqn:Hlt;
      cbn [andb]; [|by apply Hpc].
    apply Nat.ltb_lt in Hlt. destruct (firstRequest s); [|by apply Hpc].
    destruct (bootstrapBody env job s) as [s'|msg] eqn:E; [|by apply Hpc].
    exact (bootstrapBody_jobInv _ _ _ _ _ _ _ Hlt Hinv E).
  - destruct (objCounter s <? length (batchJob.texts job))%nat eqn:Hlt;
      [|by apply Hpc].
    apply Nat.ltb_lt in Hlt.
    destruct (loopBody env job s) as [[ctl s']|msg] eqn:E; [|by apply Hpc].
    pose proof (loopBody_jobInv _ _ _ _ _ _ _ _ Hlt Hinv E) as H.
    by destruct ctl.
  - destruct (drain env job s) as [s'|msg] eqn:E; [|by apply Hpc].
    exact (drain_jobInv _ _ _ _ _ _ _ Hinv E).
Qed.

Lemma run_jobInv env job es0 vs0 t0 fuel :
  forall c, jobInv job es0 vs0 t0 c -> jobInv job es0 vs0 t0 (run env job fuel c).
Proof.
  induction fuel as [|n IH]; intros c H; [done|].
  cbn [run]. apply IH. by apply step_jobInv.
Qed.

Lemma takeJob_jobInv job es vs s :
  jobInv job es vs (trace s) (PcBootstrap, takeJob es vs s).
Proof.
  unfold takeJob. inv_intro; try done.
  - lia.
  - apply wellFormed_nil.
  - exists []. repeat split; [constructor|apply not_elem_of_nil|].
    by rewrite !app_nil_r.
Qed.

Lemma runJob_jobInv env job es vs fuel s :
  jobInv job es vs (trace s) (runJob env job es vs fuel s).
Proof. apply run_jobInv, takeJob_jobInv. Qed.

(** ** The token budget of a dispatched sub-batch *)

(** C7.  Whatever the collaborators do and however far the job has got,
    a request of the main loop or a trailing request either carries no
    text, and then no tokens, or carries texts that were admitted: the
    admission of its last index is on record, with the token total of the
    whole sub-batch and the remaining-token budget [R] known at that
    moment, and that total passed the test of line 192 as the code computes
    it, [float32(total) < 0.95*float32(R)].  Where [float32] holds the
    total and the budget exactly, below 2^24, this is [total < 95% of R] in
    exact arithmetic; beyond, only the rounded comparison is known.  The
    probing request is not concerned. *)
Theorem C7_dispatched_batch_within_budget (env : Env) (job : batchJob.t)
    (es : gmap nat error) (vs : list (option embedding)) (fuel : nat) (w : State)
    (ph : Phase) (txts : list string) (idx : list nat) :
  let t := drop (length (trace w)) (trace (snd (runJob env job es vs fuel w))) in
  In (EvRequest ph txts idx) t ->
  ph <> Bootstrap ->
  (idx = [] /\ txts = [] /\ sumTokens job idx = 0)
  \/ exists i R,
       last idx = Some i
       /\ In (EvAdmit i (wrap64 (sumTokens job idx)) R) t
       /\ withinBudget (wrap64 (sumTokens job idx)) R = true
       /\ (0 <= sumTokens job idx < 2 ^ 24 -> 0 <= R < 2 ^ 24 ->
           100 * sumTokens job idx < 95 * R).
Proof.
  intros t Hin Hph. subst t.
  destruct (decide (idx = [])) as [->|Hidx].
  - left. split; [done|]. split; [|done].
    pose proof (runJob_jobInv env job es vs fuel w) as (_ & _ & _ & t & Hf & _ & Ht).
    rewrite Ht, drop_app_length in Hin. apply list_elem_of_In in Hin.
    assert (Hin' : EvRequest ph txts [] ∈ t).
    { apply elem_of_app in Hin as [Hin|Hin]; [done|].
      destruct (fst _); try (by apply not_elem_of_nil in Hin).
      by apply list_elem_of_singleton in Hin. }
    rewrite Forall_forall in Hf. specialize (Hf _ Hin').
    apply wellFormed_length in Hf. by destruct txts.
  - right.
    assert (Hinv : budgetInv job (trace w) (snd (runJob env job es vs fuel w))).
    { unfold runJob. apply budgetInv_run. simpl.
      exists []. split; [by rewrite app_nil_r|]. split; [constructor|].
      split; simpl; [reflexivity|done]. }
    destruct Hinv as (t & Hts & Hall & _).
    rewrite Hts, drop_app_length in Hin |- *.
    rewrite Forall_forall in Hall.
    apply list_elem_of_In in Hin.
    destruct (Hall _ Hin Hph Hidx) as (i & R & Hlast & Hadm & Hbud).
    exists i, R. repeat split; try done.
    intros Hsum HR. apply withinBudget_exact; try done.
    rewrite wrap64_small in Hbud; [done|].
    change (2 ^ 24) with 16777216 in Hsum.
    change (2 ^ 63) with 9223372036854775808. lia.
Qed.

Lemma C7_dispatched_batch_within_budget_witness :
  let t := drop (length (trace initialWorker))
             (trace (snd (runJob Scenario.envA (Scenario.job [10; 10; 10])
                            ∅ (Scenario.fresh 3) 10 initialWorker))) in
  ([1%nat; 2%nat] = [] /\ ["t"%string; "t"%string] = []
   /\ sumTokens (Scenario.job [10; 10; 10]) [1%nat; 2%nat] = 0)
  \/ exists i R,
       last [1%nat; 2%nat] = Some i
       /\ In (EvAdmit i (wrap64 (sumTokens (Scenario.job [10; 10; 10]) [1%nat; 2%nat])) R) t
       /\ withinBudget (wrap64 (sumTokens (Scenario.job [10; 10; 10]) [1%nat; 2%nat])) R
          = true
       /\ (0 <= sumTokens (Scenario.job [10; 10; 10]) [1%nat; 2%nat] < 2 ^ 24 ->
           0 <= R < 2 ^ 24 ->
           100 * sumTokens (Scenario.job [10; 10; 10]) [1%nat; 2%nat] < 95 * R).
Proof.
  assert (Hin : In (EvRequest Dispatch ["t"%string; "t"%string] [1%nat; 2%nat])
                  (drop (length (trace initialWorker))
                     (trace (snd (runJob Scenario.envA (Scenario.job [10; 10; 10])
                                    ∅ (Scenario.fresh 3) 10 initialWorker))))).
  { vm_compute. right. right. right. left. reflexivity. }
  assert (Hph : Dispatch <> Bootstrap) by discriminate.
  exact (C7_dispatched_batch_within_budget Scenario.envA
           (Scenario.job [10; 10; 10]) ∅ (Scenario.fresh 3) 10 initialWorker
           Dispatch ["t"%string; "t"%string] [1%nat; 2%nat] Hin Hph).
Defined.

(** The claim as the specification words it, in exact arithmetic, fails
    beyond 2^24.  The probe reports 16777223 remaining tokens; the second
    text has 15938362 tokens, which is more than 95% of that budget
    (100 * 15938362 exceeds 95 * 16777223 by 15).  [float32] rounds the
    product up, the test of line 192 passes, the text is admitted with that
    budget on record and the main loop sends it. *)
Lemma C7_rounded_test_admits_over_budget :
  fst Sample.runRoomy = PcDone
  /\ In (EvAdmit 1 15938362 16777223) (trace (snd Sample.runRoomy))
  /\ In (EvRequest Dispatch ["t"%string] [1%nat]) (trace (snd Sample.runRoomy))
  /\ sumTokens Sample.jobRoomy [1%nat] = 15938362
  /\ withinBudget 15938362 16777223 = true
  /\ 95 * 16777223 < 100 * 15938362.
Proof.
  split; [vm_compute; reflexivity|].
  split; [vm_compute; tauto|].
  split; [vm_compute; tauto|].
  split; [vm_compute; reflexivity|].
  split; [vm_compute; reflexivity|].
  vm_compute. reflexivity.
Qed.

(** ** [ObjectBatch] and the run as a whole *)

Section Preparing.
Context {Object Encoding : Type} (col : Collaborators Object Encoding).

(** The loop of lines 307-315 in full: what it writes, what it leaves, and
    when it reports that everything was skipped. *)
Lemma prepare_spec (conf : VectorizationConfig) (tke : Encoding)
    (skipObject : list bool) (objs : list Object) :
  forall (i : nat) (b0 : bool) (txts0 : list string) (toks0 : list Z),
    (i + length objs <= length skipObject)%nat ->
    (i + length objs <= length txts0)%nat ->
    (i + length objs <= length toks0)%nat ->
    exists b txts toks,
      prepare col conf tke skipObject i objs (b0, txts0, toks0) = Ok (b, txts, toks)
      /\ length txts = length txts0 /\ length toks = length toks0
      /\ (b = true <->
          b0 = true
          /\ forall j, (j < length objs)%nat -> skipObject !! (i + j)%nat = Some true)
      /\ (forall k, (k < i \/ i + length objs <= k)%nat ->
            txts !! k = txts0 !! k /\ toks !! k = toks0 !! k)
      /\ (forall j o, objs !! j = Some o ->
            match skipObject !! (i + j)%nat with
            | Some false =>
                txts !! (i + j)%nat = Some (Texts col o conf)
                /\ toks !! (i + j)%nat
                   = Some (GetTokensCount col (Model conf) (Texts col o conf) tke)
            | _ =>
                txts !! (i + j)%nat = txts0 !! (i + j)%nat
                /\ toks !! (i + j)%nat = toks0 !! (i + j)%nat
            end).
Proof.
  induction objs as [|o rest IH]; intros i b0 txts0 toks0 Hs Ht Hk.
  - exists b0, txts0, toks0. split; [done|]. split; [done|]. split; [done|].
    split; [|done]. split; [|by intros [-> _]].
    intros ->. split; [done|]. intros j Hj. simpl in Hj. lia.
  - cbn [length] in Hs, Ht, Hk. cbn [prepare]. unfold index.
    destruct (lookup_lt_is_Some_2 skipObject i ltac:(lia)) as [b Hb].
    rewrite Hb. cbn [mbind Res_bind].
    destruct b.
    + destruct (IH (S i) b0 txts0 toks0 ltac:(lia) ltac:(lia) ltac:(lia))
        as (b' & txts & toks & E & Hl1 & Hl2 & Hall & Hout & Hin).
      exists b', txts, toks. split; [exact E|]. split; [done|]. split; [done|].
      split; [|split].
      * rewrite Hall. split; intros [Hb0 H]; (split; [done|]); intros j Hj.
        -- destruct j as [|j]; [by rewrite Nat.add_0_r|].
           replace (i + S j)%nat with (S i + j)%nat by lia. apply H.
           simpl in Hj. lia.
        -- replace (S i + j)%nat with (i + S j)%nat by lia. apply H. simpl. lia.
      * intros k Hk'. apply Hout. cbn [length] in Hk'. lia.
      * intros j o' Ho'. destruct j as [|j].
        -- rewrite Nat.add_0_r, Hb. apply Hout. lia.
        -- replace (i + S j)%nat with (S i + j)%nat by lia. by apply Hin.
    + destruct (IH (S i) false (<[i:=Texts col o conf]> txts0)
                  (<[i:=GetTokensCount col (Model conf) (Texts col o conf) tke]> toks0)
                  ltac:(lia)
                  ltac:(rewrite length_insert; lia)
                  ltac:(rewrite length_insert; lia))
        as (b' & txts & toks & E & Hl1 & Hl2 & Hall & Hout & Hin).
      rewrite length_insert in Hl1. rewrite length_insert in Hl2.
      exists b', txts, toks. split; [exact E|]. split; [done|]. split; [done|].
      split; [|split].
      * split.
        -- intros Hb'. apply Hall in Hb' as [? _]. done.
        -- intros [_ H]. specialize (H 0%nat ltac:(simpl; lia)).
           rewrite Nat.add_0_r in H. congruence.
      * intros k Hk'. cbn [length] in Hk'.
        destruct (Hout k ltac:(lia)) as [-> ->].
        rewrite !list_lookup_insert_ne by lia. done.
      * intros j o' Ho'. destruct j as [|j].
        -- rewrite Nat.add_0_r, Hb. injection Ho' as <-.
           destruct (Hout i ltac:(lia)) as [-> ->].
           rewrite !list_lookup_insert_eq by lia. done.
        -- replace (i + S j)%nat with (S i + j)%nat by lia.
           specialize (Hin j o' Ho').
           destruct (skipObject !! (S i + j)%nat) as [[|]|]; try done;
             destruct Hin as [-> ->];
             rewrite !list_lookup_insert_ne by lia; done.
Qed.

(** The loop stops with a panic at the first object that has no skip
    flag. *)
Lemma prepare_short (conf : VectorizationConfig) (tke : Encoding)
    (skipObject : list bool) (objs : list Object) :
  forall (i : nat) (acc : bool * list string * list Z),
    (i <= length skipObject < i + length objs)%nat ->
    prepare col conf tke skipObject i objs acc = Panicked "index out of range".
Proof.
  induction objs as [|o rest IH]; intros i acc H.
  - simpl in H. lia.
  - cbn [length] in H. cbn [prepare]. unfold index.
    destruct (decide (i = length skipObject)) as [->|Hne].
    + rewrite lookup_ge_None_2 by lia. reflexivity.
    + destruct (lookup_lt_is_Some_2 skipObject i ltac:(lia)) as [b Hb].
      rewrite Hb. cbn [mbind Res_bind].
      destruct b; [|destruct acc as [[? ?] ?]]; apply IH; lia.
Qed.

(** With a resolved tokenizer, a skip flag per object and at least one
    object to vectorize, [ObjectBatch] puts one job on the queue.  Its texts
    and token counts are aligned with the objects: at a non-skipped index
    the object's text and the token count of that text under the model as
    configured, at a skipped index the empty string and zero.  The job
    starts with no error and no vector. *)
Theorem ObjectBatch_enqueues_aligned_job (now : Z) (objects : list Object)
    (skipObject : list bool) (cfg : VectorizationConfig) (tke : Encoding)
    (i0 : nat) :
  EncodingForModel col (tokenizerModel (Model cfg)) = inl tke ->
  (length objects <= length skipObject)%nat ->
  (i0 < length objects)%nat ->
  skipObject !! i0 = Some false ->
  exists txts toks,
    ObjectBatch col now objects skipObject cfg
    = Ok (Enqueued (batchJob.mk txts toks cfg skipObject now)
            ∅ (replicate (length objects) None))
    /\ length txts = length objects /\ length toks = length objects
    /\ forall i o, objects !! i = Some o ->
         match skipObject !! i with
         | Some false =>
             txts !! i = Some (Texts col o cfg)
             /\ toks !! i = Some (GetTokensCount col (Model cfg) (Texts col o cfg) tke)
         | _ => txts !! i = Some EmptyString /\ toks !! i = Some 0
         end.
Proof.
  intros Htke Hlen Hi0 Hskip. unfold ObjectBatch. rewrite Htke.
  destruct (prepare_spec cfg tke skipObject objects 0 true
              (replicate (length objects) EmptyString)
              (replicate (length objects) 0)
              ltac:(simpl; lia)
              ltac:(rewrite length_replicate; simpl; lia)
              ltac:(rewrite length_replicate; simpl; lia))
    as (b & txts & toks & E & Hl1 & Hl2 & Hall & _ & Hin).
  rewrite length_replicate in Hl1. rewrite length_replicate in Hl2.
  rewrite E. cbn [mbind Res_bind].
  destruct b.
  { destruct Hall as [Hall _]. destruct (Hall eq_refl) as [_ H].
    specialize (H i0 Hi0). simpl in H. congruence. }
  exists txts, toks. split; [reflexivity|]. split; [done|]. split; [done|].
  intros i o Ho. specialize (Hin i o Ho). cbn [Nat.add] in Hin.
  apply lookup_lt_Some in Ho.
  destruct (skipObject !! i) as [[|]|]; try done;
    rewrite !lookup_replicate_2 in Hin by lia; done.
Qed.

(** When the tokenizer does not know the model, [ObjectBatch] fails every
    object with the tokenizer's error and returns no vectors, before any
    skip flag is read: the answer is the same for every skip list, also
    one that is too short. *)
Theorem ObjectBatch_unknown_model_fails_all (now : Z) (objects : list Object)
    (skipObject : list bool) (cfg : VectorizationConfig) (err : error) :
  EncodingForModel col (tokenizerModel (Model cfg)) = inr err ->
  exists es,
    ObjectBatch col now objects skipObject cfg = Ok (Returned None es)
    /\ forall i, es !! i = if decide (i < length objects)%nat then Some err else None.
Proof.
  intros Htke. unfold ObjectBatch. rewrite Htke.
  eexists. split; [reflexivity|]. intros i. apply fail_every_index.
Qed.

(** A skip list shorter than the object list makes [ObjectBatch] panic at
    line 308, whatever the flags say, once the tokenizer is resolved. *)
Theorem ObjectBatch_short_skip_list_panics (now : Z) (objects : list Object)
    (skipObject : list bool) (cfg : VectorizationConfig) (tke : Encoding) :
  EncodingForModel col (tokenizerModel (Model cfg)) = inl tke ->
  (length skipObject < length objects)%nat ->
  ObjectBatch col now objects skipObject cfg = Panicked "index out of range".
Proof.
  intros Htke Hlen. unfold ObjectBatch. rewrite Htke.
  rewrite prepare_short by (simpl; lia). reflexivity.
Qed.

Lemma prepare_length (conf : VectorizationConfig) (tke : Encoding)
    (skipObject : list bool) (objs : list Object) :
  forall (i : nat) (acc : bool * list string * list Z) b txts toks,
    prepare col conf tke skipObject i objs acc = Ok (b, txts, toks) ->
    length txts = length (snd (fst acc)) /\ length toks = length (snd acc).
Proof.
  induction objs as [|o rest IH]; intros i acc b txts toks H.
  - by injection H as ->.
  - cbn [prepare] in H. apply bind_Ok in H. destruct H as (sk & _ & H).
    destruct sk; [by apply IH in H|].
    destruct acc as [[b0 txts0] toks0]. apply IH in H. cbn [fst snd] in *.
    destruct H as [H1 H2]. rewrite length_insert in H1.
    rewrite length_insert in H2. done.
Qed.

(** End to end, for the caller of [ObjectBatch] whose job the worker has
    completed: one vector slot per object, and at every skipped index, as
    beyond the last object, a nil vector and no error. *)
Theorem VectorizeBatch_skipped_stay_empty (env : Env) (fuel : nat) (w : State)
    (now : Z) (objects : list Object) (skipObject : list bool)
    (cfg : VectorizationConfig) (vs : list (option embedding))
    (es : gmap nat error) (w' : State) (i : nat) :
  VectorizeBatch col env fuel w now objects skipObject cfg = Answer (Some vs) es w' ->
  skipObject !! i = Some true \/ (length objects <= i)%nat ->
  length vs = length objects
  /\ es !! i = None
  /\ vs !! i = if decide (i < length objects)%nat then Some None else None.
Proof.
  unfold VectorizeBatch, ObjectBatch. intros H Hi.
  assert (Hrep : replicate (length objects) (@None embedding) !! i
                 = if decide (i < length objects)%nat then Some None else None).
  { destruct (decide _) as [Hlt|Hge].
    - by apply lookup_replicate_2.
    - apply lookup_ge_None_2. rewrite length_replicate. lia. }
  destruct (EncodingForModel col _) as [tke|err]; [|discriminate H].
  destruct (prepare col cfg tke skipObject 0 objects _)
    as [[[skipAll txts] toks]|msg] eqn:E; [|discriminate H].
  cbn [mbind Res_bind] in H.
  destruct skipAll.
  { injection H as <- <- <-. rewrite length_replicate. by rewrite lookup_empty. }
  apply prepare_length in E. cbn [fst snd] in E. destruct E as [E _].
  rewrite length_replicate in E.
  set (job := batchJob.mk txts toks cfg skipObject now) in *.
  pose proof (runJob_jobInv env job ∅ (replicate (length objects) None) fuel w)
    as (_ & _ & [Hl Hk] & _).
  destruct (runJob env job ∅ _ fuel w) as [pc s]. cbn [fst snd] in *.
  destruct pc; try discriminate H. injection H as <- <- <-.
  rewrite length_replicate in Hl. split; [done|].
  assert (Hnl : ~ live job i).
  { intros [Hlt Hs]. cbn in Hlt, Hs. destruct Hi as [Hi|Hi]; [congruence|lia]. }
  destruct (Hk i Hnl) as [-> ->]. by rewrite lookup_empty.
Qed.
End Preparing.

Lemma ObjectBatch_enqueues_aligned_job_witness :
  exists txts toks,
    ObjectBatch Scenario.col 0 Sample.objects Sample.skips Scenario.cfg
    = Ok (Enqueued (batchJob.mk txts toks Scenario.cfg Sample.skips 0)
            ∅ (replicate (length Sample.objects) None))
    /\ length txts = length Sample.objects
    /\ length toks = length Sample.objects.
Proof.
  destruct (ObjectBatch_enqueues_aligned_job Scenario.col 0 Sample.objects
              Sample.skips Scenario.cfg tt 0%nat eq_refl (le_n 3)
              (le_S _ _ (le_S _ _ (le_n 1))) eq_refl)
    as (txts & toks & H1 & H2 & H3 & _).
  exists txts, toks. exact (conj H1 (conj H2 H3)).
Defined.

Lemma ObjectBatch_unknown_model_fails_all_witness :
  exists es,
    ObjectBatch Scenario.col 0 Sample.objects [true] Scenario.cfgUnknown
    = Ok (Returned None es)
    /\ es !! 2%nat = Some "no encoding for model"%string
    /\ es !! 3%nat = None.
Proof.
  destruct (ObjectBatch_unknown_model_fails_all Scenario.col 0 Sample.objects
              [true] Scenario.cfgUnknown "no encoding for model"%string eq_refl)
    as (es & H1 & H2).
  exists es. split; [exact H1|]. split; [exact (H2 2%nat)|exact (H2 3%nat)].
Defined.

Lemma ObjectBatch_short_skip_list_panics_witness :
  ObjectBatch Scenario.col 0 Sample.objects [true; false] Scenario.cfg
  = Panicked "index out of range".
Proof.
  exact (ObjectBatch_short_skip_list_panics Scenario.col 0 Sample.objects
           [true; false] Scenario.cfg tt eq_refl (le_n 3)).
Defined.

Lemma VectorizeBatch_skipped_stay_empty_witness :
  length (vecs Sample.doneSkip) = length Sample.objects
  /\ errs Sample.doneSkip !! 1%nat = None
  /\ vecs Sample.doneSkip !! 1%nat = Some None.
Proof.
  assert (Hrun : VectorizeBatch Scenario.col Scenario.envA 10 initialWorker 0
                   Sample.objects Sample.skips Scenario.cfg
                 = Answer (Some (vecs Sample.doneSkip)) (errs Sample.doneSkip)
                     Sample.doneSkip).
  { vm_compute. reflexivity. }
  exact (VectorizeBatch_skipped_stay_empty Scenario.col Scenario.envA 10
           initialWorker 0 Sample.objects Sample.skips Scenario.cfg
           (vecs Sample.doneSkip) (errs Sample.doneSkip) Sample.doneSkip 1%nat
           Hrun (or_introl eq_refl)).
Defined.

(** Whatever the client, the clock and the context do, and for however many
    turns, the worker keeps the vector slice at its length and leaves the
    error map and the vectors as the job brought them at every index that
    is skipped, has no skip flag, or lies beyond the job's texts. *)
Theorem worker_leaves_other_indices_alone (env : Env) (job : batchJob.t)
    (es : gmap nat error) (vs : list (option embedding)) (fuel : nat)
    (s0 : State) (i : nat) :
  ~ live job i ->
  length (vecs (snd (runJob env job es vs fuel s0))) = length vs
  /\ errs (snd (runJob env job es vs fuel s0)) !! i = es !! i
  /\ vecs (snd (runJob env job es vs fuel s0)) !! i = vs !! i.
Proof.
  intros Hi.
  pose proof (runJob_jobInv env job es vs fuel s0) as (_ & _ & [Hl Hk] & _).
  split; [exact Hl|]. exact (Hk i Hi).
Qed.

Lemma worker_leaves_other_indices_alone_witness :
  length (vecs (snd (runJob Scenario.envA Sample.jobSkip ∅ (Scenario.fresh 3)
                       10 initialWorker)))
  = length (Scenario.fresh 3)
  /\ errs (snd (runJob Scenario.envA Sample.jobSkip ∅ (Scenario.fresh 3)
                  10 initialWorker)) !! 1%nat
     = (∅ : gmap nat error) !! 1%nat
  /\ vecs (snd (runJob Scenario.envA Sample.jobSkip ∅ (Scenario.fresh 3)
                  10 initialWorker)) !! 1%nat
     = Scenario.fresh 3 !! 1%nat.
Proof.
  assert (Hskip : ~ live Sample.jobSkip 1).
  { intros [_ H]. discriminate H. }
  exact (worker_leaves_other_indices_alone Scenario.envA Sample.jobSkip ∅
           (Scenario.fresh 3) 10 initialWorker 1%nat Hskip).
Defined.

(** Every request of a job, the probing one, those of the main loop and
    the trailing one, carries as many texts as indices and at most
    [MaxObjectsPerBatch] of them; the indices increase strictly, each is in
    range and not skipped, and each text is the job's text at its index. *)
Theorem every_request_is_well_formed (env : Env) (job : batchJob.t)
    (es : gmap nat error) (vs : list (option embedding)) (fuel : nat)
    (s0 : State) :
  exists t,
    trace (snd (runJob env job es vs fuel s0)) = trace s0 ++ t
    /\ forall ph txts idx,
         EvRequest ph txts idx ∈ t ->
         length txts = length idx
         /\ (length txts <= MaxObjectsPerBatch)%nat
         /\ StronglySorted lt idx
         /\ forall j i, idx !! j = Some i ->
              live job i /\ txts !! j = batchJob.texts job !! i.
Proof.
  pose proof (runJob_jobInv env job es vs fuel s0) as (_ & _ & _ & t & Hf & _ & Ht).
  eexists. split; [exact Ht|].
  intros ph txts idx Hin.
  assert (Hin' : EvRequest ph txts idx ∈ t).
  { apply elem_of_app in Hin as [Hin|Hin]; [done|].
    destruct (fst _); try (by apply not_elem_of_nil in Hin).
    by apply list_elem_of_singleton in Hin. }
  rewrite Forall_forall in Hf. specialize (Hf _ Hin').
  destruct Hf as (H2 & Hsorted & Hlive & Hlen).
  split; [exact (Forall2_length _ _ _ H2)|]. split; [done|]. split; [done|].
  intros j i Hj. split.
  - rewrite Forall_forall in Hlive. apply list_elem_of_lookup_2 in Hj.
    exact (Hlive _ Hj).
  - destruct (Forall2_lookup_r _ _ _ _ _ H2 Hj) as (t' & Ht' & Htxt). congruence.
Qed.

(** The completion signal [job.wg.Done()] is given once, as the last thing
    a completed job does, and not at all while the job is under way or
    after a panic. *)
Theorem completion_signalled_once_at_the_end (env : Env) (job : batchJob.t)
    (es : gmap nat error) (vs : list (option embedding)) (fuel : nat)
    (s0 : State) :
  exists t,
    trace (snd (runJob env job es vs fuel s0)) = trace s0 ++ t
    /\ match fst (runJob env job es vs fuel s0) with
       | PcDone => exists t', t = t' ++ [EvDone] /\ EvDone ∉ t'
       | _ => EvDone ∉ t
       end.
Proof.
  pose proof (runJob_jobInv env job es vs fuel s0) as (_ & _ & _ & t & _ & Hd & Ht).
  eexists. split; [exact Ht|].
  destruct (fst _); rewrite ?app_nil_r; try done. by exists t.
Qed.

(** ** Probing, cancellation, the trailing request and the sleeps *)

Lemma noProbeSince_refl t : noProbeSince t t.
Proof. exists []. by rewrite app_nil_r. Qed.

Lemma noProbeSince_snoc t t' e :
  noProbeSince t t' -> isProbe e = false -> noProbeSince t (t' ++ [e]).
Proof.
  intros (evs & -> & Hf) He. exists (evs ++ [e]). split; [by rewrite app_assoc|].
  apply Forall_app. split; [done|]. by repeat constructor.
Qed.

Lemma noProbeSince_trans t1 t2 t3 :
  noProbeSince t1 t2 -> noProbeSince t2 t3 -> noProbeSince t1 t3.
Proof.
  intros (e1 & -> & H1) (e2 & -> & H2). exists (e1 ++ e2).
  split; [by rewrite app_assoc|]. by apply Forall_app.
Qed.

Ltac no_probe :=
  repeat (apply noProbeSince_snoc; [|reflexivity]); apply noProbeSince_refl.

Lemma dispatch_no_probe env job rl s ctl s' :
  dispatch env job rl s = Ok (ctl, s') ->
  firstRequest s' = firstRequest s /\ noProbeSince (trace s) (trace s').
Proof.
  intros H. apply dispatch_cases in H. destruct H as (rlNew & err & s1 & Hreq & H).
  pose proof (makeRequest_frame _ _ _ _ _ _ _ _ _ Hreq) as (es & vs & -> & _).
  unfold afterRequest in H. cbn zeta in H.
  destruct H as [(_ & -> & ->)|[(_ & _ & _ & -> & ->)|(_ & _ & _ & -> & first & es' & _ & _ & ->)]];
    cbn; (split; [done|no_probe]).
Qed.

Lemma loopBody_no_probe env job s ctl s' :
  loopBody env job s = Ok (ctl, s') ->
  firstRequest s' = firstRequest s /\ noProbeSince (trace s) (trace s').
Proof.
  intros H. apply loopBody_cases in H.
  destruct H as [(_ & -> & es & Hm & ->)|[(_ & Hs & -> & ->)|(_ & Hs & tok & rl & Htok & Hrl & H)]];
    try (cbn; split; [done|no_probe]).
  destruct H as [(_ & -> & ->)|(_ & text & Htext & H)];
    try (cbn; split; [done|no_probe]).
  cbn zeta in H.
  destruct H as [(Hadm & _ & -> & ->)|[(Hadm & Hd)|[(_ & _ & _ & Hw)|(_ & Hd)]]].
  - cbn; split; [done|no_probe].
  - apply dispatch_no_probe in Hd. cbn in Hd. destruct Hd as [-> Hd].
    split; [done|]. eapply noProbeSince_trans; [|exact Hd]. no_probe.
  - apply oversizeWait_cases in Hw. destruct Hw as (-> & tok' & _ & Hw).
    destruct Hw as [(_ & ->)|(_ & ->)]; cbn; (split; [done|no_probe]).
  - apply dispatch_no_probe in Hd. cbn in Hd. done.
Qed.

Lemma drain_no_probe env job s s' :
  drain env job s = Ok s' ->
  firstRequest s' = firstRequest s /\ noProbeSince (trace s) (trace s').
Proof.
  intros H. apply drain_cases in H.
  destruct H as [(_ & ->)|(_ & _ & rlNew & err & s1 & Hreq & ->)].
  - cbn; split; [done|no_probe].
  - pose proof (makeRequest_frame _ _ _ _ _ _ _ _ _ Hreq) as (es & vs & -> & _).
    destruct rlNew; cbn; (split; [done|no_probe]).
Qed.

Lemma step_no_probe env job pc s :
  firstRequest s = false ->
  firstRequest (snd (step env job (pc, s))) = false
  /\ noProbeSince (trace s) (trace (snd (step env job (pc, s)))).
Proof.
  intros Hf. unfold step.
  assert (Hsame : firstRequest s = false /\ noProbeSince (trace s) (trace s))
    by (split; [done|apply noProbeSince_refl]).
  destruct pc; try done.
  - rewrite Hf, andb_false_r. done.
  - destruct (_ <? _)%nat; [|done].
    destruct (loopBody env job s) as [[ctl s']|msg] eqn:E; [|done].
    apply loopBody_no_probe in E. destruct E as [E1 E2].
    destruct ctl; cbn [snd]; (split; [congruence|done]).
  - destruct (drain env job s) as [s'|msg] eqn:E; [|done].
    apply drain_no_probe in E. destruct E as [E1 E2].
    cbn [snd]; (split; [congruence|done]).
Qed.

(** Once a probing request has succeeded and [firstRequest] is false, it
    stays false and the worker never probes again, in the job at hand and
    in every job it takes later: all its requests are gathered
    sub-batches. *)
Theorem probe_only_until_first_success (env : Env)
    (x y : batchJob.t * Config) :
  workerSteps env x y ->
  firstRequest (snd (snd x)) = false ->
  firstRequest (snd (snd y)) = false
  /\ exists t, trace (snd (snd y)) = trace (snd (snd x)) ++ t
               /\ forall txts idx, EvRequest Bootstrap txts idx ∉ t.
Proof.
  intros Hsteps Hf.
  assert (H : firstRequest (snd (snd y)) = false
              /\ noProbeSince (trace (snd (snd x))) (trace (snd (snd y)))).
  { induction Hsteps as [x|x y z Hxy IH Hyz].
    - split; [done|apply noProbeSince_refl].
    - destruct (IH Hf) as [Hfy Hty]. destruct Hyz as [job [pc s]|job s job' es vs].
      + cbn [snd] in *. destruct (step_no_probe env job pc s Hfy) as [H1 H2].
        split; [done|]. by eapply noProbeSince_trans.
      + cbn in *. done. }
  destruct H as [H1 (evs & H2 & H3)]. split; [done|].
  exists evs. split; [done|]. intros txts idx Hin.
  rewrite Forall_forall in H3. by specialize (H3 _ Hin).
Qed.

Lemma probe_only_until_first_success_witness :
  firstRequest (snd (snd Sample.jobNextTurn)) = false
  /\ exists t, trace (snd (snd Sample.jobNextTurn))
               = trace (snd (snd Sample.jobDone)) ++ t
               /\ forall txts idx, EvRequest Bootstrap txts idx ∉ t.
Proof.
  assert (Hf : firstRequest (snd (snd Sample.jobDone)) = false).
  { vm_compute. reflexivity. }
  assert (Hsteps : workerSteps Scenario.envA Sample.jobDone Sample.jobNextTurn).
  { apply (ws_more Scenario.envA Sample.jobDone Sample.jobNext Sample.jobNextTurn).
    - apply (ws_more Scenario.envA Sample.jobDone Sample.jobDone Sample.jobNext).
      + apply ws_refl.
      + apply ws_next.
    - apply ws_turn. }
  exact (probe_only_until_first_success Scenario.envA Sample.jobDone
           Sample.jobNextTurn Hsteps Hf).
Defined.

Lemma markEach_total (skip : list bool) (e : error) (js : list nat) :
  forall es : gmap nat error,
    Forall (fun j => (j < length skip)%nat) js ->
    exists es', markEach skip e js es = Ok es'.
Proof.
  induction js as [|j js IH]; intros es Hjs; [by eexists|].
  apply Forall_cons in Hjs as [Hj Hjs]. cbn [markEach]. unfold index.
  destruct (lookup_lt_is_Some_2 skip j Hj) as [b ->]. cbn [mbind Res_bind].
  by apply IH.
Qed.

Lemma markFrom_total (job : batchJob.t) (e : error) (from : nat)
    (es : gmap nat error) :
  (length (batchJob.texts job) <= length (batchJob.skipObject job))%nat ->
  exists es', markFrom job e from es = Ok es'.
Proof.
  intros Hlen. unfold markFrom. apply markEach_total.
  apply Forall_forall. intros j Hj. apply elem_of_seq in Hj. lia.
Qed.

(** When the main loop finds the context cancelled, the job is over two
    turns later: every live index from the loop counter on carries the
    cancellation error, the client is not called again, also not by the
    trailing request, the vectors stay as they are and completion is
    signalled. *)
Theorem cancellation_ends_the_job (env : Env) (job : batchJob.t) (s : State) :
  (objCounter s < length (batchJob.texts job))%nat ->
  (length (batchJob.texts job) <= length (batchJob.skipObject job))%nat ->
  ctxErr env (polls s) = true ->
  exists s',
    run env job 2 (PcLoop, s) = (PcDone, s')
    /\ calls s' = calls s /\ vecs s' = vecs s
    /\ trace s' = trace s ++ [EvDone]
    /\ forall j,
         errs s' !! j
         = if decide ((objCounter s <= j < length (batchJob.texts job))%nat
                      /\ batchJob.skipObject job !! j = Some false)
           then Some errCancelled else errs s !! j.
Proof.
  intros Hlt Hlen Hctx.
  destruct (markFrom_total job errCancelled (objCounter s) (errs s) Hlen)
    as [es Hes].
  assert (Hbody : loopBody env job s = Ok (Break, set_errs es (poll s))).
  { unfold loopBody. rewrite Hctx. cbn [errs objCounter poll].
    rewrite Hes. reflexivity. }
  assert (Hdrain : drain env job (set_errs es (poll s))
                   = Ok (emit EvDone (set_errs es (poll s)))).
  { unfold drain. cbn [texts objCounter set_errs poll].
    replace (objCounter s =? length (batchJob.texts job))%nat with false
      by (symmetry; apply Nat.eqb_neq; lia).
    rewrite andb_false_r. reflexivity. }
  exists (emit EvDone (set_errs es (poll s))). split.
  - cbn [run step]. apply Nat.ltb_lt in Hlt. rewrite Hlt, Hbody.
    cbn [step]. rewrite Hdrain. reflexivity.
  - cbn. repeat split. intros j. exact (markFrom_lookup _ _ _ _ _ j Hes).
Qed.

Lemma cancellation_ends_the_job_witness :
  exists s',
    run Scenario.envCancel (Scenario.job [10; 10; 10]) 2 (PcLoop, Sample.atCancel)
    = (PcDone, s')
    /\ calls s' = calls Sample.atCancel
    /\ vecs s' = vecs Sample.atCancel
    /\ trace s' = trace Sample.atCancel ++ [EvDone].
Proof.
  assert (Hlt : lt (objCounter Sample.atCancel)
                  (length (batchJob.texts (Scenario.job [10; 10; 10])))).
  { vm_compute. apply le_n. }
  assert (Hlen : le (length (batchJob.texts (Scenario.job [10; 10; 10])))
                   (length (batchJob.skipObject (Scenario.job [10; 10; 10])))).
  { apply le_n. }
  assert (Hctx : ctxErr Scenario.envCancel (polls Sample.atCancel) = true).
  { vm_compute. reflexivity. }
  destruct (cancellation_ends_the_job Scenario.envCancel
              (Scenario.job [10; 10; 10]) Sample.atCancel Hlt Hlen Hctx)
    as (s' & H1 & H2 & H3 & H4 & _).
  exists s'. exact (conj H1 (conj H2 (conj H3 H4))).
Defined.

(** The case the comment of lines 246-247 names: the last object is skipped
    or too long while texts are waiting.  The main loop ends without a
    request, with the sub-batch as it was, and the trailing request then
    sends exactly that sub-batch before completion is signalled. *)
Theorem trailing_request_sends_pending_batch (env : Env) (job : batchJob.t)
    (s : State) :
  S (objCounter s) = length (batchJob.texts job) ->
  ctxErr env (polls s) = false ->
  texts s <> [] ->
  batchJob.skipObject job !! objCounter s = Some true
  \/ (batchJob.skipObject job !! objCounter s = Some false
      /\ exists tok rl,
           batchJob.tokens job !! objCounter s = Some tok
           /\ rateLimit s = Some rl /\ LimitTokens rl < tok) ->
  exists s1,
    run env job 2 (PcLoop, s) = (PcDrain, s1)
    /\ texts s1 = texts s /\ origIndex s1 = origIndex s
    /\ calls s1 = calls s /\ trace s1 = trace s
    /\ forall rl err s2,
         makeRequest env job Drain (texts s) (origIndex s) s1 = Ok (rl, err, s2) ->
         step env job (PcDrain, s1)
         = (PcDone, emit EvDone (match rl with
                                 | Some r => set_rateLimit (Some r) s2
                                 | None => s2
                                 end)).
Proof.
  intros Hlast Hctx Hne Hcase.
  assert (Hlt : (objCounter s <? length (batchJob.texts job))%nat = true)
    by (apply Nat.ltb_lt; lia).
  assert (Hturn : exists s1,
            loopBody env job s = Ok (Continue, s1)
            /\ objCounter s1 = S (objCounter s)
            /\ texts s1 = texts s /\ origIndex s1 = origIndex s
            /\ calls s1 = calls s /\ trace s1 = trace s).
  { unfold loopBody. rewrite Hctx. cbn [objCounter poll]. unfold index.
    destruct Hcase as [Hs|(Hs & tok & rl & Htok & Hrl & Hlong)]; rewrite Hs;
      cbn [mbind Res_bind].
    - eexists. split; [reflexivity|]. done.
    - rewrite Htok. cbn [mbind Res_bind rateLimit poll]. rewrite Hrl.
      cbn [deref mbind Res_bind]. apply Z.ltb_lt in Hlong. rewrite Hlong.
      eexists. split; [reflexivity|]. done. }
  destruct Hturn as (s1 & Hbody & Hoc & Ht & Ho & Hc & Htr).
  exists s1. split.
  - cbn [run step]. rewrite Hlt, Hbody. cbn [step].
    replace (objCounter s1 <? length (batchJob.texts job))%nat with false
      by (symmetry; apply Nat.ltb_ge; lia).
    reflexivity.
  - repeat split; try done. intros rl err s2 Hreq. cbn [step]. unfold drain.
    rewrite Ht, Ho.
    replace (0 <? length (texts s))%nat with true
      by (symmetry; apply Nat.ltb_lt; destruct (texts s); [done|simpl; lia]).
    replace (objCounter s1 =? length (batchJob.texts job))%nat with true
      by (symmetry; apply Nat.eqb_eq; lia).
    cbn [andb]. rewrite Hreq. reflexivity.
Qed.

Lemma trailing_request_sends_pending_batch_witness :
  exists s1,
    run Scenario.envA Sample.jobTail 2 (PcLoop, Sample.atTail) = (PcDrain, s1)
    /\ texts s1 = texts Sample.atTail
    /\ origIndex s1 = origIndex Sample.atTail
    /\ calls s1 = calls Sample.atTail.
Proof.
  assert (Hlast : S (objCounter Sample.atTail)
                  = length (batchJob.texts Sample.jobTail)).
  { vm_compute. reflexivity. }
  assert (Hctx : ctxErr Scenario.envA (polls Sample.atTail) = false)
    by reflexivity.
  assert (Hne : texts Sample.atTail <> []).
  { vm_compute. discriminate. }
  assert (Hskip : batchJob.skipObject Sample.jobTail !! objCounter Sample.atTail
                  = Some true).
  { vm_compute. reflexivity. }
  destruct (trailing_request_sends_pending_batch Scenario.envA Sample.jobTail
              Sample.atTail Hlast Hctx Hne (or_introl Hskip))
    as (s1 & H1 & H2 & H3 & H4 & _).
  exists s1. exact (conj H1 (conj H2 (conj H3 H4))).
Defined.

Lemma dispatch_sleep env job rl s ctl s' d :
  dispatch env job rl s = Ok (ctl, s') ->
  EvSleep d ∈ drop (length (trace s)) (trace s') ->
  ctl = Continue
  /\ exists rl',
       rateLimit s' = Some rl' /\ d = resetWait rl'
       /\ calls s' = S (calls s)
       /\ wrap64 (sat64 (clock env (S (S (ticks s))) - batchJob.startTime job) + d)
          <= maxBatchTime env.
Proof.
  intros H Hin. apply dispatch_cases in H.
  destruct H as (rlNew & err & s1 & Hreq & H).
  pose proof (makeRequest_frame _ _ _ _ _ _ _ _ _ Hreq) as (es & vs & -> & _).
  unfold afterRequest, since in H. cbn zeta in H.
  cbn [ticks tick set_rateLimit set_timing set_vecs set_errs emit called] in H.
  destruct H as [(_ & _ & ->)|[(_ & _ & Hle & -> & ->)|(_ & _ & _ & _ & first & es' & _ & _ & ->)]];
    cbn in Hin.
  - rewrite drop_app_length in Hin.
    apply list_elem_of_singleton in Hin. discriminate Hin.
  - rewrite <- app_assoc, drop_app_length in Hin.
    apply elem_of_cons in Hin as [Hin|Hin]; [discriminate Hin|].
    apply list_elem_of_singleton in Hin. injection Hin as ->.
    split; [done|]. eexists. split; [reflexivity|]. split; [reflexivity|].
    split; [reflexivity|]. exact Hle.
  - rewrite drop_app_length in Hin.
    apply list_elem_of_singleton in Hin. discriminate Hin.
Qed.

(** Neither sleep of the main loop runs past the deadline, each tested at
    the clock reading the code takes for it.  A turn that sleeps continues
    the loop, and its sleep is one of two.  The wait for tokens of lines
    205-209: no request is made, the duration is [sleepTime] for the text
    at the loop counter, and at the first clock reading of the turn
    [time.Since(job.startTime) + sleepTime < maxBatchTime], strictly.  Or
    the wait for the request budget of lines 227-237: one request has been
    made, the duration is [ResetRequests] seconds of the limits now held,
    and at the third clock reading of the turn, the one of line 229,
    [time.Since(job.startTime) + wait] does not exceed [maxBatchTime]. *)
Theorem sleeps_stay_within_deadline (env : Env) (job : batchJob.t) (s : State)
    (ctl : Control) (s' : State) (d : Z) :
  loopBody env job s = Ok (ctl, s') ->
  EvSleep d ∈ drop (length (trace s)) (trace s') ->
  ctl = Continue
  /\ ((exists rl tok,
         rateLimit s = Some rl
         /\ batchJob.tokens job !! objCounter s = Some tok
         /\ d = sleepTime rl tok
         /\ calls s' = calls s
         /\ wrap64 (sat64 (clock env (ticks s) - batchJob.startTime job) + d)
            < maxBatchTime env)
      \/ (exists rl',
            rateLimit s' = Some rl'
            /\ d = resetWait rl'
            /\ calls s' = S (calls s)
            /\ wrap64 (sat64 (clock env (S (S (ticks s)))
                              - batchJob.startTime job) + d)
               <= maxBatchTime env)).
Proof.
  intros H Hin.
  assert (Hnone : forall t, EvSleep d ∈ drop (length t) t -> False).
  { intros t Ht. rewrite drop_all in Ht. by apply not_elem_of_nil in Ht. }
  assert (Hdisp : forall rl s0 pre,
            trace s0 = trace s ++ pre -> EvSleep d ∉ pre ->
            ticks s0 = ticks s -> calls s0 = calls s ->
            dispatch env job rl s0 = Ok (ctl, s') ->
            ctl = Continue
            /\ exists rl',
                 rateLimit s' = Some rl' /\ d = resetWait rl'
                 /\ calls s' = S (calls s)
                 /\ wrap64 (sat64 (clock env (S (S (ticks s)))
                                   - batchJob.startTime job) + d)
                    <= maxBatchTime env).
  { intros rl s0 pre Htr Hpre Hti Hca Hd.
    destruct (dispatch_no_probe _ _ _ _ _ _ Hd) as [_ (evs & Hevs & _)].
    assert (Hin0 : EvSleep d ∈ drop (length (trace s0)) (trace s')).
    { rewrite Hevs, drop_app_length.
      rewrite Hevs, Htr, <- app_assoc, drop_app_length in Hin.
      apply elem_of_app in Hin as [Hin|Hin]; done. }
    destruct (dispatch_sleep _ _ _ _ _ _ _ Hd Hin0) as [Hc (rl' & H1 & H2 & H3 & H4)].
    split; [done|]. exists rl'. rewrite <- Hti, <- Hca. done. }
  pose proof H as Hcases. apply loopBody_cases in Hcases.
  destruct Hcases as [(_ & -> & es & Hm & ->)|[(_ & Hs & -> & ->)|(_ & Hs & tok & rl & Htok & Hrl & Hc)]].
  - cbn in Hin. by destruct (Hnone _ Hin).
  - cbn in Hin. by destruct (Hnone _ Hin).
  - destruct Hc as [(_ & -> & ->)|(_ & text & Htext & Hc)].
    { cbn in Hin. by destruct (Hnone _ Hin). }
    cbn zeta in Hc.
    destruct Hc as [(Hadm & _ & -> & ->)|[(Hadm & Hd)|[(_ & _ & _ & Hw)|(_ & Hd)]]].
    + cbn in Hin. rewrite drop_app_length in Hin.
      apply list_elem_of_singleton in Hin. discriminate Hin.
    + destruct (Hdisp rl (admitState s tok rl text)
                  [EvAdmit (objCounter s) (wrap64 (tokensInCurrentBatch s + tok))
                     (RemainingTokens rl)]) as [Hc Hr]; try done.
      { intros Hx. apply list_elem_of_singleton in Hx. discriminate Hx. }
      split; [done|]. by right.
    + apply oversizeWait_cases in Hw. destruct Hw as (-> & tok' & Htok' & Hw).
      split; [done|]. cbn in Htok'.
      destruct Hw as [(Hlt & ->)|(_ & ->)].
      * cbn in Hin. rewrite drop_app_length in Hin.
        apply list_elem_of_singleton in Hin. injection Hin as ->.
        left. exists rl, tok'. split; [done|]. split; [done|].
        split; [done|]. split; [done|].
        unfold since in Hlt. cbn in Hlt. exact Hlt.
      * cbn in Hin. by destruct (Hnone _ Hin).
    + destruct (Hdisp rl (poll s) []) as [Hc Hr]; try done.
      { by rewrite app_nil_r. }
      { apply not_elem_of_nil. }
      split; [done|]. by right.
Qed.

Lemma sleeps_stay_within_deadline_witness :
  Continue = Continue
  /\ ((exists rl tok,
         rateLimit Sample.beforePause = Some rl
         /\ batchJob.tokens (Scenario.job [10; 10]) !! objCounter Sample.beforePause
            = Some tok
         /\ 1000000000 = sleepTime rl tok
         /\ calls Sample.afterPause = calls Sample.beforePause
         /\ wrap64 (sat64 (clock Sample.envPause (ticks Sample.beforePause)
                           - batchJob.startTime (Scenario.job [10; 10]))
                    + 1000000000)
            < maxBatchTime Sample.envPause)
      \/ (exists rl',
            rateLimit Sample.afterPause = Some rl'
            /\ 1000000000 = resetWait rl'
            /\ calls Sample.afterPause = S (calls Sample.beforePause)
            /\ wrap64 (sat64 (clock Sample.envPause
                                (S (S (ticks Sample.beforePause)))
                              - batchJob.startTime (Scenario.job [10; 10]))
                       + 1000000000)
               <= maxBatchTime Sample.envPause)).
Proof.
  assert (Hbody : loopBody Sample.envPause (Scenario.job [10; 10])
                    Sample.beforePause
                  = Ok (Continue, Sample.afterPause)).
  { vm_compute. reflexivity. }
  assert (Hin : EvSleep 1000000000
                ∈ drop (length (trace Sample.beforePause))
                    (trace Sample.afterPause)).
  { vm_compute. repeat constructor. }
  exact (sleeps_stay_within_deadline Sample.envPause (Scenario.job [10; 10])
           Sample.beforePause Continue Sample.afterPause 1000000000 Hbody Hin).
Defined.

(** ** Absence of panics *)

Lemma makeRequest_answer env job ph txts idx s rl err s' :
  makeRequest env job ph txts idx s = Ok (rl, err, s') ->
  rl = resp_rateLimit (Vectorize env (calls s) (batchJob.cfg job) txts)
  /\ err = resp_err (Vectorize env (calls s) (batchJob.cfg job) txts).
Proof.
  unfold makeRequest. intros H. destruct (resp_err _) as [e|].
  - apply bind_Ok in H. destruct H as (es & _ & H). by injection H as <- <- _.
  - apply bind_Ok in H. destruct H as ([es vs] & _ & H). by injection H as <- <- _.
Qed.

Lemma writeResults_total (r : VectorizationResult) (origIdx : list nat)
    (js : list nat) :
  forall (es : gmap nat error) (vs : list (option embedding)),
    Forall (fun j => (j < length (Errors r))%nat /\ (j < length (Vector r))%nat
                     /\ exists i, origIdx !! j = Some i /\ (i < length vs)%nat) js ->
    exists es' vs', writeResults (Some r) origIdx js es vs = Ok (es', vs').
Proof.
  induction js as [|j js IH]; intros es vs Hjs; [by eexists _, _|].
  apply Forall_cons in Hjs as [(He & Hv & i & Hi & Hlt) Hjs].
  cbn [writeResults deref mbind Res_bind]. unfold index.
  destruct (lookup_lt_is_Some_2 _ _ He) as [e ->]. cbn [mbind Res_bind].
  rewrite Hi.
  destruct e as [e|]; cbn [mbind Res_bind]; [by apply IH|].
  destruct (lookup_lt_is_Some_2 _ _ Hv) as [v ->]. cbn [mbind Res_bind].
  unfold store. apply Nat.ltb_lt in Hlt. rewrite Hlt. cbn [mbind Res_bind].
  apply IH. eapply Forall_impl; [exact Hjs|].
  intros j' (? & ? & i' & ? & ?). repeat split; try done. exists i'.
  by rewrite length_insert.
Qed.

Lemma makeRequest_total env job ph txts idx s :
  clientOk env ->
  (length txts <= length idx)%nat ->
  Forall (fun i => (i < length (vecs s))%nat) idx ->
  exists rl err s', makeRequest env job ph txts idx s = Ok (rl, err, s').
Proof.
  intros Hc Hlen Hidx. unfold makeRequest. cbn [errs vecs emit called].
  destruct (resp_err _) as [e|] eqn:He.
  - destruct (failAll_spec e idx (seq 0 (length txts)) (errs s)) as (es & -> & _).
    { apply Forall_forall. intros j Hj. apply elem_of_seq in Hj. lia. }
    by eexists _, _, _.
  - destruct (Hc _ _ _ He) as (_ & r & -> & H1 & H2).
    destruct (writeResults_total r idx (seq 0 (length txts)) (errs s) (vecs s))
      as (es & vs & Hw).
    { apply Forall_forall. intros j Hj. apply elem_of_seq in Hj.
      split; [lia|]. split; [lia|].
      destruct (lookup_lt_is_Some_2 idx j ltac:(lia)) as [i Hi].
      exists i. split; [done|]. rewrite Forall_forall in Hidx.
      apply Hidx. by apply list_elem_of_lookup_2 in Hi. }
    rewrite Hw. by eexists _, _, _.
Qed.

Section Safety.
Variable env : Env.
Variable Q : RateLimits -> Prop.
Hypothesis Qcredit : forall rl tok, Q rl -> Q (creditTokens rl tok).
Hypothesis Qclient :
  forall k cfg txts rl,
    resp_rateLimit (Vectorize env k cfg txts) = Some rl -> Q rl.
Hypothesis Qsafe :
  forall rl rl', Q rl -> Q rl' -> 0 < ResetTokens rl \/ ~ throttled rl'.
Hypothesis Hclient : clientOk env.

Variable job : batchJob.t.
Variable es0 : gmap nat error.
Variable vs0 : list (option embedding).
Variable t0 : list Event.
Hypothesis Hjob : jobOk job vs0.

Lemma batch_in_range s pc :
  jobInv job es0 vs0 t0 (pc, s) ->
  Forall (fun i => (i < length (vecs s))%nat) (origIndex s).
Proof.
  intros (Hoc & (_ & _ & Hb & _) & [Hl _] & _). inv_simpl.
  destruct Hjob as (_ & _ & Hv).
  eapply Forall_impl; [exact Hb|]. intros i [? _]. lia.
Qed.

Lemma Q_default rl rlNew k cfg txts :
  Q rl -> rlNew = resp_rateLimit (Vectorize env k cfg txts) ->
  Q (default rl rlNew).
Proof.
  intros Hq ->. destruct (resp_rateLimit _) as [r|] eqn:E; [|done].
  exact (Qclient _ _ _ _ E).
Qed.

Lemma dispatch_total rl s :
  jobInv job es0 vs0 t0 (PcLoop, s) ->
  Q rl ->
  (0 < ResetTokens rl -> texts s <> []) ->
  exists ctl s' rl',
    dispatch env job rl s = Ok (ctl, s')
    /\ rateLimit s' = Some rl' /\ Q rl'.
Proof.
  intros Hinv Hq Hne. pose proof Hinv as (Hoc & Hwf & Hb & Ht). inv_simpl.
  destruct (makeRequest_total env job Dispatch (texts s) (origIndex s) (tick s)
              Hclient)
    as (rlNew & err & s1 & Hreq).
  { by rewrite (wellFormed_length _ _ _ _ Hwf). }
  { exact (batch_in_range _ _ Hinv). }
  destruct (makeRequest_answer _ _ _ _ _ _ _ _ _ Hreq) as [HrlNew _].
  pose proof (makeRequest_frame _ _ _ _ _ _ _ _ _ Hreq) as (es & vs & Hs1 & _).
  pose proof (Q_default rl rlNew _ _ _ Hq HrlNew) as Hq'.
  unfold dispatch. cbn zeta.
  change (texts (tick s)) with (texts s).
  change (origIndex (tick s)) with (origIndex s).
  rewrite Hreq. cbn [mbind Res_bind].
  assert (Hdef : match rlNew with Some r => r | None => rl end = default rl rlNew)
    by (by destruct rlNew).
  rewrite Hdef. set (rl' := default rl rlNew) in *.
  destruct (RemainingRequests rl' =? 0) eqn:E1; cbn [andb];
    [|by eexists _, _, rl'].
  destruct (0 <? ResetRequests rl') eqn:E2; [|by eexists _, _, rl'].
  apply Z.eqb_eq in E1. apply Z.ltb_lt in E2.
  match goal with
  | |- context [maxBatchTime env <? ?x] =>
      destruct (maxBatchTime env <? x) eqn:E3; [|by eexists _, _, rl']
  end.
  assert (Hidx : origIndex s <> []).
  { destruct (Qsafe rl rl' Hq Hq') as [Hr|Hn]; [|by destruct Hn].
    specialize (Hne Hr). apply wellFormed_length in Hwf.
    intros Hnil. rewrite Hnil in Hwf. by destruct (texts s). }
  subst s1.
  cbn [origIndex tick set_rateLimit set_timing set_vecs set_errs emit called errs].
  unfold index. destruct (origIndex s) as [|first rest] eqn:Eidx; [done|].
  cbn [lookup list_lookup mbind Res_bind].
  destruct Hjob as (_ & Hskip & _).
  destruct (markFrom_total job errRateLimit first es Hskip) as [es' ->].
  cbn [mbind Res_bind]. by eexists _, _, rl'.
Qed.

Lemma loopBody_total s rl :
  (objCounter s < length (batchJob.texts job))%nat ->
  jobInv job es0 vs0 t0 (PcLoop, s) ->
  rateLimit s = Some rl -> Q rl ->
  exists ctl s' rl',
    loopBody env job s = Ok (ctl, s')
    /\ rateLimit s' = Some rl' /\ Q rl'.
Proof.
  intros Hlt Hinv Hrl Hq. pose proof Hinv as (Hoc & Hwf & Hb & Ht). inv_simpl.
  destruct Hjob as (Htok & Hskip & Hvs).
  unfold loopBody. cbn zeta.
  destruct (ctxErr env (polls s)).
  { cbn [objCounter errs poll].
    destruct (markFrom_total job errCancelled (objCounter s) (errs s) Hskip)
      as [es ->].
    cbn [mbind Res_bind]. by eexists _, _, rl. }
  cbn [objCounter rateLimit errs texts origIndex timePerToken
       tokensInCurrentBatch poll].
  unfold index.
  destruct (lookup_lt_is_Some_2 (batchJob.skipObject job) (objCounter s)
              ltac:(lia)) as [sk Hsk].
  rewrite Hsk. cbn [mbind Res_bind].
  destruct sk; [by eexists _, _, rl|].
  destruct (lookup_lt_is_Some_2 (batchJob.tokens job) (objCounter s)
              ltac:(lia)) as [tok Htk].
  rewrite Htk. cbn [mbind Res_bind]. rewrite Hrl. cbn [deref mbind Res_bind].
  destruct (LimitTokens rl <? tok); [by eexists _, _, rl|].
  destruct (lookup_lt_is_Some_2 (batchJob.texts job) (objCounter s) Hlt)
    as [text Htext].
  rewrite Htext. cbn [mbind Res_bind].
  destruct (admits _ _ _ _ _) eqn:Hadm; cbn [andb].
  - cbn [objCounter texts set_objCounter set_batch emit].
    destruct (_ <? _)%nat; [by eexists _, _, rl|].
    rewrite length_app. cbn [length].
    replace (length (texts s) + 1 =? 0)%nat with false
      by (symmetry; apply Nat.eqb_neq; lia).
    cbn [andb]. fold (admitState s tok rl text).
    apply dispatch_total; [|done|].
    + unfold admits in Hadm. apply andb_true_iff in Hadm as [_ Hn].
      apply Nat.ltb_lt in Hn. inv_intro; try done.
      * by apply wellFormed_snoc.
      * eapply traceShape_snoc; [|exact Ht| | |]; done.
    + intros _. unfold admitState. cbn. by destruct (texts s).
  - cbn [texts poll].
    destruct ((length (texts s) =? 0)%nat && (0 <? ResetTokens rl)) eqn:Hw.
    + unfold oversizeWait. cbn [objCounter poll]. unfold index. rewrite Htk.
      cbn [mbind Res_bind].
      match goal with
      | |- context [?x <? maxBatchTime env] => destruct (x <? maxBatchTime env)
      end.
      * eexists _, _, (creditTokens rl tok). split; [reflexivity|].
        split; [reflexivity|]. by apply Qcredit.
      * eexists _, _, rl. split; [reflexivity|]. done.
    + apply dispatch_total; [|done|].
      * inv_intro; done.
      * intros Hr. cbn [texts poll]. apply Z.ltb_lt in Hr. rewrite Hr in Hw.
        rewrite andb_true_r in Hw. apply Nat.eqb_neq in Hw.
        by destruct (texts s).
Qed.

Lemma step_limitsInv c :
  jobInv job es0 vs0 t0 c ->
  limitsInv Q job c -> limitsInv Q job (step env job c).
Proof.
  destruct c as [pc s]. intros Hinv Hl. unfold limitsInv in *.
  pose proof Hinv as (Hoc & Hwf & Hb & Ht). inv_simpl.
  destruct Hjob as (Htok & Hskip & Hvs).
  unfold step. destruct pc; try done.
  - destruct (objCounter s <? length (batchJob.texts job))%nat eqn:Hlt;
      cbn [andb].
    2:{ cbn [fst snd]. apply Nat.ltb_ge in Hlt.
        destruct Hl as [Hl|Hf]; [by left|by right]. }
    apply Nat.ltb_lt in Hlt.
    destruct (firstRequest s) eqn:Hf.
    2:{ cbn [fst snd]. destruct Hl as [Hl|Hx]; [by left|discriminate Hx]. }
    unfold bootstrapBody. unfold index.
    destruct (lookup_lt_is_Some_2 (batchJob.skipObject job) (objCounter s)
                ltac:(lia)) as [sk Hsk].
    rewrite Hsk. cbn [mbind Res_bind].
    destruct sk.
    { cbn. by right. }
    assert (Hlive : live job (objCounter s)) by (split; done).
    destruct (makeRequest_total env job Bootstrap
                (take 1 (drop (objCounter s) (batchJob.texts job)))
                [objCounter s] s Hclient)
      as (rlNew & err & s1 & Hreq).
    { rewrite (wellFormed_length _ _ _ _ (wellFormed_probe _ _ Hlive)). done. }
    { repeat constructor. destruct Hb as [-> _]. lia. }
    rewrite Hreq. cbn [mbind Res_bind].
    destruct (makeRequest_answer _ _ _ _ _ _ _ _ _ Hreq) as [HrlNew Herr].
    pose proof (makeRequest_frame _ _ _ _ _ _ _ _ _ Hreq) as (es & vs & -> & _).
    destruct err as [e|]; cbn.
    + by right.
    + left. symmetry in Herr. destruct (Hclient _ _ _ Herr) as [[r Hr] _].
      exists r. split; [congruence|]. exact (Qclient _ _ _ _ Hr).
  - destruct (objCounter s <? length (batchJob.texts job))%nat eqn:Hlt.
    + apply Nat.ltb_lt in Hlt.
      destruct Hl as [(rl & Hrl & Hq)|[_ Hge]]; [|lia].
      destruct (loopBody_total s rl Hlt Hinv Hrl Hq)
        as (ctl & s' & rl' & -> & H1 & H2).
      destruct ctl; cbn [fst snd]; left; by exists rl'.
    + cbn [fst snd]. destruct Hl as [Hl|[Hf _]]; [by left|by right].
  - unfold drain.
    destruct ((0 <? length (texts s))%nat && _); cbn [mbind Res_bind];
      [|exact Hl].
    destruct (makeRequest_total env job Drain (texts s) (origIndex s) s Hclient)
      as (rlNew & err & s1 & Hreq).
    { by rewrite (wellFormed_length _ _ _ _ Hwf). }
    { exact (batch_in_range _ _ Hinv). }
    rewrite Hreq. cbn [mbind Res_bind].
    destruct (makeRequest_answer _ _ _ _ _ _ _ _ _ Hreq) as [HrlNew _].
    pose proof (makeRequest_frame _ _ _ _ _ _ _ _ _ Hreq) as (es & vs & -> & _).
    destruct rlNew as [r|]; cbn.
    + left. exists r. split; [done|]. symmetry in HrlNew.
      exact (Qclient _ _ _ _ HrlNew).
    + exact Hl.
Qed.

Lemma run_limitsInv fuel :
  forall c, jobInv job es0 vs0 t0 c -> limitsInv Q job c ->
            limitsInv Q job (run env job fuel c).
Proof.
  induction fuel as [|n IH]; intros c Hinv Hl; [done|].
  cbn [run]. apply IH; [by apply step_jobInv|by apply step_limitsInv].
Qed.
End Safety.

Lemma limitsInv_start (Q : RateLimits -> Prop) (env : Env) (job : batchJob.t)
    (es : gmap nat error) (vs : list (option embedding)) (s0 : State) :
  limitsFrom Q env s0 -> limitsInv Q job (PcBootstrap, takeJob es vs s0).
Proof. by intros [H _]. Qed.

Lemma limitsInv_end (Q : RateLimits -> Prop) (env : Env) (job : batchJob.t)
    (c : Config) :
  (forall k cfg txts rl,
     resp_rateLimit (Vectorize env k cfg txts) = Some rl -> Q rl) ->
  limitsInv Q job c ->
  (forall msg, fst c <> PcPanic msg) /\ limitsFrom Q env (snd c).
Proof.
  destruct c as [pc s]. unfold limitsInv. cbn [fst snd]. intros Hall H.
  destruct pc; try done; (split; [done|]); (split; [|done]); try done.
  destruct H as [H|[H _]]; [by left|by right].
Qed.

(** With slices as [ObjectBatch] builds them and a client that keeps to its
    interface, no turn of the worker panics, in either of two regimes: the
    provider never reports the request budget as used up, or it always
    reports a positive time until the token budget resets.  Of the worker
    it takes that the limits it holds are of that regime, or that it has
    not yet probed with success, as a fresh worker has not: then its
    limits, nil or not, are replaced before they are read.  The same holds
    again of the state the job leaves, so the result carries over to the
    next job. *)
Theorem worker_does_not_panic (env : Env) (job : batchJob.t)
    (es : gmap nat error) (vs : list (option embedding)) (fuel : nat)
    (s0 : State) (msg : string) :
  jobOk job vs ->
  clientOk env ->
  safeRegime env s0 ->
  fst (runJob env job es vs fuel s0) <> PcPanic msg
  /\ safeRegime env (snd (runJob env job es vs fuel s0)).
Proof.
  intros Hjob Hclient Hmode.
  destruct Hmode as [Hs0|Hs0].
  - assert (H : limitsInv (fun rl => ~ throttled rl) job
                  (runJob env job es vs fuel s0)).
    { apply (run_limitsInv env (fun rl => ~ throttled rl)) with
        (es0 := es) (vs0 := vs) (t0 := trace s0).
      + intros r tok Hr [H1 H2]. apply Hr. split; done.
      + exact (proj2 Hs0).
      + intros r r' _ Hr'. by right.
      + exact Hclient.
      + exact Hjob.
      + apply takeJob_jobInv.
      + exact (limitsInv_start _ env job es vs s0 Hs0). }
    destruct (limitsInv_end _ env job _ (proj2 Hs0) H) as [H1 H2].
    split; [apply H1|by left].
  - assert (H : limitsInv (fun rl => 0 < ResetTokens rl) job
                  (runJob env job es vs fuel s0)).
    { apply (run_limitsInv env (fun rl => 0 < ResetTokens rl)) with
        (es0 := es) (vs0 := vs) (t0 := trace s0).
      + intros r tok Hr. exact Hr.
      + exact (proj2 Hs0).
      + intros r r' Hr _. by left.
      + exact Hclient.
      + exact Hjob.
      + apply takeJob_jobInv.
      + exact (limitsInv_start _ env job es vs s0 Hs0). }
    destruct (limitsInv_end _ env job _ (proj2 Hs0) H) as [H1 H2].
    split; [apply H1|by right].
Qed.

Lemma worker_does_not_panic_witness :
  (fst (runJob Sample.envRefresh (Scenario.job [10; 10; 10]) ∅
          (Scenario.fresh 3) 10 initialWorker)
   <> PcPanic "index out of range"
   /\ safeRegime Sample.envRefresh
        (snd (runJob Sample.envRefresh (Scenario.job [10; 10; 10]) ∅
                (Scenario.fresh 3) 10 initialWorker)))
  /\ (fst (runJob Scenario.envA (Scenario.job [10; 10; 10]) ∅
             (Scenario.fresh 3) 10 initialWorker)
      <> PcPanic "index out of range"
      /\ safeRegime Scenario.envA
           (snd (runJob Scenario.envA (Scenario.job [10; 10; 10]) ∅
                   (Scenario.fresh 3) 10 initialWorker))).
Proof.
  assert (Hjob : jobOk (Scenario.job [10; 10; 10]) (Scenario.fresh 3)).
  { repeat split; apply le_n. }
  assert (Hrefresh : clientOk Sample.envRefresh).
  { intros k cfg txts _. split; [by eexists|].
    eexists. split; [reflexivity|]. cbn [Errors Vector].
    rewrite !length_replicate. split; apply le_n. }
  assert (Hclient : clientOk Scenario.envA).
  { intros k cfg txts _. split; [by eexists|].
    eexists. split; [reflexivity|]. cbn [Errors Vector].
    rewrite !length_replicate. split; apply le_n. }
  assert (Hfresh : safeRegime Sample.envRefresh initialWorker).
  { right. split; [by right|].
    intros k cfg txts rl Hrl. injection Hrl as <-. reflexivity. }
  assert (Hnever : safeRegime Scenario.envA initialWorker).
  { left. split; [by right|].
    intros k cfg txts rl Hrl [H _]. injection Hrl as <-. discriminate H. }
  split.
  - exact (worker_does_not_panic Sample.envRefresh (Scenario.job [10; 10; 10]) ∅
             (Scenario.fresh 3) 10 initialWorker "index out of range"
             Hjob Hrefresh Hfresh).
  - exact (worker_does_not_panic Scenario.envA (Scenario.job [10; 10; 10]) ∅
             (Scenario.fresh 3) 10 initialWorker "index out of range"
             Hjob Hclient Hnever).
Defined.

(** ** Every live index gets an outcome *)

Lemma answered_insert es vs i j e :
  answered es vs i -> answered (<[j:=e]> es) vs i.
Proof.
  intros [H|H]; [left|by right].
  destruct (decide (i = j)) as [->|Hne].
  - rewrite lookup_insert_eq. by eexists.
  - by rewrite lookup_insert_ne.
Qed.

Lemma answered_here es vs i e : answered (<[i:=e]> es) vs i.
Proof. left. rewrite lookup_insert_eq. by eexists. Qed.

Lemma failAll_answers (err : error) (origIdx : list nat) (js : list nat) :
  forall (es es' : gmap nat error) (vs : list (option embedding)),
    failAll err origIdx js es = Ok es' ->
    (forall j i, j ∈ js -> origIdx !! j = Some i -> answered es' vs i)
    /\ (forall i, answered es vs i -> answered es' vs i).
Proof.
  induction js as [|j js IH]; intros es es' vs H.
  - injection H as <-. split; [|done]. intros j i Hj. by apply not_elem_of_nil in Hj.
  - cbn [failAll] in H. apply bind_Ok in H. destruct H as (i0 & Hi0 & H).
    apply index_Ok in Hi0. destruct (IH _ _ vs H) as [Hnew Hold]. split.
    + intros j' i Hj' Hi. apply elem_of_cons in Hj' as [->|Hj'].
      * assert (i = i0) as -> by congruence. apply Hold, answered_here.
      * by apply (Hnew j').
    + intros i Hi. by apply Hold, answered_insert.
Qed.

Lemma writeResults_answers (r : VectorizationResult) (origIdx : list nat)
    (js : list nat) :
  (forall j, Errors r !! j = Some None -> Vector r !! j <> Some None) ->
  forall (es : gmap nat error) (vs : list (option embedding)) es' vs',
    writeResults (Some r) origIdx js es vs = Ok (es', vs') ->
    (forall j i, j ∈ js -> origIdx !! j = Some i -> answered es' vs' i)
    /\ (forall i, answered es vs i -> answered es' vs' i).
Proof.
  intros Hnil. induction js as [|j js IH]; intros es vs es' vs' H.
  - injection H as <- <-. split; [|done]. intros j i Hj.
    by apply not_elem_of_nil in Hj.
  - cbn [writeResults deref mbind Res_bind] in H.
    apply bind_Ok in H. destruct H as (e & He & H). apply index_Ok in He.
    destruct e as [e|].
    + apply bind_Ok in H. destruct H as (i0 & Hi0 & H). apply index_Ok in Hi0.
      destruct (IH _ _ _ _ H) as [Hnew Hold]. split.
      * intros j' i Hj' Hi. apply elem_of_cons in Hj' as [->|Hj'].
        -- assert (i = i0) as -> by congruence. apply Hold, answered_here.
        -- by apply (Hnew j').
      * intros i Hi. by apply Hold, answered_insert.
    + apply bind_Ok in H. destruct H as (i0 & Hi0 & H). apply index_Ok in Hi0.
      apply bind_Ok in H. destruct H as (v & Hv & H). apply index_Ok in Hv.
      apply bind_Ok in H. destruct H as (vs1 & Hst & H).
      apply store_Ok in Hst. destruct Hst as [Hlt ->].
      destruct v as [v|]; [|by destruct (Hnil j He)].
      assert (Hhere : answered es (<[i0:=Some v]> vs) i0).
      { right. exists v. by apply list_lookup_insert_eq. }
      assert (Hkeep : forall i, answered es vs i ->
                                answered es (<[i0:=Some v]> vs) i).
      { intros i Hi. destruct (decide (i = i0)) as [->|Hne]; [done|].
        destruct Hi as [Hi|[v' Hi]]; [by left|right]. exists v'.
        by rewrite list_lookup_insert_ne. }
      destruct (IH _ _ _ _ H) as [Hnew Hold]. split.
      * intros j' i Hj' Hi. apply elem_of_cons in Hj' as [->|Hj'].
        -- assert (i = i0) as -> by congruence. by apply Hold.
        -- by apply (Hnew j').
      * intros i Hi. by apply Hold, Hkeep.
Qed.

(** A request that returns leaves an outcome at each of its indices and
    takes none away. *)
Lemma makeRequest_answers env job ph txts idx s rl err s' :
  noNilVector env ->
  length txts = length idx ->
  makeRequest env job ph txts idx s = Ok (rl, err, s') ->
  (forall i, i ∈ idx -> answered (errs s') (vecs s') i)
  /\ (forall i, answered (errs s) (vecs s) i -> answered (errs s') (vecs s') i).
Proof.
  intros Hnil Hlen H. unfold makeRequest in H.
  assert (Hidx : forall i, i ∈ idx ->
            exists j, j ∈ seq 0 (length txts) /\ idx !! j = Some i).
  { intros i Hi. apply list_elem_of_lookup in Hi as [j Hj]. exists j.
    split; [|done]. apply elem_of_seq. apply lookup_lt_Some in Hj. lia. }
  destruct (resp_err _) as [e|].
  - apply bind_Ok in H. destruct H as (es & Hes & H). injection H as _ _ <-.
    cbn [errs vecs set_errs emit called] in *.
    destruct (failAll_answers _ _ _ _ _ (vecs s) Hes) as [Hnew Hold].
    split; [|done]. intros i Hi. destruct (Hidx i Hi) as (j & Hj & Hji).
    by apply (Hnew j).
  - apply bind_Ok in H. destruct H as ([es vs] & Hw & H). injection H as _ _ <-.
    cbn [errs vecs set_errs set_vecs emit called] in *.
    destruct (resp_res _) as [r|] eqn:Hr.
    + destruct (writeResults_answers r idx _ (fun j => Hnil _ _ _ r j Hr)
                  _ _ _ _ Hw) as [Hnew Hold].
      split; [|done]. intros i Hi. destruct (Hidx i Hi) as (j & Hj & Hji).
      by apply (Hnew j).
    + destruct txts as [|t txts].
      * injection Hw as <- <-. split; [|done]. intros i Hi.
        destruct idx; [by apply not_elem_of_nil in Hi|discriminate Hlen].
      * discriminate Hw.
Qed.

Lemma dispatch_progress env job es0 vs0 t0 rl s ctl s' :
  noNilVector env ->
  jobInv job es0 vs0 t0 (PcLoop, s) ->
  accounted job s ->
  dispatch env job rl s = Ok (ctl, s') ->
  match ctl with
  | Continue => accounted job s'
  | Break => allAnswered job s'
  end.
Proof.
  intros Hnil (Hoc & Hwf & _ & _) Hacc H. inv_simpl.
  apply dispatch_cases in H. destruct H as (rlNew & err & s1 & Hreq & H).
  pose proof (makeRequest_frame _ _ _ _ _ _ _ _ _ Hreq) as (es & vs & Hs1 & _).
  destruct (makeRequest_answers _ _ _ _ _ _ _ _ _ Hnil
              (wellFormed_length _ _ _ _ Hwf) Hreq) as [Hnew Hold].
  inv_simpl. subst s1. inv_simpl.
  assert (Hall : forall i, live job i -> (i < objCounter s)%nat -> answered es vs i).
  { intros i Hl Hi. destruct (Hacc i Hl Hi) as [Hin|Ha]; [by apply Hnew|by apply Hold]. }
  unfold afterRequest in H. cbn zeta in H.
  destruct H as [(_ & -> & ->)|[(_ & _ & _ & -> & ->)|(_ & _ & _ & -> & first & es' & Hfirst & Hm & ->)]];
    inv_simpl.
  - intros i Hl Hi. right. inv_simpl. by apply Hall.
  - intros i Hl Hi. right. inv_simpl. by apply Hall.
  - intros i Hl. inv_simpl.
    assert (Hf : (first < objCounter s)%nat).
    { destruct Hwf as (_ & _ & Hb & _). rewrite Forall_forall in Hb.
      apply list_elem_of_lookup_2 in Hfirst. by destruct (Hb _ Hfirst). }
    destruct (decide (first <= i)%nat) as [Hge|Hlt].
    + left. rewrite (markFrom_lookup _ _ _ _ _ i Hm).
      rewrite decide_True; [by eexists|]. destruct Hl as [? ?]. split; [lia|done].
    + destruct (Hall i Hl ltac:(lia)) as [Ha|Ha]; [|by right].
      left. rewrite (markFrom_lookup _ _ _ _ _ i Hm).
      destruct (decide _); [by eexists|done].
Qed.

Lemma accounted_next job s s' :
  origIndex s' = origIndex s -> vecs s' = vecs s ->
  objCounter s' = S (objCounter s) ->
  (forall i, answered (errs s) (vecs s) i -> answered (errs s') (vecs s) i) ->
  (live job (objCounter s) -> answered (errs s') (vecs s) (objCounter s)) ->
  accounted job s -> accounted job s'.
Proof.
  intros Ho Hv Hc Hkeep Hhere Hacc i Hl Hi. rewrite Ho, Hv.
  destruct (decide (i = objCounter s)) as [->|Hne].
  - right. by apply Hhere.
  - destruct (Hacc i Hl ltac:(lia)) as [?|?]; [by left|right; by apply Hkeep].
Qed.

Lemma loopBody_progress env job es0 vs0 t0 s ctl s' :
  noNilVector env ->
  ctxErr env (polls s) = false ->
  jobInv job es0 vs0 t0 (PcLoop, s) ->
  accounted job s ->
  loopBody env job s = Ok (ctl, s') ->
  match ctl with
  | Continue => accounted job s'
  | Break => allAnswered job s'
  end.
Proof.
  intros Hnil Hctx Hinv Hacc H. pose proof Hinv as (Hoc & Hwf & Hb & Ht).
  inv_simpl. apply loopBody_cases in H.
  destruct H as [(Hc & _)|[(_ & Hs & -> & ->)|(_ & Hs & tok & rl & Htok & Hrl & H)]].
  - congruence.
  - apply (accounted_next job s); try done. intros [_ Hl]. congruence.
  - destruct H as [(_ & -> & ->)|(Hfit & text & Htext & H)].
    { apply (accounted_next job s); try done.
      - intros i. apply answered_insert.
      - intros _. apply answered_here. }
    cbn zeta in H.
    assert (HA : accounted job (admitState s tok rl text)).
    { intros i Hl Hi. unfold admitState in *. inv_simpl.
      destruct (decide (i = objCounter s)) as [->|Hne].
      - left. apply elem_of_app. right. by apply list_elem_of_singleton.
      - destruct (Hacc i Hl ltac:(lia)) as [?|?]; [left|by right].
        apply elem_of_app. by left. }
    destruct H as [(Hadm & _ & -> & ->)|[(Hadm & Hd)|[(_ & _ & _ & Hw)|(_ & Hd)]]].
    + exact HA.
    + eapply (dispatch_progress env job es0 vs0 t0); [done| |exact HA|exact Hd].
      unfold admits in Hadm. apply andb_true_iff in Hadm as [_ Hn].
      apply Nat.ltb_lt in Hn.
      assert (Hlt : (objCounter s < length (batchJob.texts job))%nat)
        by (by apply lookup_lt_Some in Htext).
      inv_intro; try done.
      * by apply wellFormed_snoc.
      * eapply traceShape_snoc; [|exact Ht| | |]; done.
    + apply oversizeWait_cases in Hw. destruct Hw as (-> & tok' & _ & Hw).
      inv_simpl. destruct Hw as [(_ & ->)|(_ & ->)].
      * intros i Hl Hi. inv_simpl. by apply Hacc.
      * apply (accounted_next job s); try done.
        -- intros i. apply answered_insert.
        -- intros _. apply answered_here.
    + eapply (dispatch_progress env job es0 vs0 t0 rl (poll s));
        [done| |exact Hacc|exact Hd].
      inv_intro; done.
Qed.

Lemma bootstrapBody_progress env job es0 vs0 t0 s s' :
  noNilVector env ->
  (objCounter s < length (batchJob.texts job))%nat ->
  jobInv job es0 vs0 t0 (PcBootstrap, s) ->
  accounted job s ->
  bootstrapBody env job s = Ok s' ->
  accounted job s'.
Proof.
  intros Hnil Hlt (Hoc & Hwf & Hb & Ht) Hacc H. inv_simpl.
  apply bootstrapBody_cases in H.
  destruct H as [(Hs & ->)|(Hs & rl & err & s1 & Hreq & H)].
  - apply (accounted_next job s); try done. intros [_ Hl]. congruence.
  - assert (Hlive : live job (objCounter s)) by (split; done).
    pose proof (makeRequest_frame _ _ _ _ _ _ _ _ _ Hreq) as (es & vs & Hs1 & _).
    destruct (makeRequest_answers _ _ _ _ _ _ _ _ _ Hnil
                (wellFormed_length _ _ _ _ (wellFormed_probe _ _ Hlive)) Hreq)
      as [Hnew Hold].
    subst s1. inv_simpl.
    destruct err as [e|]; subst s'; intros i Hl Hi; inv_simpl.
    + destruct (Hacc i Hl Hi) as [?|?]; [by left|right].
      by apply answered_insert, Hold.
    + destruct (decide (i = objCounter s)) as [->|Hne].
      * right. apply Hnew. by apply list_elem_of_singleton.
      * destruct (Hacc i Hl ltac:(lia)) as [?|?]; [by left|right; by apply Hold].
Qed.

Lemma drain_progress env job es0 vs0 t0 s s' :
  noNilVector env ->
  jobInv job es0 vs0 t0 (PcDrain, s) ->
  progressInv job (PcDrain, s) ->
  drain env job s = Ok s' ->
  allAnswered job s'.
Proof.
  intros Hnil (Hoc & Hwf & Hb & Ht) Hp H. cbn [progressInv fst snd] in *.
  apply drain_cases in H.
  destruct H as [(Hno & ->)|(Hne & Hlen & rlNew & err & s1 & Hreq & ->)].
  - inv_simpl. destruct Hp as [[Hlen Hacc]|Hall]; [|done].
    intros i Hl. destruct (Hacc i Hl) as [Hin|Ha]; [destruct Hl; lia| |done].
    exfalso. destruct Hno as [Hno|Hno]; [|done].
    apply wellFormed_length in Hwf. rewrite Hno in Hwf.
    destruct (origIndex s); [by apply not_elem_of_nil in Hin|discriminate Hwf].
  - pose proof (makeRequest_frame _ _ _ _ _ _ _ _ _ Hreq) as (es & vs & Hs1 & _).
    destruct (makeRequest_answers _ _ _ _ _ _ _ _ _ Hnil
                (wellFormed_length _ _ _ _ Hwf) Hreq) as [Hnew Hold].
    subst s1. inv_simpl.
    assert (Hall : forall i, live job i -> answered es vs i).
    { intros i Hl. destruct Hp as [[_ Hacc]|Hall]; [|by apply Hold, Hall].
      destruct (Hacc i Hl) as [Hin|Ha];
        [destruct Hl; lia|by apply Hnew|by apply Hold]. }
    destruct rlNew; intros i Hl; inv_simpl; by apply Hall.
Qed.

Lemma step_progress env job es0 vs0 t0 c :
  noNilVector env ->
  (forall k, ctxErr env k = false) ->
  jobInv job es0 vs0 t0 c ->
  progressInv job c -> progressInv job (step env job c).
Proof.
  destruct c as [pc s]. intros Hnil Hctx Hinv Hp. unfold step.
  pose proof Hinv as (Hoc & _). inv_simpl.
  destruct pc; try done.
  - destruct (objCounter s <? length (batchJob.texts job))%nat eqn:Hlt;
      cbn [andb]; [|done].
    apply Nat.ltb_lt in Hlt. destruct (firstRequest s); [|done].
    destruct (bootstrapBody env job s) as [s'|msg] eqn:E; [|done].
    exact (bootstrapBody_progress _ _ _ _ _ _ _ Hnil Hlt Hinv Hp E).
  - destruct (objCounter s <? length (batchJob.texts job))%nat eqn:Hlt.
    + destruct (loopBody env job s) as [[ctl s']|msg] eqn:E; [|done].
      pose proof (loopBody_progress _ _ _ _ _ _ _ _ Hnil (Hctx _) Hinv Hp E) as H.
      destruct ctl; [done|by right].
    + apply Nat.ltb_ge in Hlt. left. cbn [fst snd]. split; [lia|done].
  - destruct (drain env job s) as [s'|msg] eqn:E; [|done].
    exact (drain_progress _ _ _ _ _ _ _ Hnil Hinv Hp E).
Qed.

Lemma run_progress env job es0 vs0 t0 fuel :
  noNilVector env ->
  (forall k, ctxErr env k = false) ->
  forall c, jobInv job es0 vs0 t0 c -> progressInv job c ->
            progressInv job (run env job fuel c).
Proof.
  intros Hnil Hctx. induction fuel as [|n IH]; intros c Hinv Hp; [done|].
  cbn [run]. apply IH; [by apply step_jobInv|by apply (step_progress _ _ es0 vs0 t0)].
Qed.

(** Absent cancellation, a completed job has left no live index without an
    outcome: each has a vector or an error (possibly both), provided the
    client returns no nil vector for a text it reports no error for. *)
Theorem completed_job_answers_every_live_index (env : Env) (job : batchJob.t)
    (es : gmap nat error) (vs : list (option embedding)) (fuel : nat)
    (s0 s : State) (i : nat) :
  noNilVector env ->
  (forall k, ctxErr env k = false) ->
  runJob env job es vs fuel s0 = (PcDone, s) ->
  live job i ->
  hasVector s i = true \/ hasError s i = true.
Proof.
  intros Hnil Hctx Hrun Hl.
  assert (Hp : progressInv job (runJob env job es vs fuel s0)).
  { apply (run_progress env job es vs (trace s0)); try done.
    - apply takeJob_jobInv.
    - unfold progressInv, accounted, takeJob. inv_simpl. intros j _ Hj. lia. }
  rewrite Hrun in Hp. cbn in Hp. destruct (Hp i Hl) as [[e He]|[v Hv]].
  - right. unfold hasError. by rewrite He.
  - left. unfold hasVector. by rewrite Hv.
Qed.

Lemma completed_job_answers_every_live_index_witness :
  hasVector Sample.afterA 2 = true \/ hasError Sample.afterA 2 = true.
Proof.
  assert (Hnil : noNilVector Scenario.envA).
  { intros k cfg txts r j Hr He Hv. injection Hr as <-. cbn [Vector Errors] in *.
    apply lookup_replicate in Hv as [Hv _]. discriminate Hv. }
  assert (Hctx : forall k, ctxErr Scenario.envA k = false) by reflexivity.
  assert (Hrun : runJob Scenario.envA (Scenario.job [10; 10; 10]) ∅
                   (Scenario.fresh 3) 10 initialWorker
                 = (PcDone, Sample.afterA)).
  { vm_compute. reflexivity. }
  assert (Hlive : live (Scenario.job [10; 10; 10]) 2).
  { split; [exact (le_n 3)|reflexivity]. }
  exact (completed_job_answers_every_live_index Scenario.envA
           (Scenario.job [10; 10; 10]) ∅ (Scenario.fresh 3) 10 initialWorker
           Sample.afterA 2%nat Hnil Hctx Hrun Hlive).
Defined.

(** ** Exactly one outcome on the good path *)

Lemma failAll_inv (err : error) (origIdx : list nat) (js : list nat) :
  forall (es es' : gmap nat error),
    failAll err origIdx js es = Ok es' ->
    forall i, es' !! i
              = if decide (i ∈ omap (fun j => origIdx !! j) js)
                then Some err else es !! i.
Proof.
  intros es es' H.
  assert (Hjs : Forall (fun j => (j < length origIdx)%nat) js).
  { revert es H. induction js as [|j js IH]; intros es H; [constructor|].
    cbn [failAll] in H. apply bind_Ok in H. destruct H as (i0 & Hi0 & H).
    apply index_Ok in Hi0. constructor; [by apply lookup_lt_Some in Hi0|].
    by apply IH in H. }
  destruct (failAll_spec err origIdx js es Hjs) as (es'' & H' & Hspec).
  rewrite H in H'. by injection H' as <-.
Qed.

Lemma writeResults_frame_js (r : VectorizationResult) (origIdx : list nat)
    (js : list nat) :
  forall (es : gmap nat error) (vs : list (option embedding)) es' vs',
    writeResults (Some r) origIdx js es vs = Ok (es', vs') ->
    forall i, i ∉ omap (fun j => origIdx !! j) js ->
              es' !! i = es !! i /\ vs' !! i = vs !! i.
Proof.
  induction js as [|j js IH]; intros es vs es' vs' H i Hi.
  - by injection H as <- <-.
  - cbn [writeResults deref mbind Res_bind] in H.
    apply bind_Ok in H. destruct H as (e & _ & H).
    assert (Hidx : forall i0, origIdx !! j = Some i0 ->
              i <> i0 /\ i ∉ omap (fun j => origIdx !! j) js).
    { intros i0 Hi0. cbn [omap list_omap] in Hi. rewrite Hi0 in Hi.
      apply not_elem_of_cons in Hi. done. }
    destruct e as [e|].
    + apply bind_Ok in H. destruct H as (i0 & Hi0 & H). apply index_Ok in Hi0.
      destruct (Hidx i0 Hi0) as [Hne Hrest].
      destruct (IH _ _ _ _ H i Hrest) as [-> ->]. split; [|done].
      by apply lookup_insert_ne.
    + apply bind_Ok in H. destruct H as (i0 & Hi0 & H). apply index_Ok in Hi0.
      apply bind_Ok in H. destruct H as (v & _ & H).
      apply bind_Ok in H. destruct H as (vs1 & Hst & H).
      apply store_Ok in Hst. destruct Hst as [_ ->].
      destruct (Hidx i0 Hi0) as [Hne Hrest].
      destruct (IH _ _ _ _ H i Hrest) as [-> ->]. split; [done|].
      by apply list_lookup_insert_ne.
Qed.

Lemma writeResults_inv (r : VectorizationResult) (origIdx : list nat)
    (js : list nat) :
  forall (es : gmap nat error) (vs : list (option embedding)) es' vs',
    NoDup (omap (fun j => origIdx !! j) js) ->
    writeResults (Some r) origIdx js es vs = Ok (es', vs') ->
    forall j i, j ∈ js -> origIdx !! j = Some i ->
      (exists e, Errors r !! j = Some (Some e)
                 /\ es' !! i = Some e /\ vs' !! i = vs !! i)
      \/ (Errors r !! j = Some None /\ es' !! i = es !! i
          /\ exists v, Vector r !! j = Some v /\ vs' !! i = Some v).
Proof.
  induction js as [|j0 js IH]; intros es vs es' vs' Hnd H j i Hj Hi.
  - by apply not_elem_of_nil in Hj.
  - cbn [writeResults deref mbind Res_bind] in H.
    apply bind_Ok in H. destruct H as (e & He & H). apply index_Ok in He.
    assert (Hsplit : forall i0, origIdx !! j0 = Some i0 ->
              (i0 ∉ omap (fun j => origIdx !! j) js)
              /\ NoDup (omap (fun j => origIdx !! j) js)
              /\ (j ∈ js -> i <> i0)).
    { intros i0 Hi0. cbn [omap list_omap] in Hnd. rewrite Hi0 in Hnd.
      apply NoDup_cons in Hnd as [Hn Hnd]. split; [done|]. split; [done|].
      intros Hjs ->. apply Hn. apply list_elem_of_omap. by exists j. }
    destruct e as [e|].
    + apply bind_Ok in H. destruct H as (i0 & Hi0 & H). apply index_Ok in Hi0.
      destruct (Hsplit i0 Hi0) as (Hn & Hnd' & Hne).
      destruct (decide (j ∈ js)) as [Hjs|Hnjs].
      * destruct (IH _ _ _ _ Hnd' H j i Hjs Hi)
          as [(e' & H1 & H2 & H3)|(H1 & H2 & H3)]; [left|right].
        -- by exists e'.
        -- split; [done|]. split; [|done].
           rewrite H2. apply lookup_insert_ne. intros <-. by apply Hne.
      * apply elem_of_cons in Hj as [->|Hj]; [|done].
        assert (i = i0) as -> by congruence.
        destruct (writeResults_frame_js _ _ _ _ _ _ _ H i0 Hn) as [H1 H2].
        left. exists e. split; [done|]. split; [|done].
        by rewrite H1, lookup_insert_eq.
    + apply bind_Ok in H. destruct H as (i0 & Hi0 & H). apply index_Ok in Hi0.
      apply bind_Ok in H. destruct H as (v & Hv & H). apply index_Ok in Hv.
      apply bind_Ok in H. destruct H as (vs1 & Hst & H).
      apply store_Ok in Hst. destruct Hst as [Hlt ->].
      destruct (Hsplit i0 Hi0) as (Hn & Hnd' & Hne).
      destruct (decide (j ∈ js)) as [Hjs|Hnjs].
      * destruct (IH _ _ _ _ Hnd' H j i Hjs Hi)
          as [(e' & H1 & H2 & H3)|(H1 & H2 & H3)]; [left|right].
        -- exists e'. split; [done|]. split; [done|].
           rewrite H3. apply list_lookup_insert_ne. intros <-. by apply Hne.
        -- done.
      * apply elem_of_cons in Hj as [->|Hj]; [|done].
        assert (i = i0) as -> by congruence.
        destruct (writeResults_frame_js _ _ _ _ _ _ _ H i0 Hn) as [H1 H2].
        right. split; [done|]. split; [done|]. exists v. split; [done|].
        rewrite H2. by apply list_lookup_insert_eq.
Qed.

Lemma sorted_NoDup (l : list nat) : StronglySorted lt l -> NoDup l.
Proof.
  induction 1 as [|x l Hs IH Hall]; [constructor|].
  apply NoDup_cons. split; [|done]. intros Hin.
  rewrite Forall_forall in Hall. specialize (Hall _ Hin). lia.
Qed.

(** A request that returns gives each of its indices that had no outcome
    exactly one, and leaves every other index alone. *)
Lemma makeRequest_settles env job ph txts idx s rl err s' :
  noNilVector env ->
  length txts = length idx -> NoDup idx ->
  makeRequest env job ph txts idx s = Ok (rl, err, s') ->
  (forall i, i ∈ idx -> outcomeFree (errs s) (vecs s) i ->
             oneOutcome (errs s') (vecs s') i)
  /\ (forall i, i ∉ idx ->
                errs s' !! i = errs s !! i /\ vecs s' !! i = vecs s !! i).
Proof.
  intros Hnil Hlen Hnd H. split.
  2:{ destruct (makeRequest_frame _ _ _ _ _ _ _ _ _ H) as (es & vs & -> & _ & Hf).
      exact Hf. }
  assert (Hom : omap (fun j => idx !! j) (seq 0 (length txts)) = idx).
  { rewrite omap_lookup_seq by lia. rewrite Hlen. apply firstn_all. }
  unfold makeRequest in H. cbn [errs vecs emit called] in H.
  destruct (resp_err _) as [e|].
  - apply bind_Ok in H. destruct H as (es & Hes & H). injection H as _ _ <-.
    cbn [errs vecs set_errs emit called].
    intros i Hi [_ Hv]. left. split; [|done].
    rewrite (failAll_inv _ _ _ _ _ Hes i), Hom. rewrite decide_True by done.
    by eexists.
  - apply bind_Ok in H. destruct H as ([es vs] & Hw & H). injection H as _ _ <-.
    cbn [errs vecs set_errs set_vecs emit called].
    destruct (resp_res _) as [r|] eqn:Hr.
    2:{ destruct txts; [|discriminate Hw]. destruct idx; [|discriminate Hlen].
        intros i Hi. by apply not_elem_of_nil in Hi. }
    intros i Hi [He Hv].
    apply list_elem_of_lookup in Hi as [j Hj].
    assert (Hjs : j ∈ seq 0 (length txts)).
    { apply elem_of_seq. apply lookup_lt_Some in Hj. lia. }
    rewrite <- Hom in Hnd.
    destruct (writeResults_inv r idx _ _ _ _ _ Hnd Hw j i Hjs Hj)
      as [(e & H1 & H2 & H3)|(H1 & H2 & v & H3 & H4)].
    + left. split; [by rewrite H2|congruence].
    + right. split; [congruence|].
      destruct v as [v|]; [by exists v|].
      by destruct (Hnil _ _ _ r j Hr H1).
Qed.

Lemma settled_insert job s e s' :
  origIndex s' = origIndex s -> vecs s' = vecs s ->
  objCounter s' = S (objCounter s) ->
  errs s' = <[objCounter s := e]> (errs s) ->
  wellFormed job (objCounter s) (texts s) (origIndex s) ->
  settled job s -> settled job s'.
Proof.
  intros Ho Hv Hc He Hwf Hs i Hl. rewrite Ho, Hv, Hc, He.
  specialize (Hs i Hl). unfold oneOutcome, outcomeFree in *.
  assert (Hpend : objCounter s ∉ origIndex s).
  { intros Hin. destruct Hwf as (_ & _ & Hb & _). rewrite Forall_forall in Hb.
    destruct (Hb _ Hin). lia. }
  destruct (decide (i = objCounter s)) as [->|Hne].
  - rewrite decide_True by (split; [lia|done]).
    rewrite decide_False in Hs by (intros [? _]; lia).
    destruct Hs as [_ Hv']. left. split; [|done].
    rewrite lookup_insert_eq. by eexists.
  - rewrite lookup_insert_ne by done.
    destruct (decide ((i < objCounter s)%nat /\ i ∉ origIndex s)) as [[? ?]|Hn].
    + rewrite decide_True by (split; [lia|done]). done.
    + rewrite decide_False; [done|]. intros [? ?]. apply Hn. split; [lia|done].
Qed.

Lemma settled_skip job s s' :
  origIndex s' = origIndex s -> vecs s' = vecs s -> errs s' = errs s ->
  objCounter s' = S (objCounter s) ->
  batchJob.skipObject job !! objCounter s = Some true ->
  settled job s -> settled job s'.
Proof.
  intros Ho Hv He Hc Hsk Hs i Hl. rewrite Ho, Hv, Hc, He.
  specialize (Hs i Hl).
  assert (Hne : i <> objCounter s).
  { intros ->. destruct Hl as [_ Hl]. congruence. }
  destruct (decide ((i < objCounter s)%nat /\ i ∉ origIndex s)) as [[? ?]|Hn].
  - rewrite decide_True by (split; [lia|done]). done.
  - rewrite decide_False; [done|]. intros [? ?]. apply Hn. split; [lia|done].
Qed.

Lemma settled_same job s s' :
  origIndex s' = origIndex s -> vecs s' = vecs s -> errs s' = errs s ->
  objCounter s' = objCounter s ->
  settled job s -> settled job s'.
Proof.
  intros Ho Hv He Hc Hs i Hl. rewrite Ho, Hv, Hc, He. by apply Hs.
Qed.

(** After a request for the whole sub-batch, with the sub-batch emptied,
    everything the counter has passed is settled. *)
Lemma settled_after_request env job ph s rl err s1 s' :
  noNilVector env ->
  wellFormed job (objCounter s) (texts s) (origIndex s) ->
  makeRequest env job ph (texts s) (origIndex s) s = Ok (rl, err, s1) ->
  errs s' = errs s1 -> vecs s' = vecs s1 -> objCounter s' = objCounter s ->
  settled job s ->
  forall i, live job i ->
    if decide (i < objCounter s')%nat
    then oneOutcome (errs s') (vecs s') i
    else outcomeFree (errs s') (vecs s') i.
Proof.
  intros Hnil Hwf Hreq He Hv Hc Hs i Hl. rewrite He, Hv, Hc.
  pose proof Hwf as (_ & Hsorted & Hb & _).
  destruct (makeRequest_settles _ _ _ _ _ _ _ _ _ Hnil
              (wellFormed_length _ _ _ _ Hwf) (sorted_NoDup _ Hsorted) Hreq)
    as [Hnew Hold].
  specialize (Hs i Hl).
  destruct (decide (i ∈ origIndex s)) as [Hin|Hnin].
  - rewrite Forall_forall in Hb. destruct (Hb _ Hin) as [Hlt _].
    rewrite decide_True by done.
    rewrite decide_False in Hs by (intros [_ ?]; done).
    by apply Hnew.
  - unfold oneOutcome, outcomeFree in *. destruct (Hold i Hnin) as [-> ->].
    destruct (decide (i < objCounter s)%nat) as [Hlt|Hge].
    + rewrite decide_True in Hs by done. done.
    + rewrite decide_False in Hs by (intros [? _]; done). done.
Qed.

Section Happy.
Variable env : Env.
Variable job : batchJob.t.
Variable es0 : gmap nat error.
Variable vs0 : list (option embedding).
Variable t0 : list Event.
Hypothesis Hnil : noNilVector env.
Hypothesis Hctx : forall k, ctxErr env k = false.
Hypothesis Hlimits :
  forall k cfg txts rl,
    resp_rateLimit (Vectorize env k cfg txts) = Some rl -> ~ throttled rl.

Lemma settled_empty s :
  origIndex s = [] ->
  (forall i, live job i ->
     if decide (i < objCounter s)%nat
     then oneOutcome (errs s) (vecs s) i
     else outcomeFree (errs s) (vecs s) i) ->
  settled job s.
Proof.
  intros Ho H i Hl. specialize (H i Hl). rewrite Ho.
  destruct (decide (i < objCounter s)%nat) as [Hlt|Hge].
  - rewrite decide_True; [done|]. split; [done|apply not_elem_of_nil].
  - rewrite decide_False; [done|]. by intros [? _].
Qed.

Lemma dispatch_happy rl s ctl s' :
  jobInv job es0 vs0 t0 (PcLoop, s) ->
  ~ throttled rl ->
  settled job s ->
  dispatch env job rl s = Ok (ctl, s') ->
  ctl = Continue
  /\ settled job s'
  /\ firstRequest s' = firstRequest s
  /\ forall rl', rateLimit s' = Some rl' -> ~ throttled rl'.
Proof.
  intros (Hoc & Hwf & _ & _) Hq Hs H. inv_simpl.
  apply dispatch_cases in H. destruct H as (rlNew & err & s1 & Hreq & H).
  destruct (makeRequest_answer _ _ _ _ _ _ _ _ _ Hreq) as [HrlNew _].
  pose proof (makeRequest_frame _ _ _ _ _ _ _ _ _ Hreq) as (es & vs & Hs1 & _).
  assert (Hq' : ~ throttled (default rl rlNew)).
  { subst rlNew. destruct (resp_rateLimit _) as [r|] eqn:E; [|done].
    exact (Hlimits _ _ _ _ E). }
  assert (Hset : forall s2, errs s2 = errs s1 -> vecs s2 = vecs s1 ->
            objCounter s2 = objCounter s -> origIndex s2 = [] -> settled job s2).
  { intros s2 He Hv Hc Ho. apply settled_empty; [done|].
    apply (settled_after_request env job Dispatch (tick s) rlNew err s1);
      try done. }
  unfold afterRequest in H. cbn zeta in H.
  destruct H as [(_ & -> & ->)|[(H1 & H2 & _)|(H1 & H2 & _)]].
  - split; [done|]. split; [by apply Hset; subst s1|].
    subst s1. split; [done|]. cbn. intros rl' [= <-]. done.
  - by destruct Hq'.
  - by destruct Hq'.
Qed.
Lemma settled_admit s tok rl text :
  wellFormed job (objCounter s) (texts s) (origIndex s) ->
  settled job s -> settled job (admitState s tok rl text).
Proof.
  intros Hwf Hs i Hl. specialize (Hs i Hl). unfold admitState. inv_simpl.
  assert (Hpend : objCounter s ∉ origIndex s).
  { intros Hin. destruct Hwf as (_ & _ & Hb & _). rewrite Forall_forall in Hb.
    destruct (Hb _ Hin). lia. }
  destruct (decide (i = objCounter s)) as [->|Hne].
  - rewrite decide_False in Hs by (intros [? _]; lia).
    rewrite decide_False; [done|]. intros [_ Hn]. apply Hn.
    apply elem_of_app. right. by apply list_elem_of_singleton.
  - destruct (decide ((i < objCounter s)%nat /\ i ∉ origIndex s)) as [[? ?]|Hn].
    + rewrite decide_True; [done|]. split; [lia|]. intros Hin.
      apply elem_of_app in Hin as [Hin|Hin]; [done|].
      by apply list_elem_of_singleton in Hin.
    + rewrite decide_False; [done|]. intros [? Hn']. apply Hn. split; [lia|].
      intros Hin. apply Hn'. apply elem_of_app. by left.
Qed.

Lemma loopBody_happy s ctl s' :
  (objCounter s < length (batchJob.texts job))%nat ->
  jobInv job es0 vs0 t0 (PcLoop, s) ->
  (forall rl, rateLimit s = Some rl -> ~ throttled rl) ->
  settled job s ->
  loopBody env job s = Ok (ctl, s') ->
  ctl = Continue
  /\ settled job s'
  /\ firstRequest s' = firstRequest s
  /\ forall rl', rateLimit s' = Some rl' -> ~ throttled rl'.
Proof.
  intros Hlt Hinv Hq Hs H. pose proof Hinv as (Hoc & Hwf & Hb & Ht).
  inv_simpl. apply loopBody_cases in H.
  destruct H as [(Hc & _)|[(_ & Hsk & -> & ->)|(_ & Hsk & tok & rl & Htok & Hrl & H)]].
  - rewrite Hctx in Hc. discriminate Hc.
  - split; [done|]. split; [|done]. by apply (settled_skip job s).
  - specialize (Hq rl Hrl).
    destruct H as [(_ & -> & ->)|(_ & text & Htext & H)].
    { split; [done|]. split; [|split; [done|]].
      - by apply (settled_insert job s errTooLong).
      - cbn. intros rl' Hrl'. rewrite Hrl in Hrl'. by injection Hrl' as <-. }
    cbn zeta in H.
    assert (HA : admits rl (timePerToken s) (tokensInCurrentBatch s) tok
                   (length (texts s)) = true ->
                 jobInv job es0 vs0 t0 (PcLoop, admitState s tok rl text)).
    { intros Hadm. unfold admits in Hadm.
      apply andb_true_iff in Hadm as [_ Hn]. apply Nat.ltb_lt in Hn.
      inv_intro; try done.
      - by apply wellFormed_snoc.
      - eapply traceShape_snoc; [|exact Ht| | |]; done. }
    destruct H as [(Hadm & _ & -> & ->)|[(Hadm & Hd)|[(_ & _ & _ & Hw)|(_ & Hd)]]].
    + split; [done|]. split; [by apply settled_admit|]. split; [done|].
      cbn. intros rl' Hrl'. rewrite Hrl in Hrl'. by injection Hrl' as <-.
    + exact (dispatch_happy rl _ _ _ (HA Hadm) Hq (settled_admit _ _ _ _ Hwf Hs) Hd).
    + apply oversizeWait_cases in Hw. destruct Hw as (-> & tok' & _ & Hw).
      split; [done|]. destruct Hw as [(_ & ->)|(_ & ->)].
      * split; [by apply (settled_same job s)|]. split; [done|].
        cbn. intros rl' [= <-]. exact Hq.
      * split; [by apply (settled_insert job s errTooLongNoWait)|].
        split; [done|]. cbn. intros rl' Hrl'. rewrite Hrl in Hrl'.
        by injection Hrl' as <-.
    + by apply (dispatch_happy rl (poll s)).
Qed.

Lemma bootstrapBody_happy s s' :
  (objCounter s < length (batchJob.texts job))%nat ->
  jobInv job es0 vs0 t0 (PcBootstrap, s) ->
  (forall k cfg txts, resp_err (Vectorize env k cfg txts) = None) ->
  (forall rl, rateLimit s = Some rl -> ~ throttled rl) ->
  settled job s ->
  bootstrapBody env job s = Ok s' ->
  settled job s'
  /\ forall rl', rateLimit s' = Some rl' -> ~ throttled rl'.
Proof.
  intros Hlt (Hoc & Hwf & Hb & Ht) Hok Hq Hs H. inv_simpl.
  apply bootstrapBody_cases in H.
  destruct H as [(Hsk & ->)|(Hsk & rl & err & s1 & Hreq & H)].
  - split; [|done]. by apply (settled_skip job s).
  - assert (Hlive : live job (objCounter s)) by (split; done).
    destruct (makeRequest_answer _ _ _ _ _ _ _ _ _ Hreq) as [Hrl Herr].
    rewrite Hok in Herr. subst err.
    pose proof (makeRequest_frame _ _ _ _ _ _ _ _ _ Hreq) as (es & vs & Hs1 & _).
    destruct (makeRequest_settles _ _ _ _ _ _ _ _ _ Hnil
                (wellFormed_length _ _ _ _ (wellFormed_probe _ _ Hlive))
                (NoDup_singleton _) Hreq) as [Hnew Hold].
    assert (Hpend : objCounter s ∉ origIndex s).
    { intros Hin. destruct Hwf as (_ & _ & Hbd & _). rewrite Forall_forall in Hbd.
      destruct (Hbd _ Hin). lia. }
    subst s' s1. inv_simpl. split.
    + intros i Hl. specialize (Hs i Hl). inv_simpl.
      destruct (decide (i = objCounter s)) as [->|Hne].
      * rewrite decide_False in Hs by (intros [? _]; lia).
        rewrite decide_True by (split; [lia|done]).
        apply Hnew; [by apply list_elem_of_singleton|done].
      * destruct (Hold i) as [He Hv];
          [by intros Hin%list_elem_of_singleton|].
        unfold oneOutcome, outcomeFree in *. rewrite He, Hv.
        destruct (decide ((i < objCounter s)%nat /\ i ∉ origIndex s)) as [[? ?]|Hn].
        -- rewrite decide_True by (split; [lia|done]). done.
        -- rewrite decide_False; [done|]. intros [? ?]. apply Hn. split; [lia|done].
    + intros rl' Hrl'. rewrite Hrl in Hrl'. exact (Hlimits _ _ _ _ Hrl').
Qed.

Lemma drain_happy s s' :
  jobInv job es0 vs0 t0 (PcDrain, s) ->
  objCounter s = length (batchJob.texts job) ->
  settled job s ->
  drain env job s = Ok s' ->
  allSettled job s'.
Proof.
  intros (Hoc & Hwf & Hb & Ht) Hlen Hs H. inv_simpl.
  apply drain_cases in H.
  destruct H as [(Hno & ->)|(Hne & _ & rlNew & err & s1 & Hreq & ->)].
  - destruct Hno as [Hno|Hno]; [|done].
    apply wellFormed_length in Hwf. rewrite Hno in Hwf.
    assert (Ho : origIndex s = []) by (by destruct (origIndex s)).
    intros i Hl. specialize (Hs i Hl). inv_simpl. rewrite Ho in Hs.
    rewrite decide_True in Hs; [done|]. split; [|apply not_elem_of_nil].
    destruct Hl. lia.
  - intros i Hl.
    pose proof (settled_after_request env job Drain s rlNew err s1
                  (emit EvDone (match rlNew with
                                | Some r => set_rateLimit (Some r) s1
                                | None => s1
                                end))
                  Hnil Hwf Hreq) as Hx.
    pose proof (makeRequest_frame _ _ _ _ _ _ _ _ _ Hreq) as (es & vs & Hs1 & _).
    assert (Hproj : forall s2 : State,
              s2 = emit EvDone (match rlNew with
                                | Some r => set_rateLimit (Some r) s1
                                | None => s1
                                end) ->
              errs s2 = errs s1 /\ vecs s2 = vecs s1
              /\ objCounter s2 = objCounter s).
    { intros s2 ->. subst s1. by destruct rlNew. }
    destruct (Hproj _ eq_refl) as (He & Hv & Hc).
    specialize (Hx He Hv Hc Hs i Hl). rewrite Hc in Hx.
    rewrite decide_True in Hx; [done|]. destruct Hl. lia.
Qed.

Lemma step_happy c :
  jobInv job es0 vs0 t0 c ->
  happyInv env job c -> happyInv env job (step env job c).
Proof.
  destruct c as [pc s]. intros Hinv (Hp & Hq & Hs). unfold happyInv in *.
  pose proof Hinv as (Hoc & _). inv_simpl.
  assert (Hkeep : forall s2, firstRequest s2 = firstRequest s ->
                             probeSafe env s2).
  { intros s2 Hf. destruct Hp as [Hp|Hp]; [left; congruence|by right]. }
  unfold step. destruct pc; try done.
  - destruct (objCounter s <? length (batchJob.texts job))%nat eqn:Hlt;
      cbn [andb]; [|done].
    apply Nat.ltb_lt in Hlt. destruct (firstRequest s) eqn:Hf; [|done].
    destruct (bootstrapBody env job s) as [s'|msg] eqn:E; [|done].
    destruct Hp as [Hp|Hp]; [congruence|].
    destruct (bootstrapBody_happy _ _ Hlt Hinv Hp Hq Hs E) as [H1 H2].
    cbn [fst snd]. split; [by right|done].
  - destruct (objCounter s <? length (batchJob.texts job))%nat eqn:Hlt.
    + apply Nat.ltb_lt in Hlt.
      destruct (loopBody env job s) as [[ctl s']|msg] eqn:E; [|done].
      destruct (loopBody_happy _ _ _ Hlt Hinv Hq Hs E) as (-> & H1 & H2 & H3).
      cbn [fst snd]. split; [by apply Hkeep|done].
    + apply Nat.ltb_ge in Hlt. cbn [fst snd].
      split; [done|]. split; [done|]. split; [lia|done].
  - destruct Hs as [Hlen Hs].
    destruct (drain env job s) as [s'|msg] eqn:E; [|done].
    pose proof (drain_happy _ _ Hinv Hlen Hs E) as Hall.
    destruct (drain_no_probe _ _ _ _ E) as [Hf _].
    cbn [fst snd]. split; [by apply Hkeep|]. split; [|done].
    apply drain_cases in E.
    destruct E as [(_ & ->)|(_ & _ & rlNew & err & s1 & Hreq & ->)]; [done|].
    destruct (makeRequest_answer _ _ _ _ _ _ _ _ _ Hreq) as [Hrl _].
    pose proof (makeRequest_frame _ _ _ _ _ _ _ _ _ Hreq) as (es & vs & -> & _).
    destruct rlNew as [r|]; cbn; [|done].
    intros rl' [= <-]. symmetry in Hrl. exact (Hlimits _ _ _ _ Hrl).
Qed.

Lemma run_happy fuel :
  forall c, jobInv job es0 vs0 t0 c -> happyInv env job c ->
            happyInv env job (run env job fuel c).
Proof.
  induction fuel as [|n IH]; intros c Hinv Hh; [done|].
  cbn [run]. apply IH; [by apply step_jobInv|by apply step_happy].
Qed.
End Happy.

(** On the good path the invariant of the data model holds.  For a job as
    [ObjectBatch] enqueues it (no error, nil vectors, a skip flag per
    text), a context that is never cancelled, a provider that never
    reports the request budget as used up, a client that returns no nil
    vector for a text without error, and probing that cannot fail (the
    worker is past probing or the client reports no call-level error):
    when the job completes, every index has exactly one of skip, vector
    and error. *)
Theorem completed_job_has_exactly_one_outcome (env : Env) (job : batchJob.t)
    (fuel : nat) (s0 s : State) (i : nat) :
  noNilVector env ->
  (forall k, ctxErr env k = false) ->
  limitsAll (fun rl => ~ throttled rl) env s0 ->
  probeSafe env s0 ->
  (length (batchJob.texts job) <= length (batchJob.skipObject job))%nat ->
  runJob env job ∅ (replicate (length (batchJob.texts job)) None) fuel s0
  = (PcDone, s) ->
  (i < length (batchJob.texts job))%nat ->
  exactlyOne job s i = true.
Proof.
  intros Hnil Hctx [(rl0 & Hrl0 & Hq0) Hlimits] Hp Hlen Hrun Hi.
  set (vs := replicate (length (batchJob.texts job)) (@None embedding)) in *.
  pose proof (runJob_jobInv env job ∅ vs fuel s0) as Hinv.
  assert (Hh : happyInv env job (runJob env job ∅ vs fuel s0)).
  { apply (run_happy env job ∅ vs (trace s0)); try done.
    - apply takeJob_jobInv.
    - unfold happyInv, takeJob. inv_simpl. split; [done|]. split.
      + cbn. intros rl Hrl. rewrite Hrl0 in Hrl. by injection Hrl as <-.
      + intros j Hl. inv_simpl.
        rewrite decide_False by (intros [? _]; lia).
        split; [apply lookup_empty|]. apply lookup_replicate_2. by destruct Hl. }
  rewrite Hrun in Hinv, Hh. destruct Hinv as (_ & _ & [_ Hk] & _).
  destruct Hh as (_ & _ & Hall). cbn [fst snd] in *.
  unfold exactlyOne, hasVector, hasError.
  destruct (lookup_lt_is_Some_2 (batchJob.skipObject job) i ltac:(lia))
    as [b Hb].
  rewrite Hb. destruct b.
  - destruct (Hk i) as [-> ->]; [intros [_ Hl]; congruence|].
    rewrite lookup_empty. unfold vs. by rewrite lookup_replicate_2.
  - destruct (Hall i (conj Hi Hb)) as [[[e ->] ->]|[-> [v ->]]]; done.
Qed.

Lemma completed_job_has_exactly_one_outcome_witness :
  exactlyOne (Scenario.job [10; 10; 10]) Sample.afterA 1 = true.
Proof.
  assert (Hnil : noNilVector Scenario.envA).
  { intros k cfg txts r j Hr He Hv. injection Hr as <-. cbn [Vector Errors] in *.
    apply lookup_replicate in Hv as [Hv _]. discriminate Hv. }
  assert (Hctx : forall k, ctxErr Scenario.envA k = false) by reflexivity.
  assert (Hlimits : limitsAll (fun rl => ~ throttled rl) Scenario.envA
                      initialWorker).
  { split.
    - eexists. split; [reflexivity|]. intros [_ H]. discriminate H.
    - intros k cfg txts rl Hrl [H _]. injection Hrl as <-. discriminate H. }
  assert (Hprobe : probeSafe Scenario.envA initialWorker).
  { right. reflexivity. }
  assert (Hrun : runJob Scenario.envA (Scenario.job [10; 10; 10]) ∅
                   (replicate
                      (length (batchJob.texts (Scenario.job [10; 10; 10])))
                      None)
                   10 initialWorker
                 = (PcDone, Sample.afterA)).
  { vm_compute. reflexivity. }
  exact (completed_job_has_exactly_one_outcome Scenario.envA
           (Scenario.job [10; 10; 10]) 10 initialWorker Sample.afterA 1%nat
           Hnil Hctx Hlimits Hprobe (le_n 3) Hrun (le_S _ _ (le_n 2))).
Defined.

(** ** The REST middlewares *)

Lemma substring_prefix (p rest : string) :
  String.substring 0 (String.length p) (p ++ rest) = p.
Proof.
  induction p as [|a p IH]; simpl.
  - by destruct rest.
  - by f_equal.
Qed.

Lemma length_append (p rest : string) :
  String.length (p ++ rest) = (String.length p + String.length rest)%nat.
Proof. induction p as [|a p IH]; simpl; [done|by f_equal]. Qed.

Lemma substring_is_prefix (n : nat) :
  forall (url p : string),
    String.length p = n -> String.substring 0 n url = p ->
    exists rest, url = (p ++ rest)%string.
Proof.
  induction n as [|n IH]; intros url p Hp Hs.
  - destruct p; [|discriminate Hp]. by exists url.
  - destruct p as [|a p]; [discriminate Hp|]. injection Hp as Hp.
    destruct url as [|b url]; [discriminate Hs|].
    cbn [String.substring] in Hs. injection Hs as -> Hs.
    destruct (IH url p Hp Hs) as [rest ->]. by exists rest.
Qed.

(** The test of [addModuleHandlers] in words. *)
Lemma underModules_spec (url : string) :
  Rest.underModules url = true
  <-> exists rest, rest <> EmptyString
                   /\ url = (Rest.modulesPrefix ++ rest)%string.
Proof.
  unfold Rest.underModules. rewrite andb_true_iff, Nat.ltb_lt. split.
  - intros [Hlen Heq]. apply String.eqb_eq in Heq.
    destruct (substring_is_prefix _ url Rest.modulesPrefix eq_refl Heq)
      as [rest ->].
    exists rest. split; [|done]. intros ->.
    rewrite length_append in Hlen. simpl in Hlen. lia.
  - intros (rest & Hne & ->). split.
    + rewrite length_append. destruct rest; [done|]. simpl. lia.
    + apply String.eqb_eq. apply substring_prefix.
Qed.

(** Every URL that continues [/v1/modules] goes to the modules' multiplexer
    and to nothing else: no log entry, no CORS handling, no preflight
    answer, whatever the method.  The continuation need not begin with a
    slash. *)
Theorem module_urls_reach_only_the_mux
    (handleCORS swagger : Rest.Handler -> Rest.Handler)
    (mux handler : Rest.Handler) (method rest : string) :
  rest <> EmptyString ->
  Rest.makeSetupGlobalMiddleware handleCORS swagger mux handler
    (Rest.mkRequest method (Rest.modulesPrefix ++ rest))
  = mux (Rest.mkRequest method (Rest.modulesPrefix ++ rest)).
Proof.
  intros Hne. unfold Rest.makeSetupGlobalMiddleware, Rest.addModuleHandlers.
  cbn [Rest.URL].
  assert (H : Rest.underModules (Rest.modulesPrefix ++ rest) = true).
  { apply underModules_spec. by exists rest. }
  by rewrite H.
Qed.

Lemma module_urls_reach_only_the_mux_witness :
  Rest.makeSetupGlobalMiddleware Sample.cors Sample.swagger Sample.mux Sample.api
    (Rest.mkRequest "OPTIONS" (Rest.modulesPrefix ++ "/text2vec-openai/vectorize"))
  = Sample.mux
      (Rest.mkRequest "OPTIONS" (Rest.modulesPrefix ++ "/text2vec-openai/vectorize")).
Proof.
  assert (Hne : "/text2vec-openai/vectorize"%string <> EmptyString)
    by discriminate.
  exact (module_urls_reach_only_the_mux Sample.cors Sample.swagger Sample.mux
           Sample.api "OPTIONS" "/text2vec-openai/vectorize" Hne).
Defined.

(** The root URL and the two health URLs are answered before the method is
    looked at, [OPTIONS] included: the root with the redirect to [/v1]
    (status 301, the [Location] header and the links document), liveness
    and readiness with status 200 and nothing else.  None of them is logged
    or reaches the API handler. *)
Theorem early_answers_ignore_the_method
    (handleCORS swagger : Rest.Handler -> Rest.Handler)
    (mux handler : Rest.Handler) (method : string) :
  Rest.makeSetupGlobalMiddleware handleCORS swagger mux handler
    (Rest.mkRequest method "/")
  = [Rest.HeaderAdd "Location" "/v1";
     Rest.WriteHeader 301;
     Rest.WriteBody Rest.rootBody]
  /\ Rest.makeSetupGlobalMiddleware handleCORS swagger mux handler
       (Rest.mkRequest method "/v1/.well-known/live")
     = [Rest.WriteHeader 200]
  /\ Rest.makeSetupGlobalMiddleware handleCORS swagger mux handler
       (Rest.mkRequest method "/v1/.well-known/ready")
     = [Rest.WriteHeader 200].
Proof. repeat split. Qed.

(** An [OPTIONS] request for any URL the outer middlewares do not answer
    gets the three CORS headers and nothing else: it is not logged and
    reaches neither the swagger middleware, nor the CORS handler, nor the
    API handler. *)
Theorem preflight_is_answered_before_logging
    (handleCORS swagger : Rest.Handler -> Rest.Handler)
    (mux handler : Rest.Handler) (url : string) :
  Rest.answeredEarly url = false ->
  Rest.makeSetupGlobalMiddleware handleCORS swagger mux handler
    (Rest.mkRequest "OPTIONS" url)
  = [Rest.HeaderSet "Access-Control-Allow-Origin" "*";
     Rest.HeaderSet "Access-Control-Allow-Methods" "*";
     Rest.HeaderSet "Access-Control-Allow-Headers"
       "Content-Type, Authorization, Batch"].
Proof.
  unfold Rest.answeredEarly. rewrite !orb_false_iff.
  intros [[[H1 H2] H3] H4].
  unfold Rest.makeSetupGlobalMiddleware, Rest.addModuleHandlers,
    Rest.addHandleRoot, Rest.addLiveAndReadyness, Rest.addPreflight.
  cbn [Rest.URL Rest.Method]. by rewrite H1, H2, H3, H4.
Qed.

Lemma preflight_is_answered_before_logging_witness :
  Rest.makeSetupGlobalMiddleware Sample.cors Sample.swagger Sample.mux Sample.api
    (Rest.mkRequest "OPTIONS" "/v1/modules")
  = [Rest.HeaderSet "Access-Control-Allow-Origin" "*";
     Rest.HeaderSet "Access-Control-Allow-Methods" "*";
     Rest.HeaderSet "Access-Control-Allow-Headers"
       "Content-Type, Authorization, Batch"].
Proof.
  exact (preflight_is_answered_before_logging Sample.cors Sample.swagger
           Sample.mux Sample.api "/v1/modules" eq_refl).
Defined.

(** Every other request is logged once, with its action, method and URL,
    and then handed to the swagger middleware around the CORS handler around
    the API handler. *)
Theorem other_requests_are_logged_then_served
    (handleCORS swagger : Rest.Handler -> Rest.Handler)
    (mux handler : Rest.Handler) (r : Rest.Request) :
  Rest.answeredEarly (Rest.URL r) = false ->
  Rest.Method r <> "OPTIONS"%string ->
  Rest.makeSetupGlobalMiddleware handleCORS swagger mux handler r
  = Rest.LogDebug [("action", "restapi_request")%string;
                   ("method", Rest.Method r)%string; ("url", Rest.URL r)%string]
      "received HTTP request"
      :: swagger (handleCORS handler) r.
Proof.
  unfold Rest.answeredEarly. rewrite !orb_false_iff.
  intros [[[H1 H2] H3] H4] Hm. apply String.eqb_neq in Hm.
  unfold Rest.makeSetupGlobalMiddleware, Rest.addModuleHandlers,
    Rest.addHandleRoot, Rest.addLiveAndReadyness, Rest.addPreflight,
    Rest.makeAddLogging.
  by rewrite H1, H2, H3, H4, Hm.
Qed.

Lemma other_requests_are_logged_then_served_witness :
  Rest.makeSetupGlobalMiddleware Sample.cors Sample.swagger Sample.mux Sample.api
    (Rest.mkRequest "GET" "/v1/objects")
  = Rest.LogDebug [("action", "restapi_request")%string;
                   ("method", "GET")%string; ("url", "/v1/objects")%string]
      "received HTTP request"
      :: Sample.swagger (Sample.cors Sample.api)
           (Rest.mkRequest "GET" "/v1/objects").
Proof.
  assert (Hm : Rest.Method (Rest.mkRequest "GET" "/v1/objects")
               <> "OPTIONS"%string) by discriminate.
  exact (other_requests_are_logged_then_served Sample.cors Sample.swagger
           Sample.mux Sample.api (Rest.mkRequest "GET" "/v1/objects")
           eq_refl Hm).
Defined.
